(** * The restream supervisor of datarhei-core (restream/restream.go)

    A shallow embedding of the task registry, the task builder, the
    address validators, the reference resolver and the lifecycle
    controller, together with the properties the specification states
    about them.

    Conventions.  A Go method on [*restream] that mutates the receiver is a
    function from the state before to the state after, paired with the
    returned error (if any).  A Go [map] is a [gmap]; ranging over a map
    (whose order Go leaves unspecified) is a left fold over an enumeration
    of its keys, and the theorems hold for every enumeration.  An [int64]
    is a [Z] with the wrap-around of the Go operators written out.
    Strings are byte strings, as in Go. *)

From Stdlib Require Import ZArith Lia List Ascii String.
From stdpp Require Import base option gmap strings list fin_maps.

Local Open Scope string_scope.
Local Open Scope list_scope.

(** ** Go string primitives *)

Module GoStrings.

(** [strings.HasPrefix]. *)
Definition HasPrefix (s p : string) : bool := String.prefix p s.

(** [strings.TrimPrefix]. *)
Definition TrimPrefix (s p : string) : string :=
  if HasPrefix s p
  then String.substring (String.length p) (String.length s - String.length p) s
  else s.

(** [strings.Contains]. *)
Fixpoint Contains (s sub : string) : bool :=
  HasPrefix s sub ||
  match s with
  | EmptyString => false
  | String _ s' => Contains s' sub
  end.

(** [strings.Split] with a one-byte separator. *)
Fixpoint Split (s : string) (sep : ascii) : list string :=
  match s with
  | EmptyString => [EmptyString]
  | String c s' =>
      if Ascii.eqb c sep then EmptyString :: Split s' sep
      else match Split s' sep with
           | h :: t => String c h :: t
           | [] => [String c EmptyString]
           end
  end.

(** [strings.Join]. *)
Fixpoint Join (l : list string) (sep : string) : string :=
  match l with
  | [] => EmptyString
  | [x] => x
  | x :: l' => x +:+ sep +:+ Join l' sep
  end.

(** The UTF-8 encodings of the code points for which [unicode.IsSpace]
    holds: U+0009..U+000D, U+0020, U+0085, U+00A0, U+1680,
    U+2000..U+200A, U+2028, U+2029, U+202F, U+205F, U+3000. *)
Definition bytes (l : list nat) : string :=
  string_of_list_ascii (map ascii_of_nat l).

Definition spaces : list string :=
  map bytes
    [ [9]; [10]; [11]; [12]; [13]; [32];
      [194; 133]; [194; 160]; [225; 154; 128];
      [226; 128; 128]; [226; 128; 129]; [226; 128; 130]; [226; 128; 131];
      [226; 128; 132]; [226; 128; 133]; [226; 128; 134]; [226; 128; 135];
      [226; 128; 136]; [226; 128; 137]; [226; 128; 138];
      [226; 128; 168]; [226; 128; 169]; [226; 128; 175];
      [226; 129; 159]; [227; 128; 128] ]%nat.

(** The first white-space rune [s] starts with, if any. *)
Definition leading_space (s : string) : option string :=
  List.find (fun sp => HasPrefix s sp) spaces.

Fixpoint trim_left (fuel : nat) (s : string) : string :=
  match fuel with
  | O => s
  | S fuel' =>
      match leading_space s with
      | Some sp => trim_left fuel' (TrimPrefix s sp)
      | None => s
      end
  end.

Definition rev_string (s : string) : string :=
  string_of_list_ascii (List.rev (list_ascii_of_string s)).

Definition trailing_space (s : string) : option string :=
  List.find (fun sp => HasPrefix (rev_string s) (rev_string sp)) spaces.

Fixpoint trim_right (fuel : nat) (s : string) : string :=
  match fuel with
  | O => s
  | S fuel' =>
      match trailing_space s with
      | Some sp =>
          trim_right fuel'
            (String.substring 0 (String.length s - String.length sp) s)
      | None => s
      end
  end.

(** [strings.TrimSpace]: every removed rune is at least one byte long, so
    the length of the string is enough fuel. *)
Definition TrimSpace (s : string) : string :=
  let s1 := trim_left (String.length s) s in
  trim_right (String.length s1) s1.

(** [fmt.Sprintf("%d", n)] for a non-negative [n]. *)
Definition digit (n : N) : ascii := ascii_of_N (48 + n).

Fixpoint itoa_aux (fuel : nat) (n : N) (acc : string) : string :=
  match fuel with
  | O => acc
  | S fuel' =>
      let acc' := String (digit (n mod 10)) acc in
      if (n <? 10)%N then acc' else itoa_aux fuel' (n / 10)%N acc'
  end.

Definition Itoa (n : N) : string := itoa_aux (S (N.to_nat (N.log2 n))) n "".

End GoStrings.

Import GoStrings.

(** ** Machine integers *)

Definition min_int64 : Z := - 2 ^ 63.
Definition max_int64 : Z := 2 ^ 63 - 1.

(** The value an [int64] holds after an arithmetic operation whose
    mathematical result is [z]. *)
Definition wrap64 (z : Z) : Z := ((z + 2 ^ 63) mod 2 ^ 64 - 2 ^ 63)%Z.

Definition int64_ok (z : Z) : Prop := (min_int64 <= z <= max_int64)%Z.

(** ** Errors

    One constructor per error site of restream.go; the formatted message
    of the Go error is determined by the constructor and its arguments. *)

#[warnings="-register-all"]
Inductive error : Type :=
| ErrUnknownProcess                    (* "unknown process" *)
| ErrProcessExists                     (* "process already exists" *)
| ErrEmptyID                           (* "an empty ID is not allowed" *)
| ErrInvalidDefinition                 (* "invalid process definition" *)
| ErrMaxProcesses (n : Z)              (* "max. number of running processes (%d) reached" *)
| ErrStillRunning (id : string)        (* "the process with the ID '%s' is still running" *)
| ErrNoInput (cfg : string)
| ErrEmptyInputID (cfg : string)
| ErrInputIDInUse (io cfg : string)
| ErrEmptyInputAddress (cfg io : string)
| ErrInvalidInputAddress (cfg io addr : string) (cause : option error)
| ErrNoOutput (cfg : string)
| ErrEmptyOutputID (cfg : string)
| ErrOutputIDInUse (io cfg : string)
| ErrEmptyOutputAddress (cfg io : string)
| ErrInvalidOutputAddress (cfg io : string) (cause : option error)
| ErrNotAllowed                        (* "address is not allowed" *)
| ErrNotAPath                          (* "not a valid path (%w)" *)
| ErrNotInside (addr basedir : string) (* "%s is not inside of %s" *)
| ErrEmptyAddress                      (* "empty address" *)
| ErrInvalidFormat (addr : string)     (* "invalid format (%s)" *)
| ErrSelfReference (addr : string)     (* "self-reference not possible (%s)" *)
| ErrUnknownReference (refid addr : string)
| ErrNoSuchOutput (refid outid addr : string)
| ErrReference (cfg io : string) (cause : error)
| ErrExternal (msg : string).          (* an error returned by a collaborator *)

Inductive result (A : Type) : Type :=
| Ok (a : A)
| Err (e : error).

Arguments Ok {A} a.
Arguments Err {A} e.

Definition is_Ok {A} (x : result A) : bool :=
  match x with Ok _ => true | Err _ => false end.

(** ** Data model (package app) *)

Record ConfigIOCleanup : Type := mkCleanup {
  Pattern : string;
  MaxFiles : Z;
  MaxFileAge : Z;
  PurgeOnDelete : bool
}.

Record ConfigIO : Type := mkIO {
  io_ID : string;
  io_Address : string;
  io_Options : list string;
  io_Cleanup : list ConfigIOCleanup
}.

(** [LimitCPU] is a float64 in Go; it is only handed on to the engine
    factory and is carried here as an opaque number. *)
Record Config : Type := mkConfig {
  ID : string;
  Reference : string;
  FFVersion : string;
  Input : list ConfigIO;
  Output : list ConfigIO;
  Options : list string;
  Reconnect : bool;
  ReconnectDelay : Z;
  Autostart : bool;
  StaleTimeout : Z;
  LimitCPU : Z;
  LimitMemory : Z;
  LimitWaitFor : Z
}.

Record Process : Type := mkProcess {
  p_ID : string;
  p_Reference : string;
  p_Config : Config;
  Order : string;
  CreatedAt : Z;
  UpdatedAt : Z
}.

Definition Process_set_Order (o : string) (p : Process) : Process :=
  mkProcess (p_ID p) (p_Reference p) (p_Config p) o (CreatedAt p) (UpdatedAt p).

Definition Process_set_Config (c : Config) (p : Process) : Process :=
  mkProcess (p_ID p) (p_Reference p) c (Order p) (CreatedAt p) (UpdatedAt p).

Definition Process_set_UpdatedAt (u : Z) (p : Process) : Process :=
  mkProcess (p_ID p) (p_Reference p) (p_Config p) (Order p) (CreatedAt p) u.

Definition Config_set_FFVersion (v : string) (c : Config) : Config :=
  mkConfig (ID c) (Reference c) v (Input c) (Output c) (Options c)
    (Reconnect c) (ReconnectDelay c) (Autostart c) (StaleTimeout c)
    (LimitCPU c) (LimitMemory c) (LimitWaitFor c).

Definition Config_set_Input (i : list ConfigIO) (c : Config) : Config :=
  mkConfig (ID c) (Reference c) (FFVersion c) i (Output c) (Options c)
    (Reconnect c) (ReconnectDelay c) (Autostart c) (StaleTimeout c)
    (LimitCPU c) (LimitMemory c) (LimitWaitFor c).

Definition Config_set_Output (o : list ConfigIO) (c : Config) : Config :=
  mkConfig (ID c) (Reference c) (FFVersion c) (Input c) o (Options c)
    (Reconnect c) (ReconnectDelay c) (Autostart c) (StaleTimeout c)
    (LimitCPU c) (LimitMemory c) (LimitWaitFor c).

Definition Config_set_Options (o : list string) (c : Config) : Config :=
  mkConfig (ID c) (Reference c) (FFVersion c) (Input c) (Output c) o
    (Reconnect c) (ReconnectDelay c) (Autostart c) (StaleTimeout c)
    (LimitCPU c) (LimitMemory c) (LimitWaitFor c).

Definition IO_set_Address (a : string) (io : ConfigIO) : ConfigIO :=
  mkIO (io_ID io) a (io_Options io) (io_Cleanup io).

Definition IO_set_ID (i : string) (io : ConfigIO) : ConfigIO :=
  mkIO i (io_Address io) (io_Options io) (io_Cleanup io).

Definition IO_set_Options (o : list string) (io : ConfigIO) : ConfigIO :=
  mkIO (io_ID io) (io_Address io) o (io_Cleanup io).

Definition IO_set_Cleanup (c : list ConfigIOCleanup) (io : ConfigIO) : ConfigIO :=
  mkIO (io_ID io) (io_Address io) (io_Options io) c.

(** ** Collaborators: engine handle, engine factory, filesystems *)

Inductive engine_call : Type :=
| CallStart
| CallStop (wait : bool)
| CallKill (wait : bool).

(** Modelled from the spec: the engine handle (interface process.Process,
    package process) is not part of restream.go.  The spec names its
    operations [Start()], [Stop(wait)], [Kill(wait)] and [Status()], whose
    [Order] field is the order the engine was last given.  The handle
    records the calls it received, latest first. *)
Record engine : Type := mkEngine {
  e_order : string;
  e_calls : list engine_call
}.

Definition engine_Start (e : engine) : engine :=
  mkEngine "start" (CallStart :: e_calls e).

Definition engine_Stop (wait : bool) (e : engine) : engine :=
  mkEngine "stop" (CallStop wait :: e_calls e).

Definition engine_Kill (wait : bool) (e : engine) : engine :=
  mkEngine (e_order e) (CallKill wait :: e_calls e).

(** [ffmpeg.ProcessConfig], as restream.go fills it in (parser, logger and
    exit callback left out). *)
Record ProcessConfig : Type := mkProcessConfig {
  pc_Reconnect : bool;
  pc_ReconnectDelay : Z;
  pc_StaleTimeout : Z;
  pc_LimitCPU : Z;
  pc_LimitMemory : Z;
  pc_LimitDuration : Z;
  pc_Command : list string
}.

(** Modelled from the spec: the engine factory (interface ffmpeg.FFmpeg) is
    not part of restream.go.  Its state is the version string its skills
    report and the pool of playout ports: [None] when no port range was
    configured ([net.ErrNoPortrangerProvided]), otherwise the free ports. *)
Record FFmpeg : Type := mkFFmpeg {
  ff_Version : string;
  ff_ports : option (list Z)
}.

Inductive port_result : Type :=
| PortOk (port : Z) (ff : FFmpeg)
| PortNoPortranger
| PortErr (e : error).

Definition GetPort (ff : FFmpeg) : port_result :=
  match ff_ports ff with
  | None => PortNoPortranger
  | Some [] => PortErr (ErrExternal "no more ports are available")
  | Some (p :: free) => PortOk p (mkFFmpeg (ff_Version ff) (Some free))
  end.

Definition PutPort (port : Z) (ff : FFmpeg) : FFmpeg :=
  match ff_ports ff with
  | None => ff
  | Some free => mkFFmpeg (ff_Version ff) (Some (port :: free))
  end.

(** The cleanup rule handed to a filesystem ([rfs.Pattern]). *)
Record CleanupPattern : Type := mkPattern {
  cp_Pattern : string;
  cp_MaxFiles : Z;
  cp_MaxFileAge : Z;
  cp_PurgeOnDelete : bool
}.

(** Modelled from the spec: a filesystem with cleanup (package restream/fs)
    is not part of restream.go.  It has a name, a type, a base directory
    ([Metadata("base")]), a size and a limit, a started flag, and the
    cleanup rules installed per task id. *)
Record Filesystem : Type := mkFilesystem {
  fs_Name : string;
  fs_Type : string;
  fs_base : string;
  fs_size : Z;
  fs_limit : Z;
  fs_started : bool;
  fs_cleanup : gmap string (list CleanupPattern)
}.

Definition fs_SetCleanup (id : string) (ps : list CleanupPattern)
    (f : Filesystem) : Filesystem :=
  mkFilesystem (fs_Name f) (fs_Type f) (fs_base f) (fs_size f) (fs_limit f)
    (fs_started f)
    (<[id := default [] (fs_cleanup f !! id) ++ ps]> (fs_cleanup f)).

Definition fs_UnsetCleanup (id : string) (f : Filesystem) : Filesystem :=
  mkFilesystem (fs_Name f) (fs_Type f) (fs_base f) (fs_size f) (fs_limit f)
    (fs_started f) (delete id (fs_cleanup f)).

Definition fs_Start (f : Filesystem) : Filesystem :=
  mkFilesystem (fs_Name f) (fs_Type f) (fs_base f) (fs_size f) (fs_limit f)
    true (fs_cleanup f).

Definition fs_Stop (f : Filesystem) : Filesystem :=
  mkFilesystem (fs_Name f) (fs_Type f) (fs_base f) (fs_size f) (fs_limit f)
    false (fs_cleanup f).

(** ** The task and the supervisor state *)

(** Modelled from the spec: the log parser (interface parse.Parser) is not
    part of restream.go; only its report history, which [UpdateProcess]
    transfers, is kept. *)
Record Parser : Type := mkParser {
  pr_history : list string
}.

Definition NewProcessParser : Parser := mkParser [].

(** The logger and the metadata of a task are left out: no operation below
    reads them. *)
Record task : Type := mkTask {
  t_valid : bool;
  t_id : string;
  t_reference : string;
  t_process : Process;
  t_config : Config;
  t_command : list string;
  t_ffmpeg : option engine;           (* [None] is the nil interface *)
  t_parser : option Parser;           (* [None] is the nil interface *)
  t_playout : option (gmap string Z); (* [None] is the nil map *)
  t_usesDisk : bool
}.

Definition task_set_valid (b : bool) (t : task) : task :=
  mkTask b (t_id t) (t_reference t) (t_process t) (t_config t) (t_command t)
    (t_ffmpeg t) (t_parser t) (t_playout t) (t_usesDisk t).

Definition task_set_process (p : Process) (t : task) : task :=
  mkTask (t_valid t) (t_id t) (t_reference t) p (t_config t) (t_command t)
    (t_ffmpeg t) (t_parser t) (t_playout t) (t_usesDisk t).

Definition task_set_config (c : Config) (t : task) : task :=
  mkTask (t_valid t) (t_id t) (t_reference t) (t_process t) c (t_command t)
    (t_ffmpeg t) (t_parser t) (t_playout t) (t_usesDisk t).

Definition task_set_command (c : list string) (t : task) : task :=
  mkTask (t_valid t) (t_id t) (t_reference t) (t_process t) (t_config t) c
    (t_ffmpeg t) (t_parser t) (t_playout t) (t_usesDisk t).

Definition task_set_ffmpeg (e : option engine) (t : task) : task :=
  mkTask (t_valid t) (t_id t) (t_reference t) (t_process t) (t_config t)
    (t_command t) e (t_parser t) (t_playout t) (t_usesDisk t).

Definition task_set_parser (p : option Parser) (t : task) : task :=
  mkTask (t_valid t) (t_id t) (t_reference t) (t_process t) (t_config t)
    (t_command t) (t_ffmpeg t) p (t_playout t) (t_usesDisk t).

Definition task_set_playout (p : option (gmap string Z)) (t : task) : task :=
  mkTask (t_valid t) (t_id t) (t_reference t) (t_process t) (t_config t)
    (t_command t) (t_ffmpeg t) (t_parser t) p (t_usesDisk t).

Definition task_set_usesDisk (b : bool) (t : task) : task :=
  mkTask (t_valid t) (t_id t) (t_reference t) (t_process t) (t_config t)
    (t_command t) (t_ffmpeg t) (t_parser t) (t_playout t) b.

(** The state of a [restream]: the fields of the Go struct that the
    operations below read or write.  [diskfs] is derived from [fs_list]
    (in Go both slices hold the same filesystem objects).  [store] is what
    the last [save] handed to the store; [startOnce] and [stopOnce] are
    [true] once the [sync.Once] has fired. *)
Record restream : Type := mkRestream {
  ffmpeg : FFmpeg;
  maxProc : Z;
  nProc : Z;
  fs_list : list Filesystem;
  observing : bool;
  tasks : gmap string task;
  store : gmap string Process;
  startOnce : bool;
  stopOnce : bool
}.

Definition set_ffmpeg (ff : FFmpeg) (r : restream) : restream :=
  mkRestream ff (maxProc r) (nProc r) (fs_list r) (observing r) (tasks r)
    (store r) (startOnce r) (stopOnce r).

Definition set_nProc (n : Z) (r : restream) : restream :=
  mkRestream (ffmpeg r) (maxProc r) n (fs_list r) (observing r) (tasks r)
    (store r) (startOnce r) (stopOnce r).

Definition set_fs_list (l : list Filesystem) (r : restream) : restream :=
  mkRestream (ffmpeg r) (maxProc r) (nProc r) l (observing r) (tasks r)
    (store r) (startOnce r) (stopOnce r).

Definition set_observing (b : bool) (r : restream) : restream :=
  mkRestream (ffmpeg r) (maxProc r) (nProc r) (fs_list r) b (tasks r)
    (store r) (startOnce r) (stopOnce r).

Definition set_tasks (m : gmap string task) (r : restream) : restream :=
  mkRestream (ffmpeg r) (maxProc r) (nProc r) (fs_list r) (observing r) m
    (store r) (startOnce r) (stopOnce r).

Definition set_store (s : gmap string Process) (r : restream) : restream :=
  mkRestream (ffmpeg r) (maxProc r) (nProc r) (fs_list r) (observing r)
    (tasks r) s (startOnce r) (stopOnce r).

Definition set_once (start stop : bool) (r : restream) : restream :=
  mkRestream (ffmpeg r) (maxProc r) (nProc r) (fs_list r) (observing r)
    (tasks r) (store r) start stop.

Definition diskfs (r : restream) : list Filesystem :=
  List.filter (fun f => String.eqb (fs_Type f) "disk") (fs_list r).

(** The keys of the registry in the order [map_to_list] lists them; a Go
    [range] may visit them in any order, that is, in any permutation of
    this list. *)
Definition task_ids (r : restream) : list string := (map_to_list (tasks r)).*1.

(** [save]: hand the catalog to the store. *)
Definition save (r : restream) : restream :=
  set_store (t_process <$> tasks r) r.

(** ** Lifecycle controller

    A call that does not return normally in Go (a method call on a nil
    engine handle panics; an unbounded recursion overflows the stack) has
    the outcome [None]; otherwise the outcome is the state after the call
    and the returned error, if any. *)

Definition outcome : Type := option (restream * option error).

(** [startProcess] *)
Definition startProcess (id : string) (r : restream) : outcome :=
  match tasks r !! id with
  | None => Some (r, Some ErrUnknownProcess)
  | Some task =>
      if negb (t_valid task) then Some (r, Some ErrInvalidDefinition)
      else
        match t_ffmpeg task with
        | None => None
        | Some eng =>
            if String.eqb (Order (t_process task)) "start"
               && String.eqb (e_order eng) "start"
            then Some (r, None)
            else if (0 <? maxProc r)%Z && (maxProc r <=? nProc r)%Z
            then Some (r, Some (ErrMaxProcesses (maxProc r)))
            else
              let task1 := task_set_process
                             (Process_set_Order "start" (t_process task)) task in
              let task2 := task_set_ffmpeg (Some (engine_Start eng)) task1 in
              Some (set_nProc (wrap64 (nProc r + 1))
                      (set_tasks (<[id := task2]> (tasks r)) r), None)
        end
  end.

(** [stopProcess] *)
Definition stopProcess (id : string) (r : restream) : restream * option error :=
  match tasks r !! id with
  | None => (r, Some ErrUnknownProcess)
  | Some task =>
      match t_ffmpeg task with
      | None => (r, None)
      | Some eng =>
          if String.eqb (Order (t_process task)) "stop"
             && String.eqb (e_order eng) "stop"
          then (r, None)
          else
            let task1 := task_set_process
                           (Process_set_Order "stop" (t_process task)) task in
            let task2 := task_set_ffmpeg (Some (engine_Stop true eng)) task1 in
            (set_nProc (wrap64 (nProc r - 1))
               (set_tasks (<[id := task2]> (tasks r)) r), None)
      end
  end.

(** [restartProcess] *)
Definition restartProcess (id : string) (r : restream) : outcome :=
  match tasks r !! id with
  | None => Some (r, Some ErrUnknownProcess)
  | Some task =>
      if negb (t_valid task) then Some (r, Some ErrInvalidDefinition)
      else if String.eqb (Order (t_process task)) "stop" then Some (r, None)
      else
        match t_ffmpeg task with
        | None => None
        | Some eng =>
            Some (set_tasks
                    (<[id := task_set_ffmpeg (Some (engine_Kill true eng)) task]>
                       (tasks r)) r, None)
        end
  end.

(** [unsetPlayoutPorts]: the ports of the task go back to the pool of the
    engine factory and the map becomes nil. *)
Definition unsetPlayoutPorts (t : task) (ff : FFmpeg) : FFmpeg * task :=
  match t_playout t with
  | None => (ff, t)
  | Some playout =>
      (foldl (fun ff port => PutPort port ff) ff (map_to_list playout).*2,
       task_set_playout None t)
  end.

(** [unsetCleanup] *)
Definition unsetCleanup (id : string) (r : restream) : restream :=
  set_fs_list (map (fs_UnsetCleanup id) (fs_list r)) r.

(** [deleteProcess] *)
Definition deleteProcess (id : string) (r : restream) : restream * option error :=
  match tasks r !! id with
  | None => (r, Some ErrUnknownProcess)
  | Some task =>
      if negb (String.eqb (Order (t_process task)) "stop")
      then (r, Some (ErrStillRunning id))
      else
        let r1 := set_ffmpeg (fst (unsetPlayoutPorts task (ffmpeg r))) r in
        let r2 := unsetCleanup id r1 in
        (set_tasks (delete id (tasks r2)) r2, None)
  end.

(** The exported wrappers run the operation under the lock and [save] when
    it returned no error. *)
Definition save_on_success (x : restream * option error) : restream * option error :=
  match x with
  | (r', Some e) => (r', Some e)
  | (r', None) => (save r', None)
  end.

Definition StartProcess (id : string) (r : restream) : outcome :=
  save_on_success <$> startProcess id r.

Definition StopProcess (id : string) (r : restream) : restream * option error :=
  save_on_success (stopProcess id r).

Definition DeleteProcess (id : string) (r : restream) : restream * option error :=
  save_on_success (deleteProcess id r).

Definition RestartProcess (id : string) (r : restream) : outcome :=
  restartProcess id r.

(** ** Cleanup rules *)

Definition is_lower (c : ascii) : bool :=
  (97 <=? nat_of_ascii c)%nat && (nat_of_ascii c <=? 122)%nat.

(** The longest prefix of lower-case letters, and the rest. *)
Fixpoint span_lower (s : string) : string * string :=
  match s with
  | String c s' =>
      if is_lower c
      then let '(a, b) := span_lower s' in (String c a, b)
      else (EmptyString, s)
  | EmptyString => (EmptyString, EmptyString)
  end.

(** The regular expression [^([a-z]+):] of [setCleanup]: the captured name
    and what is left of the pattern once the match is removed. *)
Definition rePrefix (pattern : string) : option (string * string) :=
  match span_lower pattern with
  | (String c name, String ":" rest) => Some (String c name, rest)
  | _ => None
  end.

(** [fs.SetCleanup] on the first filesystem of the list with that name. *)
Fixpoint set_cleanup_first (name id : string) (p : CleanupPattern)
    (l : list Filesystem) : list Filesystem :=
  match l with
  | [] => []
  | f :: l' =>
      if String.eqb (fs_Name f) name
      then fs_SetCleanup id [p] f :: l'
      else f :: set_cleanup_first name id p l'
  end.

Definition setCleanup_rule (id : string) (l : list Filesystem)
    (c : ConfigIOCleanup) : list Filesystem :=
  match rePrefix (Pattern c) with
  | None => l
  | Some (name, rest) =>
      let name :=
        if String.eqb name "diskfs" then "disk"
        else if String.eqb name "memfs" then "mem"
        else name in
      set_cleanup_first name id
        (mkPattern rest (MaxFiles c) (MaxFileAge c) (PurgeOnDelete c)) l
  end.

(** [setCleanup] *)
Definition setCleanup (id : string) (config : Config) (r : restream) : restream :=
  set_fs_list
    (foldl (fun l output => foldl (setCleanup_rule id) l (io_Cleanup output))
       (fs_list r) (Output config)) r.

(** ** Supervisor start and stop, and the filesystem observer

    [ids] is the order in which the [range] over the registry visits the
    task ids. *)

Definition Start_step (acc : option restream) (id : string) : option restream :=
  r ← acc;
  match tasks r !! id with
  | None => Some r
  | Some t =>
      r1 ← (if String.eqb (Order (t_process t)) "start"
            then fst <$> startProcess id r else Some r);
      Some (setCleanup id (t_config t) r1)
  end.

(** [Start] *)
Definition Start (ids : list string) (r : restream) : option restream :=
  if startOnce r then Some r
  else
    r1 ← foldl Start_step (Some r) ids;
    let r2 := set_observing true (set_fs_list (map fs_Start (fs_list r1)) r1) in
    Some (set_once true false r2).

Definition Stop_step (r : restream) (id : string) : restream :=
  match tasks r !! id with
  | None => r
  | Some t =>
      let r1 :=
        match t_ffmpeg t with
        | Some eng =>
            set_tasks
              (<[id := task_set_ffmpeg (Some (engine_Stop true eng)) t]>
                 (tasks r)) r
        | None => r
        end in
      unsetCleanup id r1
  end.

(** [Stop] *)
Definition Stop (ids : list string) (r : restream) : restream :=
  if stopOnce r then r
  else
    let r1 := foldl Stop_step r ids in
    let r2 := set_observing false r1 in
    let r3 := set_fs_list (map fs_Stop (fs_list r2)) r2 in
    set_once false true r3.

Definition observe_step (r : restream) (id : string) : restream :=
  match tasks r !! id with
  | None => r
  | Some t =>
      if negb (t_valid t) then r
      else if negb (t_usesDisk t) then r
      else if negb (String.eqb (Order (t_process t)) "start") then r
      else fst (stopProcess id r)
  end.

(** One tick of [observe] on a filesystem reporting [(size, limit)]. *)
Definition observe_tick (ids : list string) (size limit : Z) (r : restream)
    : restream :=
  let isFull := (0 <? limit)%Z && (limit <=? size)%Z in
  if isFull then foldl observe_step r ids else r.

(** ** Regular expressions, paths and versions used by the task builder *)

Definition newline : ascii := ascii_of_nat 10.

(** The text up to, and without, the first newline: a [.] of a Go regular
    expression matches every character but the newline. *)
Fixpoint first_line (s : string) : string :=
  match s with
  | EmptyString => EmptyString
  | String c s' => if Ascii.eqb c newline then EmptyString else String c (first_line s')
  end.

Definition drop_string (n : nat) (s : string) : string :=
  String.substring n (String.length s - n) s.

(** [(.+):output=(.+)] on a text without newline: the first group is
    greedy, so of all the places where [":output="] occurs with something
    before and something after it, the last one splits the text. *)
Fixpoint split_reference (s : string) : option (string * string) :=
  match s with
  | EmptyString => None
  | String c s' =>
      match split_reference s' with
      | Some (refid, outid) => Some (String c refid, outid)
      | None =>
          if HasPrefix s' ":output="
          then match drop_string 8 s' with
               | EmptyString => None
               | outid => Some (String c EmptyString, outid)
               end
          else None
      end
  end.

(** [re.FindStringSubmatch(address)] for the expression
    [^#(.+):output=(.+)] of [resolveAddress]: the two captures. *)
Definition re_reference (address : string) : option (string * string) :=
  match address with
  | String "#" rest => split_reference (first_line rest)
  | _ => None
  end.

(** The expression as the specification writes it, [^#(.+):output=(.+)$]:
    the match has to reach the end of the address. *)
Definition re_reference_anchored (address : string) : option (string * string) :=
  match address with
  | String "#" rest =>
      if String.eqb (first_line rest) rest then split_reference rest else None
  | _ => None
  end.

(** The position after the first ["]"] of [s], if there is one. *)
Fixpoint after_bracket (s : string) : option nat :=
  match s with
  | EmptyString => None
  | String c s' =>
      if Ascii.eqb c "]" then Some 1%nat else S <$> after_bracket s'
  end.

(** The expression [^\[[^\]]*\]] of the tee syntax: [FindString] and
    [ReplaceAllString(a, "")], that is, the leading bracketed group of
    options (empty when there is none) and the element without it. *)
Definition teeOptions (a : string) : string * string :=
  match a with
  | String "[" s' =>
      match after_bracket s' with
      | Some n => (String.substring 0 (S n) a, drop_string (S n) a)
      | None => (EmptyString, a)
      end
  | _ => (EmptyString, a)
  end.

(** One path element of [filepath.Clean]: [stack] holds the elements kept
    so far, last one first. *)
Definition clean_step (rooted : bool) (stack : list string) (elem : string)
    : list string :=
  if String.eqb elem "" || String.eqb elem "." then stack
  else if String.eqb elem ".." then
    match stack with
    | top :: below =>
        if String.eqb top ".." then elem :: stack else below
    | [] => if rooted then [] else [elem]
    end
  else elem :: stack.

(** [filepath.Clean] on a Unix path. *)
Definition filepath_Clean (path : string) : string :=
  let rooted := HasPrefix path "/" in
  let elems := List.rev (foldl (clean_step rooted) [] (Split path "/")) in
  if rooted then "/" +:+ Join elems "/"
  else match elems with
       | [] => "."
       | _ => Join elems "/"
       end.

(** [filepath.Abs], with the outcome of [os.Getwd] as a parameter. *)
Definition filepath_Abs (getwd : option string) (path : string) : option string :=
  if HasPrefix path "/" then Some (filepath_Clean path)
  else
    match getwd with
    | None => None
    | Some wd =>
        Some (filepath_Clean (if String.eqb path "" then wd else wd +:+ "/" +:+ path))
    end.

Definition is_digit (c : ascii) : bool :=
  (48 <=? nat_of_ascii c)%nat && (nat_of_ascii c <=? 57)%nat.

Definition is_alnum_dash (c : ascii) : bool :=
  is_digit c || is_lower c
  || ((65 <=? nat_of_ascii c)%nat && (nat_of_ascii c <=? 90)%nat)
  || Ascii.eqb c "-".

Fixpoint span_digits (s : string) : string * string :=
  match s with
  | String c s' =>
      if is_digit c
      then let '(a, b) := span_digits s' in (String c a, b)
      else (EmptyString, s)
  | EmptyString => (EmptyString, EmptyString)
  end.

Definition parse_decimal (s : string) : N :=
  foldl (fun n c => (10 * n + (N_of_ascii c - 48))%N) 0%N (list_ascii_of_string s).

(** [strconv.ParseUint(s, 10, 64)] on a non-empty string of digits. *)
Definition ParseUint (s : string) : option N :=
  let n := parse_decimal s in
  if (n <? 2 ^ 64)%N then Some n else None.

(** An optional group [(\.[0-9]+)?]: the digits captured (none when the
    group does not take part) and the rest. *)
Definition dot_digits (s : string) : string * string :=
  match s with
  | String "." s' =>
      match span_digits s' with
      | (EmptyString, _) => (EmptyString, s)
      | (d, rest) => (d, rest)
      end
  | _ => (EmptyString, s)
  end.

(** [[0-9A-Za-z\-]+(\.[0-9A-Za-z\-]+)*] on the whole of [s]. *)
Definition dotted_identifiers (s : string) : bool :=
  forallb (fun part =>
             negb (String.eqb part "")
             && forallb is_alnum_dash (list_ascii_of_string part))
          (Split s ".").

(** The optional pre-release and build-metadata groups, up to the end. *)
Definition version_tail (s : string) : bool :=
  match s with
  | EmptyString => true
  | String "-" s' =>
      match Split s' "+" with
      | [pre] => dotted_identifiers pre
      | pre :: meta => dotted_identifiers pre && dotted_identifiers (Join meta "+")
      | [] => false
      end
  | String "+" s' => dotted_identifiers s'
  | _ => false
  end.

Record Version : Type := mkVersion {
  Major : N;
  Minor : N;
  Patch : N
}.

(** [semver.NewVersion] of the library Masterminds/semver: the text has to
    match [^v?([0-9]+)(\.[0-9]+)?(\.[0-9]+)?(-pre)?(\+meta)?$], and each
    number has to fit 64 bits; a missing minor or patch number is 0. *)
Definition semver_NewVersion (v : string) : option Version :=
  let s := match v with String "v" s' => s' | _ => v end in
  match span_digits s with
  | (EmptyString, _) => None
  | (major, s1) =>
      let '(minor, s2) := dot_digits s1 in
      let '(patch, s3) := dot_digits s2 in
      if version_tail s3 then
        major ← ParseUint major;
        minor ← (if String.eqb minor "" then Some 0%N else ParseUint minor);
        patch ← (if String.eqb patch "" then Some 0%N else ParseUint patch);
        Some (mkVersion major minor patch)
      else None
  end.

(** [strconv.Itoa]. *)
Definition Itoa_int (z : Z) : string :=
  if (z <? 0)%Z then "-" +:+ Itoa (Z.to_N (- z)) else Itoa (Z.to_N z).

(** ** The collaborators of the task builder

    The packages net/url, glob and restream/replace, the address allow-list
    and the process constructor of the engine factory, and
    [app.Config.CreateCommand] are not part of restream.go: the builder is
    parametrised by them. *)

Class Collaborators : Type := {
  url_HasScheme : string -> bool;
  url_Validate : string -> option error;
  ffmpeg_ValidateInputAddress : string -> bool;
  ffmpeg_ValidateOutputAddress : string -> bool;
  ffmpeg_New : ProcessConfig -> result engine;
  os_Getwd : option string;
  replace_Replace :
    string -> string -> string -> option (gmap string string) ->
    option Config -> string -> string;
  CreateCommand : Config -> list string;
  glob_Match : string -> string -> result bool
}.

Section Builder.

Context `{Collaborators}.

(** *** Placeholders *)

(** A Go loop [for i, x := range l { ...; l[i] = x' }]: the new element is
    computed from the elements already rewritten, the current one and the
    ones still to come. *)
Fixpoint update_each {A : Type} (f : list A -> A -> list A -> A)
    (done todo : list A) : list A :=
  match todo with
  | [] => done
  | x :: rest => update_each f (done ++ [f done x rest]) rest
  end.

Definition replace_all (steps : list (string * string)) (vars : option (gmap string string))
    (config : option Config) (section : string) (s : string) : string :=
  foldl (fun s '(placeholder, value) =>
           replace_Replace s placeholder value vars config section) s steps.

(** [resolvePlaceholders].  The replacer is handed the config as it is at
    the time of the call: an option already rewritten is visible in it
    (Go writes it into the shared slice), the rewritten ID and address of
    an input or output only once the element has been written back. *)
Definition resolvePlaceholders (config : Config) : Config :=
  let vars : gmap string string :=
    <["reference" := Reference config]> {["processid" := ID config]} in
  let id := ID config in
  let ref := Reference config in
  let options :=
    update_each
      (fun done option rest =>
         let cfg := Config_set_Options (done ++ option :: rest) config in
         replace_all [("diskfs", ""); ("fs:*", "")] (Some vars) (Some cfg)
           "global" option)
      [] (Options config) in
  let config := Config_set_Options options config in
  let resolve_io (section idname : string) (with_cleanup : bool)
        (set : list ConfigIO -> Config) done io rest :=
    let io_id :=
      replace_all [("processid", id); ("reference", ref)] None None section
        (io_ID io) in
    let vars := <[idname := io_id]> vars in
    let own := [(idname, io_id); ("processid", id); ("reference", ref)] in
    let address :=
      replace_all [("diskfs", ""); ("memfs", ""); ("fs:*", ""); ("rtmp", ""); ("srt", "")]
        (Some vars) (Some (set (done ++ io :: rest))) section
        (replace_all own None None section (io_Address io)) in
    let options :=
      update_each
        (fun odone option orest =>
           let cfg := set (done ++ IO_set_Options (odone ++ option :: orest) io :: rest) in
           replace_all [("diskfs", ""); ("memfs", ""); ("fs:*", "")]
             (Some vars) (Some cfg) section
             (replace_all own None None section option))
        [] (io_Options io) in
    let cleanup :=
      if with_cleanup
      then map (fun c => mkCleanup (replace_all own None None section (Pattern c))
                           (MaxFiles c) (MaxFileAge c) (PurgeOnDelete c))
             (io_Cleanup io)
      else io_Cleanup io in
    mkIO io_id address options cleanup in
  let inputs :=
    update_each
      (resolve_io "input" "inputid" false (fun l => Config_set_Input l config))
      [] (Input config) in
  let config := Config_set_Input inputs config in
  let outputs :=
    update_each
      (resolve_io "output" "outputid" true (fun l => Config_set_Output l config))
      [] (Output config) in
  Config_set_Output outputs config.

(** *** References *)

(** [resolveAddress] *)
Definition resolveAddress (tasks : gmap string task) (id address : string)
    : result string :=
  match address with
  | EmptyString => Err ErrEmptyAddress
  | String c _ =>
      if negb (Ascii.eqb c "#") then Ok address
      else
        match re_reference address with
        | None => Err (ErrInvalidFormat address)
        | Some (refid, outid) =>
            if String.eqb refid id then Err (ErrSelfReference address)
            else
              match tasks !! refid with
              | None => Err (ErrUnknownReference refid address)
              | Some task =>
                  match List.find (fun x => String.eqb (io_ID x) outid)
                          (Output (t_config task)) with
                  | Some x => Ok (io_Address x)
                  | None => Err (ErrNoSuchOutput refid outid address)
                  end
              end
        end
  end.

Fixpoint resolve_inputs (tasks : gmap string task) (cfgid : string)
    (done todo : list ConfigIO) : list ConfigIO * option error :=
  match todo with
  | [] => (done, None)
  | input :: rest =>
      match resolveAddress tasks cfgid (io_Address input) with
      | Err e => (done ++ todo, Some (ErrReference cfgid (io_ID input) e))
      | Ok address =>
          resolve_inputs tasks cfgid (done ++ [IO_set_Address address input]) rest
      end
  end.

(** [resolveAddresses]: the config as the call leaves it, and the error. *)
Definition resolveAddresses (tasks : gmap string task) (config : Config)
    : Config * option error :=
  let '(inputs, err) := resolve_inputs tasks (ID config) [] (Input config) in
  (Config_set_Input inputs config, err).

(** *** Address validation *)

(** [validateInputAddress] *)
Definition validateInputAddress (address basedir : string) : string * option error :=
  match (if url_HasScheme address then url_Validate address else None) with
  | Some err => (address, Some err)
  | None =>
      if negb (ffmpeg_ValidateInputAddress address)
      then (address, Some ErrNotAllowed)
      else (address, None)
  end.

(** [validateOutputAddress] on an address that is not in tee syntax. *)
Definition validate_single (address basedir : string)
    : string * bool * option error :=
  let address := TrimPrefix address "file:" in
  if url_HasScheme address then
    match url_Validate address with
    | Some err => (address, false, Some err)
    | None =>
        if negb (ffmpeg_ValidateOutputAddress address)
        then (address, false, Some ErrNotAllowed)
        else (address, false, None)
    end
  else if String.eqb address "-" then ("pipe:", false, None)
  else
    match filepath_Abs os_Getwd address with
    | None => ("", false, Some ErrNotAPath)
    | Some address =>
        if HasPrefix address "/dev/" then
          if negb (ffmpeg_ValidateOutputAddress ("file:" +:+ address))
          then (address, false, Some ErrNotAllowed)
          else ("file:" +:+ address, false, None)
        else if negb (HasPrefix address basedir)
        then (address, false, Some (ErrNotInside address basedir))
        else if negb (ffmpeg_ValidateOutputAddress ("file:" +:+ address))
        then (address, false, Some ErrNotAllowed)
        else ("file:" +:+ address, true, None)
    end.

(** The loop of [validateOutputAddress] over the elements of a tee
    address; [validate] is the nested call of [validateOutputAddress],
    [todo] are the elements still to validate and [validated] the ones
    already rewritten. *)
Fixpoint tee_elements
    (validate : string -> option (string * bool * option error))
    (address : string) (todo validated : list string) (isFile : bool)
    : option (string * bool * option error) :=
  match todo with
  | [] => Some (Join validated "|", isFile, None)
  | a :: rest =>
      let '(options, a) := teeOptions a in
      match validate a with
      | None => None
      | Some (_, _, Some err) => Some (address, false, Some err)
      | Some (va, file, None) =>
          tee_elements validate address rest (validated ++ [options +:+ va])
            (isFile || file)
      end
  end.

Definition is_tee (address : string) : bool :=
  Contains address "|" || HasPrefix address "[".

(** [validateOutputAddress].  The Go function calls itself on the elements
    of a tee address; [fuel] bounds the depth of these calls, and the
    result is [None] when the bound is reached. *)
Fixpoint validateOutputAddress_fuel (fuel : nat) (address basedir : string)
    : option (string * bool * option error) :=
  match fuel with
  | O => None
  | S fuel' =>
      if is_tee address
      then tee_elements (fun a => validateOutputAddress_fuel fuel' a basedir)
             address (Split address "|") [] false
      else Some (validate_single address basedir)
  end.

(** Every nested call is on an element no longer than the address, and on
    a shorter one unless the element is the whole address and has no
    bracketed group to strip, in which case the Go recursion never ends:
    the length of the address bounds the depth of a recursion that ends. *)
Definition validateOutputAddress (address basedir : string)
    : option (string * bool * option error) :=
  validateOutputAddress_fuel (S (String.length address)) address basedir.

(** *** Config validation *)

(** [if err != nil { maxFails++ }] *)
Definition count_failure (err : option error) (maxFails : nat) : nat :=
  match err with
  | Some _ => S maxFails
  | None => maxFails
  end.

(** The loop over the disk filesystems for an input address: the address
    and the error of the last call, and the number of failed calls. *)
Definition validate_input_on_disks (address : string) (bases : list string)
    : string * option error * nat :=
  foldl (fun '(address, _, maxFails) base =>
           let '(address, err) := validateInputAddress address base in
           (address, err, count_failure err maxFails))
        (address, None, 0%nat) bases.

Fixpoint validate_inputs (cfgid : string) (bases : list string)
    (ids : gmap string bool) (inputs : list ConfigIO) : option error :=
  match inputs with
  | [] => None
  | io :: rest =>
      let io_id := TrimSpace (io_ID io) in
      if (String.length io_id =? 0)%nat then Some (ErrEmptyInputID cfgid)
      else if bool_decide (is_Some (ids !! io_id))
      then Some (ErrInputIDInUse io_id cfgid)
      else
        let ids := <[io_id := true]> ids in
        let address := TrimSpace (io_Address io) in
        if (String.length address =? 0)%nat
        then Some (ErrEmptyInputAddress cfgid io_id)
        else
          match bases with
          | _ :: _ =>
              let '(address, err, maxFails) := validate_input_on_disks address bases in
              if (maxFails =? List.length bases)%nat
              then Some (ErrInvalidInputAddress cfgid io_id address err)
              else validate_inputs cfgid bases ids rest
          | [] =>
              match validateInputAddress address "/" with
              | (address, Some err) =>
                  Some (ErrInvalidInputAddress cfgid io_id address (Some err))
              | (_, None) => validate_inputs cfgid bases ids rest
              end
          end
  end.

(** The loop over the disk filesystems for an output address: the local
    variables [io.Address], [err], [maxFails] and [hasFiles] after it. *)
Fixpoint validate_output_on_disks (address : string) (err : option error)
    (maxFails : nat) (hasFiles : bool) (bases : list string)
    : option (string * option error * nat * bool) :=
  match bases with
  | [] => Some (address, err, maxFails, hasFiles)
  | base :: rest =>
      '(address, isFile, err) ← validateOutputAddress address base;
      validate_output_on_disks address err
        (count_failure err maxFails) (hasFiles || isFile) rest
  end.

Fixpoint validate_outputs (cfgid : string) (bases : list string)
    (ids : gmap string bool) (hasFiles : bool) (outputs : list ConfigIO)
    : option (result bool) :=
  match outputs with
  | [] => Some (Ok hasFiles)
  | io :: rest =>
      let io_id := TrimSpace (io_ID io) in
      if (String.length io_id =? 0)%nat then Some (Err (ErrEmptyOutputID cfgid))
      else if bool_decide (is_Some (ids !! io_id))
      then Some (Err (ErrOutputIDInUse io_id cfgid))
      else
        let ids := <[io_id := true]> ids in
        let address := TrimSpace (io_Address io) in
        if (String.length address =? 0)%nat
        then Some (Err (ErrEmptyOutputAddress cfgid io_id))
        else
          match bases with
          | _ :: _ =>
              '(_, err, maxFails, hasFiles) ←
                validate_output_on_disks address None 0 hasFiles bases;
              if (maxFails =? List.length bases)%nat
              then Some (Err (ErrInvalidOutputAddress cfgid io_id err))
              else validate_outputs cfgid bases ids hasFiles rest
          | [] =>
              '(_, isFile, err) ← validateOutputAddress address "/";
              match err with
              | Some err => Some (Err (ErrInvalidOutputAddress cfgid io_id (Some err)))
              | None => validate_outputs cfgid bases ids (hasFiles || isFile) rest
              end
          end
  end.

(** [validateConfig], given the base directories of the disk filesystems.
    The loops work on copies of the inputs and outputs ([for _, io :=
    range]) and the function does not write them back, so the config is
    left as it was and the result is only [(usesDisk, err)]; [None] when a
    nested address validation does not return. *)
Definition validateConfig (bases : list string) (config : Config)
    : option (result bool) :=
  match Input config with
  | [] => Some (Err (ErrNoInput (ID config)))
  | _ =>
      match validate_inputs (ID config) bases ∅ (Input config) with
      | Some err => Some (Err err)
      | None =>
          match Output config with
          | [] => Some (Err (ErrNoOutput (ID config)))
          | _ => validate_outputs (ID config) bases ∅ false (Output config)
          end
      end
  end.

Definition disk_bases (r : restream) : list string := map fs_base (diskfs r).

(** *** Playout ports *)

(** The options up to the first ["-playout_httpport"]: once the Go loop
    has seen it, [skip] stays set and every later option is dropped. *)
Fixpoint strip_playout_port (options : list string) : list string :=
  match options with
  | [] => []
  | o :: rest =>
      if String.eqb o "-playout_httpport" then [] else o :: strip_playout_port rest
  end.

Fixpoint assign_ports (ff : FFmpeg) (playout : gmap string Z)
    (done todo : list ConfigIO)
    : FFmpeg * gmap string Z * list ConfigIO * option error :=
  match todo with
  | [] => (ff, playout, done, None)
  | input :: rest =>
      if negb (HasPrefix (io_Address input) "avstream:")
         && negb (HasPrefix (io_Address input) "playout:")
      then assign_ports ff playout (done ++ [input]) rest
      else
        let options := strip_playout_port (io_Options input) in
        match GetPort ff with
        | PortOk port ff' =>
            assign_ports ff' (<[io_ID input := port]> playout)
              (done ++ [IO_set_Options
                          (options ++ ["-playout_httpport"; Itoa_int port]) input])
              rest
        | PortNoPortranger =>
            assign_ports ff playout (done ++ [IO_set_Options options input]) rest
        | PortErr e => (ff, playout, done ++ todo, Some e)
        end
  end.

(** [setPlayoutPorts] *)
Definition setPlayoutPorts (t : task) (ff : FFmpeg) : FFmpeg * task * option error :=
  let '(ff, t) := unsetPlayoutPorts t ff in
  let '(ff, playout, inputs, err) := assign_ports ff ∅ [] (Input (t_config t)) in
  (ff,
   task_set_playout (Some playout)
     (task_set_config (Config_set_Input inputs (t_config t)) t),
   err).

(** *** The task builder *)

(** [time.Duration(n) * time.Second] *)
Definition seconds (n : Z) : Z := wrap64 (wrap64 n * 1000000000).

Definition process_config (t : task) : ProcessConfig :=
  let c := t_config t in
  mkProcessConfig (Reconnect c) (seconds (ReconnectDelay c))
    (seconds (StaleTimeout c)) (LimitCPU c) (LimitMemory c)
    (seconds (LimitWaitFor c)) (t_command t).

(** The version constraint [createTask] writes into the config: the caret
    is put in front of the version before [semver.NewVersion] reads it. *)
Definition createTask_FFVersion (version : string) : string :=
  let v := "^" +:+ version in
  match semver_NewVersion v with
  | Some sv => "^" +:+ Itoa (Major sv) +:+ "." +:+ Itoa (Minor sv) +:+ ".0"
  | None => v
  end.

(** [createTask] at time [now] (in Unix seconds): the config of the caller
    as the call leaves it, the state (the port pool may have changed), and
    the task or the error. *)
Definition createTask (now : Z) (config : Config) (r : restream)
    : option (Config * restream * result task) :=
  let id := TrimSpace (ID config) in
  if (String.length id =? 0)%nat then Some (config, r, Err ErrEmptyID)
  else
    let config := Config_set_FFVersion
                    (createTask_FFVersion (ff_Version (ffmpeg r))) config in
    let process :=
      mkProcess (ID config) (Reference config) config
        (if Autostart config then "start" else "stop") now now in
    let t := mkTask false (ID config) (p_Reference process) process
               (resolvePlaceholders (p_Config process)) [] None None None false in
    match resolveAddresses (tasks r) (t_config t) with
    | (_, Some err) => Some (config, r, Err err)
    | (cfg, None) =>
        let t := task_set_config cfg t in
        usesDisk ← validateConfig (disk_bases r) (t_config t);
        match usesDisk with
        | Err err => Some (config, r, Err err)
        | Ok usesDisk =>
            let t := task_set_usesDisk usesDisk t in
            match setPlayoutPorts t (ffmpeg r) with
            | (ff, _, Some err) => Some (config, set_ffmpeg ff r, Err err)
            | (ff, t, None) =>
                let r := set_ffmpeg ff r in
                let t := task_set_command (CreateCommand (t_config t)) t in
                let t := task_set_parser (Some NewProcessParser) t in
                match ffmpeg_New (process_config t) with
                | Err err => Some (config, r, Err err)
                | Ok eng =>
                    Some (config, r,
                          Ok (task_set_valid true (task_set_ffmpeg (Some eng) t)))
                end
            end
        end
    end.

(** *** Adding, updating and reloading a process *)

(** The state in which [AddProcess] calls [startProcess]: the task is in
    the registry and its cleanup rules are installed. *)
Definition AddProcess_inserted (t : task) (r : restream) : restream :=
  setCleanup (t_id t) (t_config t) (set_tasks (<[t_id t := t]> (tasks r)) r).

(** The part of [AddProcess] that runs under the write lock. *)
Definition AddProcess_insert (t : task) (r : restream) : outcome :=
  match tasks r !! t_id t with
  | Some _ => Some (r, Some ErrProcessExists)
  | None =>
      let r := AddProcess_inserted t r in
      if String.eqb (Order (t_process t)) "start" then
        '(r, err) ← startProcess (t_id t) r;
        match err with
        | Some err => Some (set_tasks (delete (t_id t) (tasks r)) r, Some err)
        | None => Some (save r, None)
        end
      else Some (save r, None)
  end.

(** [AddProcess]: the config of the caller after the call, the state and
    the error. *)
Definition AddProcess (now : Z) (config : Config) (r : restream)
    : option (Config * restream * option error) :=
  '(config, r, t) ← createTask now config r;
  match t with
  | Err err => Some (config, r, Some err)
  | Ok t => '(r, err) ← AddProcess_insert t r; Some (config, r, err)
  end.

(** [parser.TransferReportHistory(dst)] *)
Definition TransferReportHistory (src dst : Parser) : Parser :=
  mkParser (pr_history src).

(** [UpdateProcess]; [now] and [now'] are the two readings of the clock. *)
Definition UpdateProcess (now now' : Z) (id : string) (config : Config)
    (r : restream) : option (Config * restream * option error) :=
  '(config, r, t) ← createTask now config r;
  match t with
  | Err err => Some (config, r, Some err)
  | Ok t =>
      match tasks r !! id with
      | None => Some (config, r, Some ErrUnknownProcess)
      | Some task =>
          let t := task_set_process (Process_set_UpdatedAt now' (t_process t)) t in
          old_parser ← t_parser task;
          let t := task_set_parser
                     (TransferReportHistory old_parser <$> t_parser t) t in
          let t := task_set_process
                     (Process_set_Order (Order (t_process task)) (t_process t)) t in
          if negb (String.eqb id (t_id t)) && bool_decide (is_Some (tasks r !! t_id t))
          then Some (config, r, Some ErrProcessExists)
          else
            match stopProcess id r with
            | (r, Some err) => Some (config, r, Some err)
            | (r, None) =>
                match deleteProcess id r with
                | (r, Some err) => Some (config, r, Some err)
                | (r, None) =>
                    let r := set_tasks (<[t_id t := t]> (tasks r)) r in
                    let r := setCleanup (t_id t) (t_config t) r in
                    r ← (if String.eqb (Order (t_process t)) "start"
                         then fst <$> startProcess (t_id t) r else Some r);
                    Some (config, save r, None)
                end
            end
      end
  end.

(** [reloadProcess]: the task is modified in place, so what was done before
    an error stays done. *)
Definition reloadProcess (id : string) (r : restream) : outcome :=
  match tasks r !! id with
  | None => Some (r, Some ErrUnknownProcess)
  | Some t =>
      let t := task_set_valid false t in
      let t := task_set_config
                 (resolvePlaceholders (p_Config (t_process t))) t in
      let put t r := set_tasks (<[id := t]> (tasks r)) r in
      let '(cfg, err) := resolveAddresses (tasks (put t r)) (t_config t) in
      let t := task_set_config cfg t in
      match err with
      | Some err => Some (put t r, Some err)
      | None =>
          usesDisk ← validateConfig (disk_bases r) (t_config t);
          match usesDisk with
          | Err err => Some (put (task_set_usesDisk false t) r, Some err)
          | Ok usesDisk =>
              let t := task_set_usesDisk usesDisk t in
              let '(ff, t, err) := setPlayoutPorts t (ffmpeg r) in
              let r := set_ffmpeg ff r in
              match err with
              | Some err => Some (put t r, Some err)
              | None =>
                  let t := task_set_command (CreateCommand (t_config t)) t in
                  let r := put t r in
                  let order := String.eqb (Order (t_process t)) "start" in
                  let r := if order then fst (stopProcess id r) else r in
                  t ← tasks r !! id;
                  let t := task_set_parser (Some NewProcessParser) t in
                  match ffmpeg_New (process_config t) with
                  | Err err => Some (put t r, Some err)
                  | Ok eng =>
                      let t := task_set_valid true (task_set_ffmpeg (Some eng) t) in
                      let r := put t r in
                      if order then
                        '(r, _) ← startProcess id r; Some (r, None)
                      else Some (r, None)
                  end
              end
          end
      end
  end.

Definition ReloadProcess (id : string) (r : restream) : outcome :=
  save_on_success <$> reloadProcess id r.

(** *** Loading the catalog *)

(** The default constraint of [load]: here the version is read before the
    caret is put in front. *)
Definition load_FFVersion (version : string) : string :=
  "^" +:+
  match semver_NewVersion version with
  | Some sv => Itoa (Major sv) +:+ "." +:+ Itoa (Minor sv) +:+ ".0"
  | None => version
  end.

(** The first loop of [load]: one task, not yet valid, per stored process. *)
Definition load_task (version : string) (id : string) (process : Process) : task :=
  let process :=
    if (String.length (FFVersion (p_Config process)) =? 0)%nat
    then Process_set_Config
           (Config_set_FFVersion (load_FFVersion version) (p_Config process))
           process
    else process in
  mkTask false id (p_Reference process) process
    (resolvePlaceholders (p_Config process)) [] None None None false.

(** One round of the last loop of [load] on the task [id]: the tasks and
    the engine factory after it, or the error that ends [load]. *)
Definition load_step (acc : option (result (gmap string task * FFmpeg)))
    (bases : list string) (id : string)
    : option (result (gmap string task * FFmpeg)) :=
  acc ← acc;
  match acc with
  | Err err => Some (Err err)
  | Ok (tasks, ff) =>
      match tasks !! id with
      | None => Some (Ok (tasks, ff))
      | Some t =>
          let '(cfg, err) := resolveAddresses tasks (t_config t) in
          let t := task_set_config cfg t in
          match err with
          | Some _ => Some (Ok (<[id := t]> tasks, ff))
          | None =>
              usesDisk ← validateConfig bases (t_config t);
              match usesDisk with
              | Err _ => Some (Ok (<[id := task_set_usesDisk false t]> tasks, ff))
              | Ok usesDisk =>
                  let t := task_set_usesDisk usesDisk t in
                  let '(ff, t, err) := setPlayoutPorts t ff in
                  match err with
                  | Some _ => Some (Ok (<[id := t]> tasks, ff))
                  | None =>
                      let t := task_set_command (CreateCommand (t_config t)) t in
                      let t := task_set_parser (Some NewProcessParser) t in
                      match ffmpeg_New (process_config t) with
                      | Err err => Some (Err err)
                      | Ok eng =>
                          Some (Ok (<[id := task_set_valid true
                                             (task_set_ffmpeg (Some eng) t)]> tasks,
                                    ff))
                      end
                  end
              end
          end
      end
  end.

(** [load] of the stored processes [data]; [ids] is the order in which the
    last loop visits the tasks.  On an error the registry is not set. *)
Definition load (ids : list string) (data : gmap string Process) (r : restream)
    : outcome :=
  let tasks := map_imap (fun id p => Some (load_task (ff_Version (ffmpeg r)) id p))
                 data in
  res ← foldl (fun acc id => load_step acc (disk_bases r) id)
          (Some (Ok (tasks, ffmpeg r))) ids;
  match res with
  | Err err => Some (r, Some err)
  | Ok (tasks, ff) => Some (set_tasks tasks (set_ffmpeg ff r), None)
  end.

(** [New]: the supervisor over the given filesystems, engine factory and
    stored processes.  [stopOnce] has fired, so that a [Stop] before the
    first [Start] does nothing. *)
Definition New (ids : list string) (filesystems : list Filesystem) (ff : FFmpeg)
    (maxProcesses : Z) (data : gmap string Process) : option (result restream) :=
  let r := mkRestream ff maxProcesses 0 filesystems false ∅ ∅ false false in
  '(r, err) ← load ids data r;
  match err with
  | Some err => Some (Err err)
  | None => Some (Ok (set_once false true (save r)))
  end.

(** *** Listing *)

(** A Go slice of strings: the nil slice, or a slice with its elements. *)
Inductive string_slice : Type :=
| nil_slice
| slice (elems : list string).

Definition len (s : string_slice) : nat :=
  match s with
  | nil_slice => 0%nat
  | slice l => List.length l
  end.

(** A loop of [GetProcessIDs] over the registry: [candidate] is what the
    pattern is matched against and [key] the counter that a match
    increments; the counters after the loop, or [None] when a match
    reported an error. *)
Fixpoint count_matches (pattern : string) (candidate key : string -> task -> string)
    (tasks : gmap string task) (idmap : gmap string nat) (ids : list string)
    : option (gmap string nat) :=
  match ids with
  | [] => Some idmap
  | id :: rest =>
      match tasks !! id with
      | None => count_matches pattern candidate key tasks idmap rest
      | Some t =>
          match glob_Match pattern (candidate id t) with
          | Err _ => None
          | Ok false => count_matches pattern candidate key tasks idmap rest
          | Ok true =>
              count_matches pattern candidate key tasks
                (<[key id t := S (default 0%nat (idmap !! key id t))]> idmap) rest
          end
      end
  end.

(** [GetProcessIDs]; [ids1] and [ids2] are the orders in which the two
    loops over the registry visit the task ids. *)
Definition GetProcessIDs (ids1 ids2 : list string) (idpattern refpattern : string)
    (r : restream) : string_slice :=
  if (String.length idpattern =? 0)%nat && (String.length refpattern =? 0)%nat
  then slice (task_ids r)
  else
    match (if negb (String.length idpattern =? 0)%nat
           then pair 1%nat <$>
                  count_matches idpattern (fun id _ => id) (fun id _ => id)
                    (tasks r) ∅ ids1
           else Some (0%nat, ∅)) with
    | None => nil_slice
    | Some (count, idmap) =>
        match (if negb (String.length refpattern =? 0)%nat
               then pair (S count) <$>
                      count_matches refpattern (fun _ t => t_reference t)
                        (fun _ t => t_id t) (tasks r) idmap ids2
               else Some (count, idmap)) with
        | None => nil_slice
        | Some (count, idmap) =>
            slice (map fst (List.filter (fun '(_, n) => (n =? count)%nat)
                              (map_to_list idmap)))
        end
    end.

End Builder.

(** ** A concrete set of collaborators and sample states

    Used to run the operations on concrete inputs. *)

Module Sample.

(** A replacer that knows no placeholder, an engine that allows every
    address, URLs recognised by ["://"], and a glob matcher that reports an
    error for the pattern ["["], matches everything with ["*"] and compares
    otherwise. *)
#[global] Instance collaborators : Collaborators := {|
  url_HasScheme := fun address => Contains address "://";
  url_Validate := fun _ => None;
  ffmpeg_ValidateInputAddress := fun _ => true;
  ffmpeg_ValidateOutputAddress := fun _ => true;
  ffmpeg_New := fun _ => Ok (mkEngine "stop" []);
  os_Getwd := Some "/";
  replace_Replace := fun s _ _ _ _ _ => s;
  CreateCommand := fun config =>
    Options config
    ++ concat (map (fun io => io_Options io ++ ["-i"; io_Address io]) (Input config))
    ++ concat (map (fun io => io_Options io ++ [io_Address io]) (Output config));
  glob_Match := fun pattern name =>
    if String.eqb pattern "[" then Err (ErrExternal "unexpected end of input")
    else Ok (String.eqb pattern "*" || String.eqb pattern name)
|}.

Definition disk (name base : string) (size limit : Z) : Filesystem :=
  mkFilesystem name "disk" base size limit false ∅.

Definition engine_factory : FFmpeg := mkFFmpeg "4.4.1" (Some [8000; 8001; 8002]%Z).

(** A supervisor with one disk filesystem at [/base], no task and room for
    [maxProcesses] running processes. *)
Definition empty (maxProcesses : Z) : restream :=
  mkRestream engine_factory maxProcesses 0 [disk "disk" "/base" 10 100]
    false ∅ ∅ false true.

Definition config (id output : string) (autostart : bool) : Config :=
  mkConfig id "" "" [mkIO "i" "rtmp://x/y" [] []]
    [mkIO "o" output [] [mkCleanup "disk:/*.ts" 5 0 true]] []
    true 10 autostart 0 0 0 0.

(** The task that [createTask] builds from [c] in [r], if it builds one,
    and the config of the caller after the call. *)
Definition build (c : Config) (r : restream) : option task :=
  match createTask 1000 c r with
  | Some (_, _, Ok t) => Some t
  | _ => None
  end.

Definition build_config (c : Config) (r : restream) : option Config :=
  match createTask 1000 c r with
  | Some (c', _, _) => Some c'
  | None => None
  end.

(** The state after adding [config] to [r] (the same state when the call
    does not return). *)
Definition add (c : Config) (r : restream) : restream :=
  match AddProcess 1000 c r with
  | Some (_, r', _) => r'
  | None => r
  end.

Definition add_error (c : Config) (r : restream) : option error :=
  match AddProcess 1000 c r with
  | Some (_, _, err) => err
  | None => None
  end.

(** One running task that writes to the disk. *)
Definition one_task : restream := add (config "a" "/base/a.ts" true) (empty 2).

(** The same supervisor once [Start] has run. *)
Definition running_supervisor : restream :=
  default one_task (Start (task_ids one_task) one_task).

(** A supervisor with two disk filesystems, at [/a] and at [/b]. *)
Definition two_disks : restream :=
  mkRestream engine_factory 0 0 [disk "a" "/a" 10 100; disk "b" "/b" 10 100]
    false ∅ ∅ false true.

(** A reference followed by a newline and more text. *)
Definition reference_with_newline : string :=
  "#a:output=o" +:+ String newline "x".

(** A config without inputs. *)
Definition config_no_input (id : string) : Config :=
  mkConfig id "" "" [] [mkIO "o" "/base/a.ts" [] []] [] true 10 true 0 0 0 0.

(** One running task under a cap of one running process. *)
Definition at_cap : restream := add (config "a" "/base/a.ts" true) (empty 1).

(** A started supervisor with one running task under a cap of one. *)
Definition cap_reached : restream :=
  default at_cap (Start (task_ids at_cap) at_cap).

(** Three tasks that are not started, under a cap of two. *)
Definition three_tasks : restream :=
  add (config "c" "/base/c.ts" false)
    (add (config "b" "/base/b.ts" false)
       (add (config "a" "/base/a.ts" false) (empty 2))).

(** One running task and one that is not started, under a cap of one. *)
Definition second_waiting : restream := add (config "b" "/base/b.ts" false) at_cap.

(** A playout input that already carries a playout port, followed by one
    more option. *)
Definition playout_input (id : string) : ConfigIO :=
  mkIO id "playout:rtmp://x/y" ["-re"; "-playout_httpport"; "9000"; "-loglevel"] [].

(** A catalog with one stored process whose order is "start" and which
    has no version constraint yet. *)
Definition catalog : gmap string Process :=
  {["a" := mkProcess "a" "" (config "a" "/base/a.ts" true) "start" 0 0]}.

(** A config with one input at the given address. *)
Definition config_with_input (id address output : string) : Config :=
  mkConfig id "" "" [mkIO "i" address [] []] [mkIO "o" output [] []] []
    true 10 false 0 0 0 0.

(** The task "b" reads the output of the task "a", and "a" has been
    stopped and deleted. *)
Definition orphan : restream :=
  (DeleteProcess "a"
     (StopProcess "a"
        (add (config_with_input "b" "#a:output=o" "/base/b.ts") one_task)).1).1.

(** A task over the given inputs that holds no playout port. *)
Definition task_of_inputs (inputs : list ConfigIO) : task :=
  let c := mkConfig "p" "" "" inputs [mkIO "o" "/base/p.ts" [] []] []
             true 10 false 0 0 0 0 in
  mkTask false "p" "" (mkProcess "p" "" c "stop" 0 0) c [] None None None false.

End Sample.

(** ** Notions used to state the properties *)

(** [ids] is an order in which a [range] over the registry of [r] may
    visit the task ids. *)
Definition visits (ids : list string) (r : restream) : Prop :=
  ids ≡ₚ task_ids r.

(** Invariant 3 of the data model, as far as the lifecycle controller
    relies on it: a valid task has an engine handle. *)
Definition task_wf (t : task) : Prop :=
  t_valid t = true -> is_Some (t_ffmpeg t).

Definition registry_wf (r : restream) : Prop :=
  forall id t, tasks r !! id = Some t -> task_wf t.

(** [registry_wf] as a check that can be run. *)
Definition registry_wfb (r : restream) : bool :=
  forallb (fun '(_, t) => implb (t_valid t) (bool_decide (is_Some (t_ffmpeg t))))
    (map_to_list (tasks r)).

(** What [load] takes from the catalog and never changes afterwards: the
    id, the reference and the stored process of a task. *)
Definition task_identity (t : task) : string * string * Process :=
  (t_id t, t_reference t, t_process t).

(** Invariant 5 of the data model. *)
Definition cap_respected (r : restream) : Prop :=
  (0 < maxProc r -> nProc r <= maxProc r)%Z.

(** No filesystem holds a cleanup rule for the task [id]. *)
Definition no_cleanup (id : string) (r : restream) : Prop :=
  Forall (fun f => fs_cleanup f !! id = None) (fs_list r).

(** What [stopProcess] does to the task it is called on. *)
Definition stop_task (t : task) : task :=
  match t_ffmpeg t with
  | None => t
  | Some eng =>
      if String.eqb (Order (t_process t)) "stop" && String.eqb (e_order eng) "stop"
      then t
      else task_set_ffmpeg (Some (engine_Stop true eng))
             (task_set_process (Process_set_Order "stop" (t_process t)) t)
  end.

(** What a tick of the observer on a full filesystem does to a task. *)
Definition observe_task (t : task) : task :=
  if t_valid t && t_usesDisk t && String.eqb (Order (t_process t)) "start"
  then stop_task t else t.

(** What the supervisor's [Stop] does to a task. *)
Definition halt_task (t : task) : task :=
  match t_ffmpeg t with
  | None => t
  | Some eng => task_set_ffmpeg (Some (engine_Stop true eng)) t
  end.

(** How an operation may move the counter [nProc] when the cap is [cap]:
    by increments that [startProcess] guards with the cap, and by at most
    [k] decrements. *)
Inductive counter_moves (cap : Z) : nat -> Z -> Z -> Prop :=
| moves_none (n : Z) : counter_moves cap 0 n n
| moves_inc (k : nat) (n n1 : Z) :
    counter_moves cap k n n1 ->
    (0 < cap -> n1 < cap)%Z ->
    counter_moves cap k n (wrap64 (n1 + 1))
| moves_dec (k : nat) (n n1 : Z) :
    counter_moves cap k n n1 ->
    counter_moves cap (S k) n (wrap64 (n1 - 1))
| moves_more (k : nat) (n n1 : Z) :
    counter_moves cap k n n1 -> counter_moves cap (S k) n n1.

(** The cap is the same in [r'] as in [r], and the counter of [r'] comes
    from that of [r] by guarded increments and at most [k] decrements. *)
Definition counters_moved (k : nat) (r r' : restream) : Prop :=
  maxProc r' = maxProc r /\ counter_moves (maxProc r) k (nProc r) (nProc r').

(** A call of an operation of the supervisor, from the state before to the
    state after. *)
Inductive operation `{Collaborators} : restream -> restream -> Prop :=
| op_StartProcess id r r' err :
    StartProcess id r = Some (r', err) -> operation r r'
| op_StopProcess id r r' err :
    StopProcess id r = (r', err) -> operation r r'
| op_RestartProcess id r r' err :
    RestartProcess id r = Some (r', err) -> operation r r'
| op_ReloadProcess id r r' err :
    ReloadProcess id r = Some (r', err) -> operation r r'
| op_DeleteProcess id r r' err :
    DeleteProcess id r = (r', err) -> operation r r'
| op_AddProcess now config config' r r' err :
    AddProcess now config r = Some (config', r', err) -> operation r r'
| op_UpdateProcess now now' id config config' r r' err :
    UpdateProcess now now' id config r = Some (config', r', err) -> operation r r'
| op_Start ids r r' :
    visits ids r -> Start ids r = Some r' -> operation r r'
| op_Stop ids r :
    visits ids r -> operation r (Stop ids r)
| op_observe ids size limit r :
    visits ids r -> operation r (observe_tick ids size limit r).

(** Every task is filed under its own id, and a valid task has an engine
    handle. *)
Definition tasks_ok (m : gmap string task) : Prop :=
  forall id t, m !! id = Some t -> t_id t = id /\ task_wf t.

Definition registry_ok (r : restream) : Prop := tasks_ok (tasks r).

(** [registry_ok] as a check that can be run. *)
Definition registry_okb (r : restream) : bool :=
  forallb (fun '(id, t) =>
             String.eqb (t_id t) id
             && implb (t_valid t) (bool_decide (is_Some (t_ffmpeg t))))
    (map_to_list (tasks r)).

(** A pattern of [GetProcessIDs] lets a name through: the pattern is empty
    (it is not applied), or the glob matcher reports a match. *)
Definition glob_accepts `{Collaborators} (pattern name : string) : Prop :=
  pattern = "" \/ glob_Match pattern name = Ok true.

(** A loop of [GetProcessIDs] counts the task filed under [id]. *)
Definition glob_hit `{Collaborators} (pattern : string)
    (candidate : string -> task -> string) (tasks : gmap string task)
    (id : string) : bool :=
  match tasks !! id with
  | Some t =>
      match glob_Match pattern (candidate id t) with
      | Ok true => true
      | _ => false
      end
  | None => false
  end.

(** The text [s] has no newline. *)
Definition no_newline (s : string) : Prop :=
  Forall (fun c => c <> newline) (list_ascii_of_string s).

(** What it means for the expression [^#(.+):output=(.+)] to match the
    address with [refid] and [outid] as the captured groups: both are
    non-empty and without newline, and the second one reaches the end of
    the address or the first newline after it. *)
Definition matches_reference (address refid outid : string) : Prop :=
  exists tail,
    address = "#" +:+ refid +:+ ":output=" +:+ outid +:+ tail
    /\ refid <> "" /\ outid <> ""
    /\ no_newline refid /\ no_newline outid
    /\ (tail = "" \/ exists tail', tail = String newline tail').

(** An input whose address is the resolution of the address of [input],
    and which is [input] otherwise. *)
Definition resolved_input (tasks : gmap string task) (cfgid : string)
    (input input' : ConfigIO) : Prop :=
  resolveAddress tasks cfgid (io_Address input) = Ok (io_Address input')
  /\ input' = IO_set_Address (io_Address input') input.

(** The same for the expression [^#(.+):output=(.+)$] of the
    specification: the second group reaches the end of the address. *)
Definition matches_reference_anchored (address refid outid : string) : Prop :=
  address = "#" +:+ refid +:+ ":output=" +:+ outid
  /\ refid <> "" /\ outid <> ""
  /\ no_newline refid /\ no_newline outid.

(** * Properties *)

(** ** Sanity checks of the string primitives *)

Example TrimSpace_ex : TrimSpace ("  a b" +:+ bytes [10; 194; 160]%nat) = "a b".
Proof. reflexivity. Qed.

Example Split_ex : Split "a|b||c" "|" = ["a"; "b"; ""; "c"].
Proof. reflexivity. Qed.

Example Split_nosep : Split "abc" "|" = ["abc"].
Proof. reflexivity. Qed.

Example Join_ex : Join ["a"; "b"; ""; "c"] "|" = "a|b||c".
Proof. reflexivity. Qed.

Example Itoa_ex : Itoa 0 = "0" /\ Itoa 4 = "4" /\ Itoa 1234567890 = "1234567890".
Proof. repeat split; reflexivity. Qed.


(** ** Sanity checks of the regular expressions, paths and versions *)

Example re_reference_ex1 : re_reference "#a:output=o" = Some ("a", "o").
Proof. reflexivity. Qed.

Example re_reference_greedy :
  re_reference "#a:output=b:output=c" = Some ("a:output=b", "c").
Proof. reflexivity. Qed.

Example re_reference_none :
  re_reference "#a:output=" = None /\ re_reference "#:output=o" = None
  /\ re_reference "a:output=o" = None.
Proof. repeat split; reflexivity. Qed.

Example teeOptions_ex :
  teeOptions "[f=mpegts]udp://h:1" = ("[f=mpegts]", "udp://h:1")
  /\ teeOptions "[abc" = ("", "[abc")
  /\ teeOptions "[]x" = ("[]", "x")
  /\ teeOptions "x[a]" = ("", "x[a]").
Proof. repeat split; reflexivity. Qed.

Example filepath_Clean_ex :
  filepath_Clean "/srv/basedir/x.ts" = "/srv/basedir/x.ts"
  /\ filepath_Clean "/srv//basedir/./a/../x.ts" = "/srv/basedir/x.ts"
  /\ filepath_Clean "/../a/" = "/a"
  /\ filepath_Clean "../../a/.." = "../.."
  /\ filepath_Clean "/" = "/"
  /\ filepath_Clean "" = ".".
Proof. repeat split; reflexivity. Qed.

Example semver_NewVersion_ex :
  semver_NewVersion "4.4.1" = Some (mkVersion 4 4 1)
  /\ semver_NewVersion "v5.1" = Some (mkVersion 5 1 0)
  /\ semver_NewVersion "5.1.2-static+build.7" = Some (mkVersion 5 1 2)
  /\ semver_NewVersion "^4.4.1" = None
  /\ semver_NewVersion "4.4.x" = None.
Proof. repeat split; reflexivity. Qed.

(** ** Loops over the registry *)

Lemma visits_task_ids (r : restream) : visits (task_ids r) r.
Proof. unfold visits. reflexivity. Qed.

Lemma visits_NoDup (ids : list string) (r : restream) :
  visits ids r -> NoDup ids.
Proof.
  intros Hv. unfold visits in Hv. rewrite Hv.
  apply NoDup_fst_map_to_list.
Qed.

Lemma visits_elem_of (ids : list string) (r : restream) (id : string) :
  visits ids r -> id ∈ ids <-> is_Some (tasks r !! id).
Proof.
  intros Hv. unfold visits, task_ids in Hv. rewrite Hv.
  rewrite list_elem_of_fmap. split.
  - intros [[i t] [-> Hin]]. apply elem_of_map_to_list in Hin. eauto.
  - intros [t Ht]. exists (id, t). split; [done|].
    by apply elem_of_map_to_list.
Qed.

(** A loop that alters one entry per visited key alters every visited
    entry once and leaves the others alone. *)
Lemma foldl_alter_lookup {A : Type} (f : A -> A) (ids : list string)
    (m : gmap string A) (id : string) :
  NoDup ids ->
  foldl (fun m i => alter f i m) m ids !! id
  = if bool_decide (id ∈ ids) then f <$> m !! id else m !! id.
Proof.
  revert m. induction ids as [|i ids IH]; intros m Hnd; cbn [foldl].
  - case_bool_decide as Hin; [|done]. by apply elem_of_nil in Hin.
  - apply NoDup_cons in Hnd as [Hi Hnd]. rewrite IH by done.
    destruct (decide (id = i)) as [->|Hne].
    + rewrite lookup_alter_eq.
      rewrite (bool_decide_eq_false_2 (i ∈ ids)) by done.
      by rewrite bool_decide_eq_true_2 by (apply elem_of_cons; by left).
    + rewrite lookup_alter_ne by done.
      destruct (decide (id ∈ ids)) as [Hin|Hin].
      * rewrite (bool_decide_eq_true_2 (id ∈ ids)) by done.
        by rewrite bool_decide_eq_true_2 by (apply elem_of_cons; by right).
      * rewrite (bool_decide_eq_false_2 (id ∈ ids)) by done.
        rewrite bool_decide_eq_false_2; [done|].
        rewrite elem_of_cons. tauto.
Qed.

Lemma insert_as_alter {A : Type} (f : A -> A) (m : gmap string A) (i : string) (x : A) :
  m !! i = Some x -> <[i := f x]> m = alter f i m.
Proof.
  intros Hx. apply map_eq. intros j. rewrite lookup_alter, lookup_insert.
  case_decide; subst; by rewrite ?Hx.
Qed.

Lemma alter_fixed {A : Type} (f : A -> A) (m : gmap string A) (i : string) (x : A) :
  m !! i = Some x -> f x = x -> alter f i m = m.
Proof.
  intros Hx Hf. rewrite <- (insert_as_alter f m i x Hx), Hf.
  by apply insert_id.
Qed.

(** ** The per-process stop and start *)

Lemma stopProcess_tasks (id : string) (r : restream) :
  tasks (fst (stopProcess id r)) = alter stop_task id (tasks r).
Proof.
  unfold stopProcess. destruct (tasks r !! id) as [t|] eqn:Ht; simpl.
  - destruct (t_ffmpeg t) as [eng|] eqn:He; simpl.
    + destruct (_ && _) eqn:Hb; simpl.
      * symmetry. apply (alter_fixed _ _ _ t Ht).
        unfold stop_task. by rewrite He, Hb.
      * rewrite <- (insert_as_alter stop_task _ _ t Ht).
        unfold stop_task. by rewrite He, Hb.
    + symmetry. apply (alter_fixed _ _ _ t Ht). unfold stop_task. by rewrite He.
  - symmetry. apply map_eq. intros j. rewrite lookup_alter.
    case_decide; subst; by rewrite ?Ht.
Qed.

Lemma stopProcess_frame (id : string) (r : restream) :
  let r' := fst (stopProcess id r) in
  ffmpeg r' = ffmpeg r /\ maxProc r' = maxProc r /\ fs_list r' = fs_list r
  /\ observing r' = observing r /\ store r' = store r
  /\ startOnce r' = startOnce r /\ stopOnce r' = stopOnce r.
Proof.
  unfold stopProcess. destruct (tasks r !! id) as [t|]; [|done].
  destruct (t_ffmpeg t); [|done]. by destruct (_ && _).
Qed.

Lemma stop_task_Order (t : task) :
  is_Some (t_ffmpeg t) -> Order (t_process (stop_task t)) = "stop".
Proof.
  intros [eng He]. unfold stop_task. rewrite He.
  destruct (_ && _) eqn:Hb; [|done].
  apply andb_true_iff in Hb as [Hb _]. by apply String.eqb_eq in Hb.
Qed.

Lemma observe_step_tasks (id : string) (r : restream) :
  tasks (observe_step r id) = alter observe_task id (tasks r).
Proof.
  unfold observe_step. destruct (tasks r !! id) as [t|] eqn:Ht.
  - destruct (t_valid t) eqn:Hv; simpl.
    2: { symmetry. apply (alter_fixed _ _ _ t Ht). unfold observe_task. by rewrite Hv. }
    destruct (t_usesDisk t) eqn:Hu; simpl.
    2: { symmetry. apply (alter_fixed _ _ _ t Ht). unfold observe_task. by rewrite Hv, Hu. }
    destruct (String.eqb (Order (t_process t)) "start") eqn:Ho; simpl.
    2: { symmetry. apply (alter_fixed _ _ _ t Ht). unfold observe_task. by rewrite Hv, Hu, Ho. }
    rewrite stopProcess_tasks. apply map_eq. intros j. rewrite !lookup_alter.
    case_decide; [subst j|done]. rewrite Ht. simpl.
    unfold observe_task. by rewrite Hv, Hu, Ho.
  - symmetry. apply map_eq. intros j. rewrite lookup_alter.
    case_decide; subst; by rewrite ?Ht.
Qed.

Lemma observe_loop_tasks (ids : list string) (r : restream) :
  tasks (foldl observe_step r ids)
  = foldl (fun m i => alter observe_task i m) (tasks r) ids.
Proof.
  revert r. induction ids as [|i ids IH]; intros r; simpl; [done|].
  by rewrite IH, observe_step_tasks.
Qed.

(** ** The filesystem observer *)

(** C1.  On a tick of the observer for a filesystem that reports a limit
    above 0 and a size of at least the limit, every task that is valid,
    uses the disk and has the order "start" is stopped the way
    [stopProcess] stops it: its order is "stop" afterwards and its engine
    has been told to stop (with wait).  Every task that is invalid, or
    does not use the disk, or has another order than "start" (so also one
    whose order is "stop" already) is the same after the tick.  The order
    in which the tick visits the registry does not matter. *)
Theorem observe_tick_full (r : restream) (ids : list string) (size limit : Z) :
  visits ids r -> registry_wf r -> (0 < limit)%Z -> (limit <= size)%Z ->
  forall id t, tasks r !! id = Some t ->
    let r' := observe_tick ids size limit r in
    (t_valid t = true -> t_usesDisk t = true -> Order (t_process t) = "start" ->
     exists eng t',
       t_ffmpeg t = Some eng
       /\ tasks r' !! id = Some t'
       /\ tasks (fst (stopProcess id r)) !! id = Some t'
       /\ Order (t_process t') = "stop"
       /\ t_ffmpeg t' = Some (engine_Stop true eng))
    /\ (t_valid t = false \/ t_usesDisk t = false \/ Order (t_process t) <> "start" ->
        tasks r' !! id = Some t).
Proof.
  intros Hv Hwf Hlim Hfull id t Ht r'.
  assert (Hr' : tasks r' !! id = Some (observe_task t)).
  { unfold r', observe_tick.
    replace ((0 <? limit)%Z && (limit <=? size)%Z) with true
      by (symmetry; apply andb_true_iff; split; [apply Z.ltb_lt|apply Z.leb_le]; done).
    rewrite observe_loop_tasks, foldl_alter_lookup by eauto using visits_NoDup.
    rewrite bool_decide_eq_true_2 by (eapply visits_elem_of; eauto).
    by rewrite Ht. }
  split.
  - intros Hvalid Hdisk Hstart.
    destruct (Hwf id t Ht Hvalid) as [eng He].
    exists eng, (stop_task t).
    assert (Hstop : stop_task t
                    = task_set_ffmpeg (Some (engine_Stop true eng))
                        (task_set_process (Process_set_Order "stop" (t_process t)) t)).
    { unfold stop_task. by rewrite He, Hstart. }
    repeat split.
    + done.
    + rewrite Hr'. unfold observe_task. by rewrite Hvalid, Hdisk, Hstart.
    + by rewrite stopProcess_tasks, lookup_alter_eq, Ht.
    + by rewrite Hstop.
    + by rewrite Hstop.
  - intros Hskip. rewrite Hr'. f_equal. unfold observe_task.
    destruct Hskip as [-> | [-> | Ho]]; [done| by rewrite andb_false_r |].
    apply String.eqb_neq in Ho. by rewrite Ho, andb_false_r.
Qed.

Lemma registry_wfb_correct (r : restream) :
  registry_wfb r = true -> registry_wf r.
Proof.
  unfold registry_wfb. rewrite forallb_forall. intros Hall id t Ht Hvalid.
  specialize (Hall (id, t)). simpl in Hall. rewrite Hvalid in Hall. simpl in Hall.
  assert (Hin : In (id, t) (map_to_list (tasks r)))
    by by apply list_elem_of_In, elem_of_map_to_list.
  apply Hall in Hin. by apply bool_decide_eq_true in Hin.
Qed.

Lemma observe_tick_full_witness :
  exists t',
    tasks (observe_tick ["a"] 100 100 Sample.one_task) !! "a" = Some t'
    /\ Order (t_process t') = "stop".
Proof.
  assert (Hv : visits ["a"] Sample.one_task) by (vm_compute; reflexivity).
  assert (Hwf : registry_wf Sample.one_task)
    by (apply registry_wfb_correct; vm_compute; reflexivity).
  destruct (tasks Sample.one_task !! "a") as [t|] eqn:Ht; [|vm_compute in Ht; discriminate].
  destruct (observe_tick_full Sample.one_task ["a"] 100 100 Hv Hwf
              ltac:(lia) ltac:(lia) "a" t Ht) as [Hstop _].
  destruct Hstop as (eng & t' & _ & Hr' & _ & Ho & _).
  - vm_compute in Ht. by injection Ht as <-.
  - vm_compute in Ht. by injection Ht as <-.
  - vm_compute in Ht. by injection Ht as <-.
  - exists t'. split; assumption.
Defined.

Lemma observe_tick_not_full (r : restream) (ids : list string) (size limit : Z) :
  (limit <= 0 \/ size < limit)%Z -> observe_tick ids size limit r = r.
Proof.
  intros Hnot. unfold observe_tick.
  destruct (0 <? limit)%Z eqn:H0; [|done].
  destruct (limit <=? size)%Z eqn:H1; [|done].
  apply Z.ltb_lt in H0. apply Z.leb_le in H1. lia.
Qed.

(** ** The supervisor's stop *)

Lemma Stop_step_tasks (id : string) (r : restream) :
  tasks (Stop_step r id) = alter halt_task id (tasks r).
Proof.
  unfold Stop_step. destruct (tasks r !! id) as [t|] eqn:Ht.
  - destruct (t_ffmpeg t) as [eng|] eqn:He; simpl.
    + rewrite <- (insert_as_alter halt_task _ _ t Ht).
      unfold halt_task. by rewrite He.
    + symmetry. apply (alter_fixed _ _ _ t Ht). unfold halt_task. by rewrite He.
  - symmetry. apply map_eq. intros j. rewrite lookup_alter.
    case_decide; subst; by rewrite ?Ht.
Qed.

Lemma Stop_loop_tasks (ids : list string) (r : restream) :
  tasks (foldl Stop_step r ids)
  = foldl (fun m i => alter halt_task i m) (tasks r) ids.
Proof.
  revert r. induction ids as [|i ids IH]; intros r; simpl; [done|].
  by rewrite IH, Stop_step_tasks.
Qed.

Lemma unsetCleanup_no_cleanup (id : string) (r : restream) :
  no_cleanup id (unsetCleanup id r).
Proof.
  unfold no_cleanup, unsetCleanup. simpl. apply Forall_fmap, Forall_true.
  intros f. simpl. apply lookup_delete_eq.
Qed.

Lemma unsetCleanup_keeps_no_cleanup (id i : string) (r : restream) :
  no_cleanup id r -> no_cleanup id (unsetCleanup i r).
Proof.
  unfold no_cleanup, unsetCleanup. simpl. intros Hno. apply Forall_fmap.
  eapply Forall_impl; [exact Hno|]. intros f Hf. simpl.
  rewrite lookup_delete. by case_decide.
Qed.

Lemma Stop_step_keeps_no_cleanup (id i : string) (r : restream) :
  no_cleanup id r -> no_cleanup id (Stop_step r i).
Proof.
  intros Hno. unfold Stop_step. destruct (tasks r !! i) as [t|]; [|done].
  apply unsetCleanup_keeps_no_cleanup. by destruct (t_ffmpeg t).
Qed.

Lemma Stop_loop_keeps_no_cleanup (id : string) (ids : list string) (r : restream) :
  no_cleanup id r -> no_cleanup id (foldl Stop_step r ids).
Proof.
  revert r. induction ids as [|i ids IH]; intros r Hno; simpl; [done|].
  by apply IH, Stop_step_keeps_no_cleanup.
Qed.

Lemma Stop_loop_no_cleanup (id : string) (ids : list string) (r : restream) :
  id ∈ ids -> is_Some (tasks r !! id) -> no_cleanup id (foldl Stop_step r ids).
Proof.
  revert r. induction ids as [|i ids IH]; intros r Hin Hid; simpl.
  - by apply elem_of_nil in Hin.
  - destruct (decide (id = i)) as [->|Hne].
    + apply Stop_loop_keeps_no_cleanup. unfold Stop_step.
      destruct Hid as [t ->]. apply unsetCleanup_no_cleanup.
    + apply IH; [by apply elem_of_cons in Hin as [?|?]|].
      rewrite Stop_step_tasks. by apply lookup_alter_is_Some.
Qed.

(** C2.  The supervisor's [Stop] leaves the process entry of every task,
    and so its order, as it was.  When it runs (the stop latch has not
    fired yet), it tells the engine of every task that has one to stop,
    with wait, leaves a task without engine handle alone, and removes the
    cleanup rules of every task from every filesystem.  The order in which
    it visits the registry does not matter. *)
Theorem Stop_keeps_Order (r : restream) (ids : list string) :
  visits ids r ->
  forall id t, tasks r !! id = Some t ->
    let r' := Stop ids r in
    (exists t', tasks r' !! id = Some t'
                /\ t_process t' = t_process t
                /\ Order (t_process t') = Order (t_process t))
    /\ (stopOnce r = false ->
        (forall eng, t_ffmpeg t = Some eng ->
           tasks r' !! id = Some (task_set_ffmpeg (Some (engine_Stop true eng)) t))
        /\ (t_ffmpeg t = None -> tasks r' !! id = Some t)
        /\ no_cleanup id r').
Proof.
  intros Hv id t Ht r'.
  assert (Hin : id ∈ ids) by (eapply visits_elem_of; eauto).
  assert (Hrun : stopOnce r = false -> tasks r' !! id = Some (halt_task t)).
  { intros Hlatch. unfold r', Stop. rewrite Hlatch. simpl.
    rewrite Stop_loop_tasks, foldl_alter_lookup by eauto using visits_NoDup.
    by rewrite bool_decide_eq_true_2, Ht by done. }
  split.
  - destruct (stopOnce r) eqn:Hlatch.
    + exists t. unfold r', Stop. by rewrite Hlatch.
    + exists (halt_task t). rewrite Hrun by done.
      unfold halt_task. by destruct (t_ffmpeg t).
  - intros Hlatch. rewrite Hrun by done. repeat split.
    + intros eng He. unfold halt_task. by rewrite He.
    + intros He. unfold halt_task. by rewrite He.
    + unfold r', Stop. rewrite Hlatch. unfold no_cleanup. simpl.
      apply Forall_fmap.
      eapply Forall_impl; [apply (Stop_loop_no_cleanup id ids r Hin); eauto|].
      by intros f Hf.
Qed.

Lemma Stop_keeps_Order_witness :
  let r := Sample.running_supervisor in
  exists t', tasks (Stop ["a"] r) !! "a" = Some t'
             /\ Order (t_process t') = "start"
             /\ (e_order <$> t_ffmpeg t') = Some "stop".
Proof.
  intros r.
  assert (Hv : visits ["a"] r) by (vm_compute; reflexivity).
  destruct (tasks r !! "a") as [t|] eqn:Ht; [|vm_compute in Ht; discriminate].
  destruct (Stop_keeps_Order r ["a"] Hv "a" t Ht) as [_ Hrun].
  destruct (Hrun eq_refl) as (Heng & _ & _).
  vm_compute in Ht. injection Ht as <-.
  eexists. split; [apply Heng; reflexivity|]. split; reflexivity.
Defined.

Lemma Stop_latched (r : restream) (ids : list string) :
  stopOnce r = true -> Stop ids r = r.
Proof. intros Hlatch. unfold Stop. by rewrite Hlatch. Qed.

(** ** Deleting a process *)

Lemma PutPort_loop_pool (ports free : list Z) (ff : FFmpeg) :
  ff_ports ff = Some free ->
  ff_ports (foldl (fun ff port => PutPort port ff) ff ports)
  = Some (List.rev ports ++ free).
Proof.
  revert ff free. induction ports as [|p ports IH]; intros ff free Hfree; simpl.
  - done.
  - rewrite (IH _ (p :: free)).
    + by rewrite <- app_assoc.
    + unfold PutPort. by rewrite Hfree.
Qed.

Lemma unsetPlayoutPorts_pool (t : task) (ff : FFmpeg) (free : list Z) :
  ff_ports ff = Some free ->
  exists free',
    ff_ports (fst (unsetPlayoutPorts t ff)) = Some free'
    /\ (forall port, port ∈ free -> port ∈ free')
    /\ (forall playout input port,
          t_playout t = Some playout -> playout !! input = Some port ->
          port ∈ free').
Proof.
  intros Hfree. unfold unsetPlayoutPorts.
  destruct (t_playout t) as [playout|] eqn:Hp; simpl.
  - eexists. split; [by apply PutPort_loop_pool|]. split.
    + intros port Hin. apply elem_of_app. by right.
    + intros playout' input port [= <-] Hport.
      apply elem_of_app. left.
      apply list_elem_of_In, in_rev. rewrite rev_involutive.
      apply list_elem_of_In, list_elem_of_fmap. exists (input, port). split; [done|].
      by apply elem_of_map_to_list.
  - exists free. split; [done|]. split; [done|]. by intros.
Qed.

(** C7.  [DeleteProcess] on a task whose order is not "stop" returns an
    error and changes nothing at all: the registry, the playout ports of
    the task and the cleanup rules are what they were.  On a task whose
    order is "stop" it returns no error, the task is gone from the
    registry (and nothing else is), no filesystem holds a cleanup rule for
    it any more, and every playout port the task held is back in the pool
    of the engine factory, which has lost none of its free ports. *)
Theorem DeleteProcess_requires_stop (r : restream) (id : string) (t : task) :
  tasks r !! id = Some t ->
  (Order (t_process t) <> "stop" ->
   DeleteProcess id r = (r, Some (ErrStillRunning id)))
  /\ (Order (t_process t) = "stop" ->
      exists r',
        DeleteProcess id r = (r', None)
        /\ tasks r' = delete id (tasks r)
        /\ tasks r' !! id = None
        /\ no_cleanup id r'
        /\ (forall free, ff_ports (ffmpeg r) = Some free ->
            exists free',
              ff_ports (ffmpeg r') = Some free'
              /\ (forall port, port ∈ free -> port ∈ free')
              /\ (forall playout input port,
                    t_playout t = Some playout -> playout !! input = Some port ->
                    port ∈ free'))).
Proof.
  intros Ht. unfold DeleteProcess, deleteProcess. rewrite Ht. split.
  - intros Ho. apply String.eqb_neq in Ho. by rewrite Ho.
  - intros Ho. rewrite Ho. simpl. eexists. split; [reflexivity|].
    split; [done|]. split; [apply lookup_delete_eq|]. split.
    + apply (unsetCleanup_no_cleanup id).
    + intros free Hfree. simpl. by apply unsetPlayoutPorts_pool.
Qed.

Lemma DeleteProcess_requires_stop_witness :
  DeleteProcess "a" Sample.one_task = (Sample.one_task, Some (ErrStillRunning "a"))
  /\ exists r', DeleteProcess "a" (fst (StopProcess "a" Sample.one_task)) = (r', None)
                /\ tasks r' !! "a" = None.
Proof.
  split.
  - destruct (tasks Sample.one_task !! "a") as [t|] eqn:Ht;
      [|vm_compute in Ht; discriminate].
    apply (DeleteProcess_requires_stop _ _ t Ht).
    vm_compute in Ht. injection Ht as <-. discriminate.
  - destruct (tasks (fst (StopProcess "a" Sample.one_task)) !! "a") as [t|] eqn:Ht;
      [|vm_compute in Ht; discriminate].
    destruct (DeleteProcess_requires_stop _ _ t Ht) as [_ Hdel].
    destruct Hdel as (r' & Hr' & _ & Hgone & _).
    + vm_compute in Ht. by injection Ht as <-.
    + exists r'. split; assumption.
Defined.

Lemma deleteProcess_unknown (r : restream) (id : string) :
  tasks r !! id = None -> DeleteProcess id r = (r, Some ErrUnknownProcess).
Proof. intros Ht. unfold DeleteProcess, deleteProcess. by rewrite Ht. Qed.

(** ** The cap on running processes *)

Lemma wrap64_small (z : Z) : int64_ok z -> wrap64 z = z.
Proof.
  unfold int64_ok, min_int64, max_int64, wrap64.
  change (2 ^ 63)%Z with 9223372036854775808%Z.
  change (2 ^ 64)%Z with 18446744073709551616%Z.
  intros Hz. rewrite Z.mod_small; lia.
Qed.

Lemma wrap64_min : wrap64 (min_int64 - 1) = max_int64.
Proof. reflexivity. Qed.

Lemma startProcess_error_unchanged (r r' : restream) (id : string) (e : error) :
  startProcess id r = Some (r', Some e) -> r' = r.
Proof.
  unfold startProcess. intros Hs.
  destruct (tasks r !! id) as [t|]; [|by simplify_eq].
  destruct (t_valid t); simpl in Hs; [|by simplify_eq].
  destruct (t_ffmpeg t); [|done].
  destruct (_ && _); [by simplify_eq|].
  destruct (_ && _); by simplify_eq.
Qed.

Lemma startProcess_frame (r r' : restream) (id : string) (err : option error) :
  startProcess id r = Some (r', err) ->
  ffmpeg r' = ffmpeg r /\ maxProc r' = maxProc r /\ fs_list r' = fs_list r
  /\ observing r' = observing r /\ store r' = store r
  /\ startOnce r' = startOnce r /\ stopOnce r' = stopOnce r.
Proof.
  unfold startProcess. intros Hs.
  destruct (tasks r !! id) as [t|]; [|by simplify_eq].
  destruct (t_valid t); simpl in Hs; [|by simplify_eq].
  destruct (t_ffmpeg t); [|done].
  destruct (_ && _); [by simplify_eq|].
  destruct (_ && _); by simplify_eq.
Qed.

(** A start that is not a no-op, below the cap. *)
Lemma startProcess_starts (r : restream) (id : string) (t : task) (eng : engine) :
  tasks r !! id = Some t -> t_valid t = true -> t_ffmpeg t = Some eng ->
  ~ (Order (t_process t) = "start" /\ e_order eng = "start") ->
  (0 < maxProc r -> nProc r < maxProc r)%Z ->
  startProcess id r
  = Some (set_nProc (wrap64 (nProc r + 1))
            (set_tasks
               (<[id := task_set_ffmpeg (Some (engine_Start eng))
                          (task_set_process
                             (Process_set_Order "start" (t_process t)) t)]>
                  (tasks r)) r), None).
Proof.
  intros Ht Hv He Hnoop Hcap. unfold startProcess. rewrite Ht, Hv, He. simpl.
  destruct (String.eqb (Order (t_process t)) "start" && String.eqb (e_order eng) "start")
    eqn:Hb.
  { apply andb_true_iff in Hb as [H1 H2].
    apply String.eqb_eq in H1, H2. tauto. }
  destruct ((0 <? maxProc r)%Z && (maxProc r <=? nProc r)%Z) eqn:Hc; [|done].
  apply andb_true_iff in Hc as [H1 H2].
  apply Z.ltb_lt in H1. apply Z.leb_le in H2. lia.
Qed.

(** A start that is not a no-op, at the cap. *)
Lemma startProcess_refused (r : restream) (id : string) (t : task) (eng : engine) :
  tasks r !! id = Some t -> t_valid t = true -> t_ffmpeg t = Some eng ->
  ~ (Order (t_process t) = "start" /\ e_order eng = "start") ->
  (0 < maxProc r)%Z -> (maxProc r <= nProc r)%Z ->
  startProcess id r = Some (r, Some (ErrMaxProcesses (maxProc r))).
Proof.
  intros Ht Hv He Hnoop Hmax Hcap. unfold startProcess. rewrite Ht, Hv, He. simpl.
  destruct (String.eqb (Order (t_process t)) "start" && String.eqb (e_order eng) "start")
    eqn:Hb.
  { apply andb_true_iff in Hb as [H1 H2].
    apply String.eqb_eq in H1, H2. tauto. }
  replace ((0 <? maxProc r)%Z && (maxProc r <=? nProc r)%Z) with true; [done|].
  symmetry. apply andb_true_iff. split; [by apply Z.ltb_lt|by apply Z.leb_le].
Qed.

(** A stop that is not a no-op. *)
Lemma stopProcess_stops (r : restream) (id : string) (t : task) (eng : engine) :
  tasks r !! id = Some t -> t_ffmpeg t = Some eng ->
  ~ (Order (t_process t) = "stop" /\ e_order eng = "stop") ->
  stopProcess id r
  = (set_nProc (wrap64 (nProc r - 1))
       (set_tasks
          (<[id := task_set_ffmpeg (Some (engine_Stop true eng))
                     (task_set_process
                        (Process_set_Order "stop" (t_process t)) t)]>
             (tasks r)) r), None).
Proof.
  intros Ht He Hnoop. unfold stopProcess. rewrite Ht, He.
  destruct (String.eqb (Order (t_process t)) "stop" && String.eqb (e_order eng) "stop")
    eqn:Hb; [|done].
  apply andb_true_iff in Hb as [H1 H2].
  apply String.eqb_eq in H1, H2. tauto.
Qed.

Lemma startProcess_nProc (r r' : restream) (id : string) (err : option error) :
  startProcess id r = Some (r', err) ->
  nProc r' = nProc r
  \/ (nProc r' = wrap64 (nProc r + 1) /\ (0 < maxProc r -> nProc r < maxProc r)%Z).
Proof.
  unfold startProcess. intros Hs.
  destruct (tasks r !! id) as [t|]; [|left; by simplify_eq].
  destruct (t_valid t); simpl in Hs; [|left; by simplify_eq].
  destruct (t_ffmpeg t); [|done].
  destruct (_ && _); [left; by simplify_eq|].
  destruct ((0 <? maxProc r)%Z && (maxProc r <=? nProc r)%Z) eqn:Hc;
    [left; by simplify_eq|].
  right. simplify_eq. split; [done|]. intros Hmax.
  apply andb_false_iff in Hc as [Hc|Hc].
  - apply Z.ltb_ge in Hc. lia.
  - apply Z.leb_gt in Hc. lia.
Qed.

Lemma stopProcess_nProc (r : restream) (id : string) :
  nProc (fst (stopProcess id r)) = nProc r
  \/ nProc (fst (stopProcess id r)) = wrap64 (nProc r - 1).
Proof.
  unfold stopProcess. destruct (tasks r !! id) as [t|]; [|by left].
  destruct (t_ffmpeg t); [|by left]. destruct (_ && _); [by left|by right].
Qed.

(** The cap is an invariant of [startProcess] ... *)
Lemma startProcess_cap (r r' : restream) (id : string) (err : option error) :
  int64_ok (maxProc r) -> int64_ok (nProc r) -> cap_respected r ->
  startProcess id r = Some (r', err) ->
  cap_respected r' /\ (0 < maxProc r -> int64_ok (nProc r'))%Z.
Proof.
  intros Hmax Hn Hcap Hs. unfold cap_respected in *.
  destruct (startProcess_frame _ _ _ _ Hs) as (_ & -> & _).
  destruct (startProcess_nProc _ _ _ _ Hs) as [-> | [-> Hlt]]; [done|].
  assert (Hok : (0 < maxProc r)%Z -> int64_ok (nProc r + 1)).
  { intros H0. specialize (Hlt H0). unfold int64_ok in *. lia. }
  split; intros H0; rewrite wrap64_small by auto; [specialize (Hlt H0); lia | auto].
Qed.

(** ... and of [stopProcess], as long as the counter does not wrap. *)
Lemma stopProcess_cap (r : restream) (id : string) :
  int64_ok (nProc r) -> (min_int64 < nProc r)%Z -> cap_respected r ->
  cap_respected (fst (stopProcess id r)) /\ int64_ok (nProc (fst (stopProcess id r))).
Proof.
  intros Hn Hmin Hcap. unfold cap_respected in *.
  destruct (stopProcess_frame id r) as (_ & -> & _).
  destruct (stopProcess_nProc r id) as [-> | ->]; [done|].
  assert (Hok : int64_ok (nProc r - 1)) by (unfold int64_ok in *; lia).
  rewrite wrap64_small by done. split; [lia|done].
Qed.

Lemma counter_moves_le (cap : Z) (k k' : nat) (n n' : Z) :
  counter_moves cap k n n' -> (k <= k')%nat -> counter_moves cap k' n n'.
Proof.
  intros Hm Hle. induction Hle; [done|]. by apply moves_more.
Qed.

Lemma counter_moves_trans (cap : Z) (k1 k2 : nat) (a b c : Z) :
  counter_moves cap k1 a b -> counter_moves cap k2 b c ->
  counter_moves cap (k1 + k2) a c.
Proof.
  intros H1 H2. induction H2.
  - by rewrite Nat.add_0_r.
  - apply moves_inc; auto.
  - rewrite Nat.add_succ_r. apply moves_dec; auto.
  - rewrite Nat.add_succ_r. apply moves_more; auto.
Qed.

(** With a positive cap and room for [k] decrements above the smallest
    int64, no move wraps around and none leads above the cap. *)
Lemma counter_moves_bounds (cap : Z) (k : nat) (n n' : Z) :
  counter_moves cap k n n' ->
  (0 < cap)%Z -> int64_ok cap -> (min_int64 + Z.of_nat k <= n)%Z -> (n <= cap)%Z ->
  (n - Z.of_nat k <= n' <= cap)%Z.
Proof.
  intros Hm Hpos Hcap. unfold int64_ok in Hcap.
  induction Hm; intros Hroom Hle.
  - lia.
  - specialize (IHHm Hroom Hle). specialize (H Hpos).
    rewrite wrap64_small; [lia|]. unfold int64_ok. lia.
  - assert (Hroom' : (min_int64 + Z.of_nat k <= n)%Z) by lia.
    specialize (IHHm Hroom' Hle).
    rewrite wrap64_small; [lia|]. unfold int64_ok. lia.
  - assert (Hroom' : (min_int64 + Z.of_nat k <= n)%Z) by lia.
    specialize (IHHm Hroom' Hle). lia.
Qed.

Lemma startProcess_moves (r r' : restream) (id : string) (err : option error) :
  startProcess id r = Some (r', err) ->
  maxProc r' = maxProc r /\ counter_moves (maxProc r) 0 (nProc r) (nProc r').
Proof.
  intros Hs. destruct (startProcess_frame _ _ _ _ Hs) as (_ & -> & _).
  split; [done|].
  destruct (startProcess_nProc _ _ _ _ Hs) as [-> | [-> Hlt]].
  - constructor.
  - apply moves_inc; [constructor|done].
Qed.

Lemma stopProcess_moves (r : restream) (id : string) :
  maxProc (fst (stopProcess id r)) = maxProc r
  /\ counter_moves (maxProc r) 1 (nProc r) (nProc (fst (stopProcess id r))).
Proof.
  destruct (stopProcess_frame id r) as (_ & -> & _). split; [done|].
  destruct (stopProcess_nProc r id) as [-> | ->].
  - apply moves_more. constructor.
  - apply moves_dec. constructor.
Qed.

(** ** The task builder *)

Lemma unsetPlayoutPorts_task (t : task) (ff : FFmpeg) :
  let t' := snd (unsetPlayoutPorts t ff) in
  t_valid t' = t_valid t /\ t_id t' = t_id t /\ t_process t' = t_process t
  /\ t_config t' = t_config t /\ t_ffmpeg t' = t_ffmpeg t
  /\ t_reference t' = t_reference t /\ t_usesDisk t' = t_usesDisk t.
Proof. unfold unsetPlayoutPorts. by destruct (t_playout t). Qed.

Lemma setPlayoutPorts_task (t t' : task) (ff ff' : FFmpeg) (err : option error) :
  setPlayoutPorts t ff = (ff', t', err) ->
  t_valid t' = t_valid t /\ t_id t' = t_id t /\ t_process t' = t_process t
  /\ t_ffmpeg t' = t_ffmpeg t /\ t_reference t' = t_reference t
  /\ t_usesDisk t' = t_usesDisk t
  /\ Output (t_config t') = Output (t_config t)
  /\ ID (t_config t') = ID (t_config t).
Proof.
  unfold setPlayoutPorts. intros Hs.
  pose proof (unsetPlayoutPorts_task t ff) as Hu.
  destruct (unsetPlayoutPorts t ff) as [ff1 t1]. simpl in Hu.
  destruct (assign_ports ff1 ∅ [] (Input (t_config t1))) as [[[ff2 playout] inputs] err'].
  simplify_eq. simpl. destruct Hu as (-> & -> & -> & -> & -> & -> & ->). done.
Qed.

(** What [createTask] leaves behind when it returns a task: only the port
    pool of the engine factory may have changed; the caller's config has
    the version constraint of the builder; the task is valid, has an
    engine handle and a parser, carries the ID of the config as given, and
    its order follows [Autostart]. *)
Lemma createTask_Ok `{Collaborators} (now : Z) (config config' : Config)
    (r r' : restream) (t : task) :
  createTask now config r = Some (config', r', Ok t) ->
  (exists ff, r' = set_ffmpeg ff r)
  /\ config' = Config_set_FFVersion (createTask_FFVersion (ff_Version (ffmpeg r))) config
  /\ t_id t = ID config
  /\ t_valid t = true
  /\ is_Some (t_ffmpeg t)
  /\ is_Some (t_parser t)
  /\ t_process t
     = mkProcess (ID config) (Reference config) config'
         (if Autostart config then "start" else "stop") now now
  /\ Output (t_config t) = Output (resolvePlaceholders config').
Proof.
  unfold createTask. intros Hc.
  destruct (String.length (TrimSpace (ID config)) =? 0)%nat; [by simplify_eq|].
  destruct (resolveAddresses _ _) as [cfg [err|]] eqn:Hra; [by simplify_eq|].
  simpl in Hc.
  destruct (validateConfig _ _) as [[usesDisk|err]|]; simpl in Hc; [|by simplify_eq|done].
  destruct (setPlayoutPorts _ _) as [[ff t1] [err|]] eqn:Hsp; [by simplify_eq|].
  destruct (ffmpeg_New _) as [eng|err]; [|by simplify_eq].
  apply setPlayoutPorts_task in Hsp. simpl in Hsp.
  destruct Hsp as (Hv & Hid & Hp & He & Href & Hu & Hout & Hcid).
  simplify_eq. simpl. repeat split; eauto.
  rewrite Hout. unfold resolveAddresses in Hra.
  destruct (resolve_inputs _ _ _ _). by simplify_eq.
Qed.

Lemma createTask_frame `{Collaborators} (now : Z) (config config' : Config)
    (r r' : restream) (res : result task) :
  createTask now config r = Some (config', r', res) ->
  exists ff, r' = set_ffmpeg ff r.
Proof.
  destruct res as [t|err]; [intros Hc; by apply createTask_Ok in Hc as [? _]|].
  unfold createTask. intros Hc.
  assert (Hsame : r = set_ffmpeg (ffmpeg r) r) by by destruct r.
  destruct (String.length (TrimSpace (ID config)) =? 0)%nat; [simplify_eq; eauto|].
  destruct (resolveAddresses _ _) as [cfg [err'|]]; [simplify_eq; eauto|].
  simpl in Hc.
  destruct (validateConfig _ _) as [[usesDisk|err']|]; simpl in Hc;
    [|simplify_eq; eauto|done].
  destruct (setPlayoutPorts _ _) as [[ff t1] [err'|]]; [simplify_eq; eauto|].
  destruct (ffmpeg_New _) as [eng|err']; simplify_eq; eauto.
Qed.

(** ** Adding a process *)

Lemma setCleanup_frame (id : string) (config : Config) (r : restream) :
  let r' := setCleanup id config r in
  tasks r' = tasks r /\ nProc r' = nProc r /\ maxProc r' = maxProc r
  /\ ffmpeg r' = ffmpeg r.
Proof. done. Qed.

Lemma startProcess_dom (r r' : restream) (id i : string) (err : option error) :
  startProcess id r = Some (r', err) ->
  is_Some (tasks r' !! i) <-> is_Some (tasks r !! i).
Proof.
  unfold startProcess. intros Hs.
  destruct (tasks r !! id) as [t|] eqn:Ht; [|by simplify_eq].
  destruct (t_valid t); simpl in Hs; [|by simplify_eq].
  destruct (t_ffmpeg t); [|done].
  destruct (_ && _); [by simplify_eq|].
  destruct (_ && _); simplify_eq; [done|]. simpl.
  rewrite lookup_insert_is_Some. destruct (decide (id = i)) as [->|]; [|tauto].
  rewrite Ht. split; eauto.
Qed.

(** C3 (amended).  Let the task builder accept the config.  If a task with
    the ID of the config, exactly as given, is in the registry, [AddProcess]
    returns "process already exists" and leaves the registry as it was.
    If there is no such task and the order of the new task is "start",
    then whenever the internal start returns an error, [AddProcess]
    returns that error and the registry is again what it was before the
    call: the task just inserted has been removed.  In fact the registry
    is unchanged whenever [AddProcess] returns an error. *)
Theorem AddProcess_exists_or_rolls_back `{Collaborators} (now : Z)
    (config config' : Config) (r r1 : restream) (t : task) :
  createTask now config r = Some (config', r1, Ok t) ->
  (is_Some (tasks r !! ID config) ->
   AddProcess now config r = Some (config', r1, Some ErrProcessExists)
   /\ tasks r1 = tasks r)
  /\ (tasks r !! ID config = None -> Order (t_process t) = "start" ->
      forall r2 e,
        startProcess (t_id t) (AddProcess_inserted t r1) = Some (r2, Some e) ->
        exists r3, AddProcess now config r = Some (config', r3, Some e)
                   /\ tasks r3 = tasks r)
  /\ (forall r3 e,
        AddProcess now config r = Some (config', r3, Some e) -> tasks r3 = tasks r).
Proof.
  intros Hc. pose proof (createTask_Ok _ _ _ _ _ _ Hc) as ([ff ->] & _ & Hid & _).
  assert (Hrollback : forall r2 e,
            tasks r !! ID config = None ->
            startProcess (t_id t) (AddProcess_inserted t (set_ffmpeg ff r))
            = Some (r2, Some e) ->
            delete (t_id t) (tasks r2) = tasks r).
  { intros r2 e Hnew Hs. apply startProcess_error_unchanged in Hs as ->.
    simpl. rewrite Hid, delete_insert_eq. by apply delete_id. }
  unfold AddProcess, AddProcess_insert. rewrite Hc. simpl.
  replace (tasks r !! t_id t) with (tasks r !! ID config) by (by rewrite Hid).
  split; [|split].
  - intros [t0 Ht0]. by rewrite Ht0.
  - intros Hnew Ho r2 e Hs. rewrite Hnew, Ho. simpl. rewrite Hs. simpl.
    eexists. split; [reflexivity|]. simpl. by eapply Hrollback.
  - intros r3 e. destruct (tasks r !! ID config) eqn:Hnew; simpl.
    { intros; by simplify_eq. }
    destruct (String.eqb (Order (t_process t)) "start"); simpl.
    2: { intros; by simplify_eq. }
    destruct (startProcess _ _) as [[r2 [e'|]]|] eqn:Hs; simpl;
      intros; simplify_eq.
    simpl. by eapply Hrollback.
Qed.

Lemma AddProcess_exists_or_rolls_back_witness :
  (exists c' r1,
     AddProcess 1000 (Sample.config "a" "/base/b.ts" true) Sample.at_cap
     = Some (c', r1, Some ErrProcessExists)
     /\ tasks r1 = tasks Sample.at_cap)
  /\ (exists c' r3,
        AddProcess 1000 (Sample.config "b" "/base/b.ts" true) Sample.at_cap
        = Some (c', r3, Some (ErrMaxProcesses 1))
        /\ tasks r3 = tasks Sample.at_cap).
Proof.
  split.
  - destruct (createTask 1000 (Sample.config "a" "/base/b.ts" true) Sample.at_cap)
      as [[[c' r1] [t|e]]|] eqn:Hc; [|vm_compute in Hc; discriminate..].
    destruct (AddProcess_exists_or_rolls_back _ _ _ _ _ _ Hc) as (Hexists & _ & _).
    exists c', r1. apply Hexists. vm_compute. eauto.
  - destruct (createTask 1000 (Sample.config "b" "/base/b.ts" true) Sample.at_cap)
      as [[[c' r1] [t|e]]|] eqn:Hc; [|vm_compute in Hc; discriminate..].
    destruct (AddProcess_exists_or_rolls_back _ _ _ _ _ _ Hc) as (_ & Hroll & _).
    exists c'. apply (Hroll eq_refl) with (r2 := AddProcess_inserted t r1);
      vm_compute in Hc; injection Hc as <- <- <-; vm_compute; reflexivity.
Defined.

(** C3, as stated, fails.  The registry key of a new task is the ID of the
    config as given; the ID is trimmed only to check that it is not empty.
    With a task "a" in the registry, a config whose ID is " a" (trimmed:
    "a") is added without error, and both tasks are in the registry
    afterwards.  And a config that the builder rejects gets the error of
    the builder, although its ID is that of a task in the registry. *)
Lemma AddProcess_trimmed_ID_counterexample :
  let r := Sample.one_task in
  let c := Sample.config " a" "/base/b.ts" false in
  (TrimSpace (ID c) = "a"
   /\ is_Some (tasks r !! "a")
   /\ Sample.add_error c r = None
   /\ is_Some (tasks (Sample.add c r) !! "a")
   /\ is_Some (tasks (Sample.add c r) !! " a"))
  /\ Sample.add_error (Sample.config_no_input "a") r = Some (ErrNoInput "a").
Proof.
  split; [|vm_compute; reflexivity].
  repeat split; try (vm_compute; reflexivity); vm_compute; eauto.
Qed.

(** ** The counter of running processes under every operation *)

Lemma counters_moved_refl (r r' : restream) :
  maxProc r' = maxProc r -> nProc r' = nProc r -> counters_moved 0 r r'.
Proof. intros Hm Hn. split; [done|]. rewrite Hn. constructor. Qed.

Lemma counters_moved_trans (k1 k2 : nat) (r1 r2 r3 : restream) :
  counters_moved k1 r1 r2 -> counters_moved k2 r2 r3 ->
  counters_moved (k1 + k2) r1 r3.
Proof.
  intros [Hm1 H1] [Hm2 H2]. split; [congruence|].
  rewrite Hm1 in H2. by eapply counter_moves_trans.
Qed.

Lemma counters_moved_le (k k' : nat) (r r' : restream) :
  counters_moved k r r' -> (k <= k')%nat -> counters_moved k' r r'.
Proof. intros [Hm H1] Hle. split; [done|]. by eapply counter_moves_le. Qed.

Lemma startProcess_counters (r r' : restream) (id : string) (err : option error) :
  startProcess id r = Some (r', err) -> counters_moved 0 r r'.
Proof. apply startProcess_moves. Qed.

Lemma stopProcess_counters (r : restream) (id : string) :
  counters_moved 1 r (fst (stopProcess id r)).
Proof. apply stopProcess_moves. Qed.

Lemma deleteProcess_counters (r : restream) (id : string) :
  counters_moved 0 r (fst (deleteProcess id r)).
Proof.
  apply counters_moved_refl; unfold deleteProcess;
    destruct (tasks r !! id) as [t|]; try done;
    by destruct (negb _).
Qed.

Lemma restartProcess_counters (r r' : restream) (id : string) (err : option error) :
  restartProcess id r = Some (r', err) -> counters_moved 0 r r'.
Proof.
  unfold restartProcess. intros Hr.
  destruct (tasks r !! id) as [t|]; [|simplify_eq; by apply counters_moved_refl].
  destruct (negb _); [simplify_eq; by apply counters_moved_refl|].
  destruct (String.eqb _ _); [simplify_eq; by apply counters_moved_refl|].
  destruct (t_ffmpeg t); simplify_eq. by apply counters_moved_refl.
Qed.

Lemma save_on_success_counters (k : nat) (r : restream) (x : restream * option error) :
  counters_moved k r (fst x) -> counters_moved k r (fst (save_on_success x)).
Proof. by destruct x as [r' [e|]]. Qed.

Lemma observe_loop_counters (ids : list string) (r : restream) :
  counters_moved (List.length ids) r (foldl observe_step r ids).
Proof.
  revert r. induction ids as [|i ids IH]; intros r; simpl.
  - by apply counters_moved_refl.
  - change (S (List.length ids)) with (1 + List.length ids)%nat.
    eapply counters_moved_trans; [|apply IH].
    unfold observe_step. destruct (tasks r !! i) as [t|].
    2: { eapply counters_moved_le; [by apply counters_moved_refl|lia]. }
    destruct (negb (t_valid t)).
    { eapply counters_moved_le; [by apply counters_moved_refl|lia]. }
    destruct (negb (t_usesDisk t)).
    { eapply counters_moved_le; [by apply counters_moved_refl|lia]. }
    destruct (negb _).
    { eapply counters_moved_le; [by apply counters_moved_refl|lia]. }
    apply stopProcess_counters.
Qed.

Lemma Stop_loop_counters (ids : list string) (r : restream) :
  counters_moved 0 r (foldl Stop_step r ids).
Proof.
  revert r. induction ids as [|i ids IH]; intros r; simpl.
  - by apply counters_moved_refl.
  - eapply (counters_moved_trans 0 0); [|apply IH].
    unfold Stop_step. destruct (tasks r !! i) as [t|]; [|by apply counters_moved_refl].
    destruct (t_ffmpeg t); by apply counters_moved_refl.
Qed.

Lemma Start_loop_counters (ids : list string) (r r' : restream) :
  foldl Start_step (Some r) ids = Some r' -> counters_moved 0 r r'.
Proof.
  revert r. induction ids as [|i ids IH]; intros r; simpl.
  - intros [= ->]. by apply counters_moved_refl.
  - destruct (tasks r !! i) as [t|]; [|apply IH].
    destruct (String.eqb _ _); simpl; [|apply IH].
    destruct (startProcess i r) as [[r1 err]|] eqn:Hs; simpl.
    + intros Hl.
      eapply (counters_moved_trans 0 0 r r1 r');
        [by eapply startProcess_counters|exact (IH _ Hl)].
    + assert (Hnone : forall l, foldl Start_step None l = None)
        by (induction l; simpl; auto).
      by rewrite Hnone.
Qed.

Lemma createTask_counters `{Collaborators} (now : Z) (config config' : Config)
    (r r' : restream) (res : result task) :
  createTask now config r = Some (config', r', res) -> counters_moved 0 r r'.
Proof.
  intros Hc. apply createTask_frame in Hc as [ff ->].
  by apply counters_moved_refl.
Qed.

Lemma AddProcess_insert_counters (t : task) (r r' : restream) (err : option error) :
  AddProcess_insert t r = Some (r', err) -> counters_moved 0 r r'.
Proof.
  unfold AddProcess_insert. intros Ha.
  destruct (tasks r !! t_id t); [simplify_eq; by apply counters_moved_refl|].
  destruct (String.eqb _ _); [|simplify_eq; by apply counters_moved_refl].
  destruct (startProcess _ _) as [[r1 [e|]]|] eqn:Hs; simpl in Ha; simplify_eq;
    apply startProcess_counters in Hs; exact Hs.
Qed.

Lemma AddProcess_counters `{Collaborators} (now : Z) (config config' : Config)
    (r r' : restream) (err : option error) :
  AddProcess now config r = Some (config', r', err) -> counters_moved 0 r r'.
Proof.
  unfold AddProcess. intros Ha.
  destruct (createTask now config r) as [[[c1 r1] [t|e]]|] eqn:Hc;
    simpl in Ha; [| |done].
  - destruct (AddProcess_insert t r1) as [[r2 e2]|] eqn:Hi; simpl in Ha; [|done].
    simplify_eq.
    eapply (counters_moved_trans 0 0);
      eauto using createTask_counters, AddProcess_insert_counters.
  - simplify_eq. by eapply createTask_counters.
Qed.

Lemma UpdateProcess_counters `{Collaborators} (now now' : Z) (id : string)
    (config config' : Config) (r r' : restream) (err : option error) :
  UpdateProcess now now' id config r = Some (config', r', err) ->
  counters_moved 1 r r'.
Proof.
  unfold UpdateProcess. intros Hu.
  destruct (createTask now config r) as [[[c1 r1] [t|e]]|] eqn:Hc;
    simpl in Hu; [| |done].
  2: { simplify_eq. eapply counters_moved_le; [by eapply createTask_counters|lia]. }
  apply createTask_counters in Hc.
  eapply (counters_moved_trans 0 1); [exact Hc|]. clear Hc.
  destruct (tasks r1 !! id) as [old|]; simpl in Hu.
  2: { simplify_eq. eapply counters_moved_le; [by apply counters_moved_refl|lia]. }
  destruct (t_parser old) as [old_parser|]; simpl in Hu; [|done].
  destruct (negb _ && _).
  { simplify_eq. eapply counters_moved_le; [by apply counters_moved_refl|lia]. }
  pose proof (stopProcess_counters r1 id) as Hstop.
  destruct (stopProcess id r1) as [r2 [e|]]; simpl in Hstop; [by simplify_eq|].
  eapply (counters_moved_trans 1 0); [exact Hstop|]. clear Hstop.
  pose proof (deleteProcess_counters r2 id) as Hdel.
  destruct (deleteProcess id r2) as [r3 [e|]]; simpl in Hdel; [by simplify_eq|].
  eapply (counters_moved_trans 0 0); [exact Hdel|]. clear Hdel.
  destruct (String.eqb _ _); simpl in Hu; [|simplify_eq; by apply counters_moved_refl].
  destruct (startProcess _ _) as [[r4 e]|] eqn:Hs; simpl in Hu; [|done].
  simplify_eq. apply startProcess_counters in Hs. exact Hs.
Qed.

Lemma reloadProcess_counters `{Collaborators} (id : string) (r r' : restream)
    (err : option error) :
  reloadProcess id r = Some (r', err) -> counters_moved 1 r r'.
Proof.
  unfold reloadProcess. intros Hr.
  assert (Hweak : forall r0, maxProc r0 = maxProc r -> nProc r0 = nProc r ->
            counters_moved 1 r r0).
  { intros r0 Hm Hn. eapply counters_moved_le; [by apply counters_moved_refl|lia]. }
  destruct (tasks r !! id) as [t|]; [|simplify_eq; by apply Hweak].
  destruct (resolveAddresses _ _) as [cfg [e|]]; [simplify_eq; by apply Hweak|].
  destruct (validateConfig _ _) as [[usesDisk|e]|]; simpl in Hr;
    [|simplify_eq; by apply Hweak|done].
  destruct (setPlayoutPorts _ _) as [[ff t1] [e|]]; [simplify_eq; by apply Hweak|].
  set (r1 := set_tasks _ (set_ffmpeg ff r)) in Hr.
  simpl in Hr.
  destruct (String.eqb (Order (t_process t1)) "start").
  - pose proof (stopProcess_counters r1 id) as Hstop.
    destruct (tasks (fst (stopProcess id r1)) !! id) as [t3|]; simpl in Hr; [|done].
    destruct (ffmpeg_New _) as [eng|e]; [|by simplify_eq].
    destruct (startProcess _ _) as [[r4 e]|] eqn:Hs; simpl in Hr; [|done].
    simplify_eq. apply startProcess_counters in Hs.
    eapply (counters_moved_trans 1 0); [exact Hstop|exact Hs].
  - destruct (tasks r1 !! id) as [t3|]; simpl in Hr; [|done].
    destruct (ffmpeg_New _) as [eng|e]; simplify_eq; by apply Hweak.
Qed.

(** Every operation leaves the cap as it is and moves the counter by
    guarded increments and by no more decrements than there are tasks. *)
Lemma operation_counters `{Collaborators} (r r' : restream) :
  operation r r' ->
  counters_moved (S (size (tasks r))) r r'.
Proof.
  intros Hop; destruct Hop as
    [id r r' err Ho|id r r' err Ho|id r r' err Ho|id r r' err Ho|id r r' err Ho
    |now config config' r r' err Ho|now now' id config config' r r' err Ho
    |ids r r' Hv Ho|ids r Hv|ids size limit r Hv].
  - unfold StartProcess in Ho.
    destruct (startProcess id r) as [[r1 [e|]]|] eqn:Hs; simpl in Ho; simplify_eq;
      apply startProcess_counters in Hs;
      (eapply counters_moved_le; [exact Hs|lia]).
  - unfold StopProcess in Ho.
    pose proof (stopProcess_counters r id) as Hs.
    destruct (stopProcess id r) as [r1 [e|]]; simpl in Ho; simplify_eq;
      (eapply counters_moved_le; [exact Hs|lia]).
  - eapply counters_moved_le; [by eapply restartProcess_counters|lia].
  - unfold ReloadProcess in Ho.
    destruct (reloadProcess id r) as [[r1 [e|]]|] eqn:Hs; simpl in Ho; simplify_eq;
      apply reloadProcess_counters in Hs;
      (eapply counters_moved_le; [exact Hs|lia]).
  - unfold DeleteProcess in Ho.
    pose proof (deleteProcess_counters r id) as Hs.
    destruct (deleteProcess id r) as [r1 [e|]]; simpl in Ho; simplify_eq;
      (eapply counters_moved_le; [exact Hs|lia]).
  - eapply counters_moved_le; [by eapply AddProcess_counters|lia].
  - eapply counters_moved_le; [by eapply UpdateProcess_counters|lia].
  - unfold Start in Ho. destruct (startOnce r).
    { simplify_eq. eapply counters_moved_le; [by apply counters_moved_refl|lia]. }
    destruct (foldl Start_step (Some r) ids) as [r1|] eqn:Hl; simpl in Ho; [|done].
    simplify_eq. apply Start_loop_counters in Hl.
    eapply counters_moved_le; [exact Hl|lia].
  - unfold Stop. destruct (stopOnce r).
    { eapply counters_moved_le; [by apply counters_moved_refl|lia]. }
    eapply counters_moved_le; [exact (Stop_loop_counters ids r)|lia].
  - unfold observe_tick. destruct (_ && _).
    2: { eapply counters_moved_le; [by apply counters_moved_refl|lia]. }
    eapply counters_moved_le; [apply observe_loop_counters|].
    unfold visits, task_ids in Hv. rewrite Hv, length_fmap, length_map_to_list. lia.
Qed.

(** The cap in a run: with a cap of 2, no running process and three valid
    tasks whose engines have not been started, the first two starts
    succeed, the third is refused, and after stopping one of the two the
    third start succeeds. *)
Lemma start_cap_scenario (r : restream) (a b c : string) (ta tb tc : task)
    (ea eb ec : engine) :
  maxProc r = 2%Z -> nProc r = 0%Z -> a <> b -> a <> c -> b <> c ->
  tasks r !! a = Some ta -> tasks r !! b = Some tb -> tasks r !! c = Some tc ->
  t_valid ta = true -> t_valid tb = true -> t_valid tc = true ->
  t_ffmpeg ta = Some ea -> t_ffmpeg tb = Some eb -> t_ffmpeg tc = Some ec ->
  e_order ea <> "start" -> e_order eb <> "start" -> e_order ec <> "start" ->
  exists r1 r2 r3 r4,
    startProcess a r = Some (r1, None)
    /\ startProcess b r1 = Some (r2, None)
    /\ startProcess c r2 = Some (r2, Some (ErrMaxProcesses 2))
    /\ stopProcess a r2 = (r3, None)
    /\ startProcess c r3 = Some (r4, None)
    /\ nProc r1 = 1%Z /\ nProc r2 = 2%Z /\ nProc r3 = 1%Z /\ nProc r4 = 2%Z.
Proof.
  intros Hmax Hn Hab Hac Hbc Ha Hb Hc Hva Hvb Hvc Hea Heb Hec Hoa Hob Hoc.
  eexists _, _, _, _.
  split.
  { apply (startProcess_starts r a ta ea); try done; [tauto|lia]. }
  split.
  { apply (startProcess_starts _ b tb eb); try done; simpl.
    - by rewrite lookup_insert_ne.
    - tauto.
    - rewrite Hmax, Hn. intros _. reflexivity. }
  split.
  { simpl. match goal with |- startProcess c ?r2 = _ =>
      generalize (startProcess_refused r2 c tc ec) end.
    simpl. rewrite Hmax, Hn. intros Href. apply Href; try done.
    - by rewrite !lookup_insert_ne.
    - tauto. }
  split.
  { apply (stopProcess_stops _ a
             (task_set_ffmpeg (Some (engine_Start ea))
                (task_set_process (Process_set_Order "start" (t_process ta)) ta))
             (engine_Start ea)); simpl.
    - by rewrite lookup_insert_ne, lookup_insert_eq.
    - done.
    - intros [Ho _]. discriminate. }
  split.
  { apply (startProcess_starts _ c tc ec); try done; simpl.
    - by rewrite !lookup_insert_ne.
    - tauto.
    - rewrite Hmax, Hn. intros _. reflexivity. }
  simpl. rewrite Hn. repeat split; reflexivity.
Qed.

(** C6 (amended).  The cap is never changed, and with a cap above 0 the
    bound [nProc <= maxProc] is preserved by every operation of the
    supervisor, as long as the counter is far enough above the smallest
    int64 not to wrap around when it is decremented.  [startProcess] on a
    valid task that is not started already (the no-op case: order "start"
    and an engine that reports the order "start") returns an error and
    changes nothing when [nProc >= maxProc]; below the cap it returns no
    error, sets the order to "start", starts the engine and increments
    [nProc].  A [stopProcess] that is not a no-op decrements [nProc].
    Hence with a cap of 2 and three valid tasks whose engines have not
    been started, two starts succeed, the third is refused, and after
    stopping one of the two the third start succeeds. *)
Theorem nProc_cap `{Collaborators} :
  (forall r r',
     operation r r' ->
     (0 < maxProc r)%Z -> int64_ok (maxProc r) ->
     (min_int64 + Z.of_nat (S (size (tasks r))) <= nProc r)%Z ->
     (nProc r <= maxProc r)%Z ->
     maxProc r' = maxProc r /\ (nProc r' <= maxProc r')%Z)
  /\ (forall r id t eng,
        tasks r !! id = Some t -> t_valid t = true -> t_ffmpeg t = Some eng ->
        ~ (Order (t_process t) = "start" /\ e_order eng = "start") ->
        (0 < maxProc r)%Z -> int64_ok (maxProc r) -> int64_ok (nProc r) ->
        ((maxProc r <= nProc r)%Z ->
         startProcess id r = Some (r, Some (ErrMaxProcesses (maxProc r))))
        /\ ((nProc r < maxProc r)%Z ->
            exists r' t',
              startProcess id r = Some (r', None)
              /\ nProc r' = (nProc r + 1)%Z
              /\ tasks r' !! id = Some t'
              /\ Order (t_process t') = "start"
              /\ t_ffmpeg t' = Some (engine_Start eng)))
  /\ (forall r id t eng,
        tasks r !! id = Some t -> t_ffmpeg t = Some eng ->
        ~ (Order (t_process t) = "stop" /\ e_order eng = "stop") ->
        int64_ok (nProc r) -> (min_int64 < nProc r)%Z ->
        exists r' t',
          stopProcess id r = (r', None)
          /\ nProc r' = (nProc r - 1)%Z
          /\ tasks r' !! id = Some t'
          /\ Order (t_process t') = "stop"
          /\ t_ffmpeg t' = Some (engine_Stop true eng))
  /\ (forall r a b c ta tb tc ea eb ec,
        maxProc r = 2%Z -> nProc r = 0%Z -> a <> b -> a <> c -> b <> c ->
        tasks r !! a = Some ta -> tasks r !! b = Some tb -> tasks r !! c = Some tc ->
        t_valid ta = true -> t_valid tb = true -> t_valid tc = true ->
        t_ffmpeg ta = Some ea -> t_ffmpeg tb = Some eb -> t_ffmpeg tc = Some ec ->
        e_order ea <> "start" -> e_order eb <> "start" -> e_order ec <> "start" ->
        exists r1 r2 r3 r4,
          startProcess a r = Some (r1, None)
          /\ startProcess b r1 = Some (r2, None)
          /\ startProcess c r2 = Some (r2, Some (ErrMaxProcesses 2))
          /\ stopProcess a r2 = (r3, None)
          /\ startProcess c r3 = Some (r4, None)
          /\ nProc r1 = 1%Z /\ nProc r2 = 2%Z /\ nProc r3 = 1%Z /\ nProc r4 = 2%Z).
Proof.
  split; [|split; [|split]].
  - intros r r' Hop Hpos Hmax Hroom Hle.
    destruct (operation_counters r r' Hop) as [Hm Hmoves]. split; [done|].
    rewrite Hm.
    by apply (counter_moves_bounds _ _ _ _ Hmoves).
  - intros r id t eng Ht Hv He Hnoop Hpos Hmax Hn. split.
    + intros Hcap. by eapply startProcess_refused.
    + intros Hlt. eexists _, _. split.
      { eapply startProcess_starts; eauto. }
      simpl. split; [|split; [apply lookup_insert_eq|done]].
      apply wrap64_small. unfold int64_ok in *. lia.
  - intros r id t eng Ht He Hnoop Hn Hmin. eexists _, _. split.
    { eapply stopProcess_stops; eauto. }
    simpl. split; [|split; [apply lookup_insert_eq|done]].
    apply wrap64_small. unfold int64_ok in *. lia.
  - apply start_cap_scenario.
Qed.


Lemma nProc_cap_witness :
  (nProc (fst (StopProcess "a" Sample.one_task)) <= 2)%Z
  /\ startProcess "b" Sample.second_waiting
     = Some (Sample.second_waiting, Some (ErrMaxProcesses 1))
  /\ (exists r', stopProcess "a" Sample.second_waiting = (r', None)
                 /\ nProc r' = 0%Z)
  /\ (exists r1 r2 r3 r4,
        startProcess "a" Sample.three_tasks = Some (r1, None)
        /\ startProcess "b" r1 = Some (r2, None)
        /\ startProcess "c" r2 = Some (r2, Some (ErrMaxProcesses 2))
        /\ stopProcess "a" r2 = (r3, None)
        /\ startProcess "c" r3 = Some (r4, None)).
Proof.
  destruct (nProc_cap (H := Sample.collaborators)) as (Hinv & Hstart & Hstop & Hrun).
  split; [|split; [|split]].
  - assert (Hop : operation Sample.one_task (fst (StopProcess "a" Sample.one_task))).
    { apply (op_StopProcess "a" _ _ (snd (StopProcess "a" Sample.one_task))).
      by destruct (StopProcess "a" Sample.one_task). }
    assert (Hmax : maxProc Sample.one_task = 2%Z) by (vm_compute; reflexivity).
    assert (Hn : nProc Sample.one_task = 1%Z) by (vm_compute; reflexivity).
    assert (Hsize : size (tasks Sample.one_task) = 1%nat) by (vm_compute; reflexivity).
    destruct (Hinv _ _ Hop) as [Hm Hle].
    + rewrite Hmax. lia.
    + rewrite Hmax. vm_compute. split; discriminate.
    + rewrite Hn, Hsize. vm_compute. discriminate.
    + rewrite Hmax, Hn. lia.
    + rewrite Hm, Hmax in Hle. exact Hle.
  - assert (Hmax : maxProc Sample.second_waiting = 1%Z) by (vm_compute; reflexivity).
    assert (Hn : nProc Sample.second_waiting = 1%Z) by (vm_compute; reflexivity).
    destruct (tasks Sample.second_waiting !! "b") as [t|] eqn:Ht;
      [|vm_compute in Ht; discriminate].
    destruct (t_ffmpeg t) as [eng|] eqn:He;
      [|vm_compute in Ht; injection Ht as <-; discriminate].
    destruct (Hstart Sample.second_waiting "b" t eng Ht) as [Hrefused _].
    + vm_compute in Ht. by injection Ht as <-.
    + exact He.
    + vm_compute in Ht. injection Ht as <-. intros [Ho _]. discriminate.
    + rewrite Hmax. lia.
    + rewrite Hmax. vm_compute. split; discriminate.
    + rewrite Hn. vm_compute. split; discriminate.
    + rewrite Hmax in Hrefused. apply Hrefused. rewrite Hn. lia.
  - assert (Hn : nProc Sample.second_waiting = 1%Z) by (vm_compute; reflexivity).
    destruct (tasks Sample.second_waiting !! "a") as [t|] eqn:Ht;
      [|vm_compute in Ht; discriminate].
    destruct (t_ffmpeg t) as [eng|] eqn:He;
      [|vm_compute in Ht; injection Ht as <-; discriminate].
    destruct (Hstop Sample.second_waiting "a" t eng Ht He) as (r' & t' & Hs & Hn' & _).
    + vm_compute in Ht. injection Ht as <-. intros [Ho _]. discriminate.
    + rewrite Hn. vm_compute. split; discriminate.
    + rewrite Hn. vm_compute. reflexivity.
    + exists r'. split; [exact Hs|]. rewrite Hn', Hn. reflexivity.
  - assert (Hmax : maxProc Sample.three_tasks = 2%Z) by (vm_compute; reflexivity).
    assert (Hn : nProc Sample.three_tasks = 0%Z) by (vm_compute; reflexivity).
    destruct (tasks Sample.three_tasks !! "a") as [ta|] eqn:Ha;
      [|vm_compute in Ha; discriminate].
    destruct (tasks Sample.three_tasks !! "b") as [tb|] eqn:Hb;
      [|vm_compute in Hb; discriminate].
    destruct (tasks Sample.three_tasks !! "c") as [tc|] eqn:Hc;
      [|vm_compute in Hc; discriminate].
    destruct (t_ffmpeg ta) as [ea|] eqn:Hea;
      [|vm_compute in Ha; injection Ha as <-; discriminate].
    destruct (t_ffmpeg tb) as [eb|] eqn:Heb;
      [|vm_compute in Hb; injection Hb as <-; discriminate].
    destruct (t_ffmpeg tc) as [ec|] eqn:Hec;
      [|vm_compute in Hc; injection Hc as <-; discriminate].
    assert (Hva : t_valid ta = true) by (vm_compute in Ha; by injection Ha as <-).
    assert (Hvb : t_valid tb = true) by (vm_compute in Hb; by injection Hb as <-).
    assert (Hvc : t_valid tc = true) by (vm_compute in Hc; by injection Hc as <-).
    assert (Hoa : e_order ea <> "start")
      by (vm_compute in Ha; injection Ha as <-; injection Hea as <-; discriminate).
    assert (Hob : e_order eb <> "start")
      by (vm_compute in Hb; injection Hb as <-; injection Heb as <-; discriminate).
    assert (Hoc : e_order ec <> "start")
      by (vm_compute in Hc; injection Hc as <-; injection Hec as <-; discriminate).
    destruct (Hrun Sample.three_tasks "a" "b" "c" ta tb tc ea eb ec
                Hmax Hn ltac:(discriminate) ltac:(discriminate) ltac:(discriminate)
                Ha Hb Hc Hva Hvb Hvc Hea Heb Hec Hoa Hob Hoc)
      as (r1 & r2 & r3 & r4 & H1 & H2 & H3 & H4 & H5 & _).
    exists r1, r2, r3, r4. repeat split; assumption.
Defined.

(** C6, as stated, fails.  With the cap reached, [startProcess] on a task
    that is started already returns no error: the no-op check comes before
    the check of the cap.  And a [stopProcess] at the smallest int64 wraps
    the counter around to the largest one, above any smaller cap. *)
Lemma startProcess_at_cap_counterexample :
  (let r := Sample.at_cap in
   (0 < maxProc r)%Z /\ (maxProc r <= nProc r)%Z
   /\ startProcess "a" r = Some (r, None))
  /\ (let r := set_nProc min_int64 Sample.one_task in
      (0 < maxProc r)%Z /\ (nProc r <= maxProc r)%Z
      /\ nProc (fst (stopProcess "a" r)) = max_int64
      /\ ~ (nProc (fst (stopProcess "a" r)) <= maxProc (fst (stopProcess "a" r)))%Z).
Proof.
  split.
  - split; [vm_compute; reflexivity|]. split; [vm_compute; discriminate|].
    vm_compute. reflexivity.
  - split; [vm_compute; reflexivity|]. split; [vm_compute; discriminate|].
    split; [vm_compute; reflexivity|]. vm_compute. intros Hle. by apply Hle.
Qed.

(** ** The reference expression *)

Lemma append_cons (c : ascii) (a b : string) :
  String c a +:+ b = String c (a +:+ b).
Proof. reflexivity. Qed.

Lemma append_nil (b : string) : "" +:+ b = b.
Proof. reflexivity. Qed.

Lemma append_assoc (a b c : string) : (a +:+ b) +:+ c = a +:+ b +:+ c.
Proof.
  induction a as [|x a IH]; [done|]. by rewrite !append_cons, IH.
Qed.

Lemma HasPrefix_app (p s : string) :
  HasPrefix s p = true <-> exists y, s = p +:+ y.
Proof.
  unfold HasPrefix. revert s. induction p as [|c p IH]; intros s.
  - split; [intros _; by exists s|intros _; by destruct s].
  - destruct s as [|d s]; simpl; [split; [done|by intros [y Hy]]|].
    destruct (Ascii.ascii_dec c d) as [->|Hne].
    + rewrite IH. split; intros [y Hy]; exists y;
        rewrite append_cons in *; congruence.
    + split; [done|]. intros [y Hy]. rewrite append_cons in Hy. congruence.
Qed.

Lemma drop_string_0 (y : string) : drop_string 0 y = y.
Proof.
  unfold drop_string. rewrite Nat.sub_0_r.
  induction y as [|c y IH]; simpl; [done|]. by rewrite IH.
Qed.

Lemma drop_string_app (p y : string) :
  drop_string (String.length p) (p +:+ y) = y.
Proof.
  induction p as [|c p IH].
  - apply drop_string_0.
  - rewrite append_cons. exact IH.
Qed.

Lemma first_line_split (s : string) :
  exists tail,
    s = first_line s +:+ tail
    /\ no_newline (first_line s)
    /\ (tail = "" \/ exists tail', tail = String newline tail').
Proof.
  induction s as [|c s (tail & Hs & Hno & Htail)]; simpl.
  - exists "". repeat split; [constructor|by left].
  - destruct (Ascii.eqb c newline) eqn:Hc.
    + apply Ascii.eqb_eq in Hc as ->. exists (String newline s).
      repeat split; [constructor|right; eauto].
    + apply Ascii.eqb_neq in Hc. exists tail.
      rewrite append_cons, <- Hs.
      repeat split; [|done]. by constructor.
Qed.

Lemma no_newline_first_line (s tail : string) :
  no_newline s -> (tail = "" \/ exists tail', tail = String newline tail') ->
  first_line (s +:+ tail) = s.
Proof.
  unfold no_newline. induction s as [|c s IH]; intros Hno Htail.
  - rewrite append_nil. by destruct Htail as [->|[tail' ->]].
  - simpl in Hno. apply Forall_cons in Hno as [Hc Hno]. apply Ascii.eqb_neq in Hc.
    rewrite append_cons. simpl. rewrite Hc. by rewrite IH.
Qed.

Lemma no_newline_app (a b : string) :
  no_newline (a +:+ b) <-> no_newline a /\ no_newline b.
Proof.
  unfold no_newline. induction a as [|c a IH].
  - rewrite append_nil. simpl.
    split; [intros Hb; split; [constructor|done]|by intros [_ Hb]].
  - rewrite append_cons. simpl. rewrite !Forall_cons, IH. tauto.
Qed.

Lemma no_newline_output : no_newline ":output=".
Proof. unfold no_newline. simpl. repeat constructor; discriminate. Qed.

Lemma split_reference_here (c : ascii) (y : string) :
  y <> "" ->
  split_reference (String c (":output=" +:+ y))
  = match split_reference (":output=" +:+ y) with
    | Some (refid, outid) => Some (String c refid, outid)
    | None => Some (String c "", y)
    end.
Proof.
  intros Hy. cbn [split_reference].
  destruct (split_reference (":output=" +:+ y)) as [[refid outid]|]; [done|].
  rewrite (proj2 (HasPrefix_app ":output=" (":output=" +:+ y))) by (by exists y).
  change 8%nat with (String.length ":output=").
  rewrite drop_string_app. by destruct y.
Qed.

(** [split_reference] finds a split exactly when there is one ... *)
Lemma split_reference_is_Some (s : string) :
  is_Some (split_reference s) <->
  exists x y, s = x +:+ ":output=" +:+ y /\ x <> "" /\ y <> "".
Proof.
  induction s as [|c s IH].
  - split; [by intros [? ?]|]. intros (x & y & Hs & Hx & _). by destruct x.
  - split.
    + cbn [split_reference].
      destruct (split_reference s) as [[refid outid]|] eqn:Hsplit.
      * intros _. destruct (proj1 IH) as (x & y & -> & Hx & Hy); [eauto|].
        by exists (String c x), y.
      * destruct (HasPrefix s ":output=") eqn:Hp; [|by intros [? ?]].
        apply HasPrefix_app in Hp as [y ->].
        change 8%nat with (String.length ":output=").
        rewrite drop_string_app. destruct y as [|d y]; [by intros [? ?]|].
        intros _. by exists (String c ""), (String d y).
    + intros (x & y & Hs & Hx & Hy). destruct x as [|c' x]; [done|].
      rewrite append_cons in Hs. injection Hs as <- ->.
      destruct x as [|d x].
      * rewrite append_nil, split_reference_here by done.
        destruct (split_reference _) as [[refid outid]|]; eauto.
      * cbn [split_reference].
        destruct (proj2 IH) as [[refid outid] ->]; [|eauto].
        by exists (String d x), y.
Qed.

(** ... its result is a split ... *)
Lemma split_reference_Some (s refid outid : string) :
  split_reference s = Some (refid, outid) ->
  s = refid +:+ ":output=" +:+ outid /\ refid <> "" /\ outid <> "".
Proof.
  revert refid outid. induction s as [|c s IH]; intros refid outid; [done|].
  cbn [split_reference].
  destruct (split_reference s) as [[refid' outid']|] eqn:Hsplit.
  - intros [= <- <-]. destruct (IH _ _ eq_refl) as (-> & _ & Hy). by repeat split.
  - destruct (HasPrefix s ":output=") eqn:Hp; [|done].
    apply HasPrefix_app in Hp as [y ->].
    change 8%nat with (String.length ":output=").
    rewrite drop_string_app. destruct y as [|d y]; [done|].
    intros [= <- <-]. by repeat split.
Qed.

(** ... and, the first group being greedy, the one with the longest first
    part. *)
Lemma split_reference_greedy (s refid outid x y : string) :
  split_reference s = Some (refid, outid) ->
  s = x +:+ ":output=" +:+ y -> x <> "" -> y <> "" ->
  (String.length x <= String.length refid)%nat.
Proof.
  revert refid outid x. induction s as [|c s IH]; intros refid outid x; [done|].
  cbn [split_reference].
  destruct (split_reference s) as [[refid' outid']|] eqn:Hsplit.
  - intros [= <- <-] Hs Hx Hy. destruct x as [|c' x]; [done|].
    rewrite append_cons in Hs. injection Hs as <- ->. simpl.
    destruct x as [|d x]; [simpl; lia|].
    apply le_n_S. by eapply IH.
  - destruct (HasPrefix s ":output=") eqn:Hp; [|done].
    destruct (drop_string 8 s); [done|]. intros [= <- <-] Hs Hx Hy.
    destruct x as [|c' x]; [done|]. rewrite append_cons in Hs.
    injection Hs as <- ->.
    destruct x as [|d x]; [done|]. exfalso.
    assert (Hsome : is_Some (split_reference (String d x +:+ ":output=" +:+ y))).
    { apply split_reference_is_Some. by exists (String d x), y. }
    rewrite Hsplit in Hsome. by destruct Hsome.
Qed.

Lemma no_newline_pattern (refid outid : string) :
  no_newline refid -> no_newline outid ->
  no_newline (refid +:+ ":output=" +:+ outid).
Proof.
  intros Hx Hy. apply no_newline_app. split; [done|].
  apply no_newline_app. split; [apply no_newline_output|done].
Qed.

(** The captures of [re_reference] are a match of the expression, and the
    first capture is the longest possible. *)
Lemma re_reference_Some (address refid outid : string) :
  re_reference address = Some (refid, outid) ->
  matches_reference address refid outid
  /\ forall refid' outid',
       matches_reference address refid' outid' ->
       (String.length refid' <= String.length refid)%nat.
Proof.
  unfold re_reference. destruct address as [|c rest]; [done|].
  destruct (Ascii.eqb c "#") eqn:Hc.
  2: { destruct c as [[] [] [] [] [] [] [] []]; done. }
  apply Ascii.eqb_eq in Hc as ->.
  intros Hsplit. destruct (first_line_split rest) as (tail & Hrest & Hno & Htail).
  pose proof (split_reference_Some _ _ _ Hsplit) as (Hline & Hx & Hy).
  split.
  - exists tail. rewrite Hline in Hrest, Hno.
    apply no_newline_app in Hno as [Hnx Hno].
    apply no_newline_app in Hno as [_ Hny].
    repeat split; try done.
    rewrite append_cons, append_nil. f_equal.
    by rewrite Hrest, !append_assoc.
  - intros refid' outid' (tail' & Ha & Hx' & Hy' & Hnx' & Hny' & Htail').
    rewrite append_cons, append_nil in Ha. injection Ha as Ha.
    eapply (split_reference_greedy _ _ _ refid' outid'); eauto.
    rewrite Ha.
    replace (refid' +:+ ":output=" +:+ outid' +:+ tail')
      with ((refid' +:+ ":output=" +:+ outid') +:+ tail')
      by (by rewrite !append_assoc).
    apply no_newline_first_line; [by apply no_newline_pattern|done].
Qed.

(** When [re_reference] finds nothing, the expression does not match. *)
Lemma re_reference_None (address : string) :
  re_reference address = None ->
  forall refid outid, ~ matches_reference address refid outid.
Proof.
  intros Hnone refid outid (tail & -> & Hx & Hy & Hnx & Hny & Htail).
  rewrite append_cons, append_nil in Hnone. cbn [re_reference] in Hnone.
  replace (refid +:+ ":output=" +:+ outid +:+ tail)
    with ((refid +:+ ":output=" +:+ outid) +:+ tail) in Hnone
    by (by rewrite !append_assoc).
  rewrite no_newline_first_line in Hnone; [|by apply no_newline_pattern|done].
  assert (Hsome : is_Some (split_reference (refid +:+ ":output=" +:+ outid))).
  { apply split_reference_is_Some. by exists refid, outid. }
  rewrite Hnone in Hsome. by destruct Hsome.
Qed.

Lemma first_line_no_newline (s : string) : no_newline s -> first_line s = s.
Proof.
  unfold no_newline. induction s as [|c s IH]; simpl; [done|].
  intros [Hc Hno]%Forall_cons. apply Ascii.eqb_neq in Hc.
  rewrite Hc. by rewrite IH.
Qed.

(** The expression with the end anchor, as the specification writes it:
    [re_reference_anchored] finds its captures when it matches ... *)
Lemma re_reference_anchored_None (address : string) :
  re_reference_anchored address = None ->
  forall refid outid, ~ matches_reference_anchored address refid outid.
Proof.
  intros Hnone refid outid (-> & Hx & Hy & Hnx & Hny).
  rewrite append_cons, append_nil in Hnone. cbn [re_reference_anchored] in Hnone.
  rewrite first_line_no_newline, String.eqb_refl in Hnone
    by (by apply no_newline_pattern).
  assert (Hsome : is_Some (split_reference (refid +:+ ":output=" +:+ outid))).
  { apply split_reference_is_Some. by exists refid, outid. }
  rewrite Hnone in Hsome. by destruct Hsome.
Qed.

(** ... and on an address without newline it is [re_reference]. *)
Lemma re_reference_anchored_no_newline (address : string) :
  no_newline address -> re_reference_anchored address = re_reference address.
Proof.
  destruct address as [|c rest]; [done|]. unfold no_newline. simpl.
  intros [_ Hno]%Forall_cons.
  destruct c as [[] [] [] [] [] [] [] []]; try done.
  by rewrite first_line_no_newline, String.eqb_refl.
Qed.

(** ** The reference resolver *)

Lemma find_output_None (outid : string) (outputs : list ConfigIO) :
  (forall x, x ∈ outputs -> io_ID x <> outid) ->
  List.find (fun x => String.eqb (io_ID x) outid) outputs = None.
Proof.
  induction outputs as [|x outputs IH]; intros Hall; simpl; [done|].
  rewrite (proj2 (String.eqb_neq _ _)) by (apply Hall, elem_of_cons; by left).
  apply IH. intros y Hy. apply Hall, elem_of_cons. by right.
Qed.

Lemma find_output_first (outid : string) (before after : list ConfigIO) (x : ConfigIO) :
  (forall y, y ∈ before -> io_ID y <> outid) -> io_ID x = outid ->
  List.find (fun x => String.eqb (io_ID x) outid) (before ++ x :: after) = Some x.
Proof.
  induction before as [|y before IH]; intros Hall Hx; simpl.
  - by rewrite (proj2 (String.eqb_eq _ _)).
  - rewrite (proj2 (String.eqb_neq _ _)) by (apply Hall, elem_of_cons; by left).
    apply IH; [|done]. intros z Hz. apply Hall, elem_of_cons. by right.
Qed.

Lemma resolve_inputs_Ok (tasks : gmap string task) (cfgid : string)
    (acc todo inputs : list ConfigIO) :
  resolve_inputs tasks cfgid acc todo = (inputs, None) ->
  exists todo', inputs = acc ++ todo'
                /\ Forall2 (resolved_input tasks cfgid) todo todo'.
Proof.
  revert acc. induction todo as [|input todo IH]; intros acc; simpl.
  - intros [= <-]. exists []. by rewrite app_nil_r.
  - destruct (resolveAddress tasks cfgid (io_Address input)) as [address|e] eqn:Hr;
      [|done].
    intros Hrest. apply IH in Hrest as (todo' & -> & Hall).
    exists (IO_set_Address address input :: todo').
    split; [by rewrite <- app_assoc|]. constructor; [|done]. by split.
Qed.

Lemma resolve_inputs_Err (tasks : gmap string task) (cfgid : string)
    (acc todo inputs : list ConfigIO) (e : error) :
  resolve_inputs tasks cfgid acc todo = (inputs, Some e) ->
  exists input cause,
    input ∈ todo
    /\ resolveAddress tasks cfgid (io_Address input) = Err cause
    /\ e = ErrReference cfgid (io_ID input) cause.
Proof.
  revert acc. induction todo as [|input todo IH]; intros acc; simpl; [done|].
  destruct (resolveAddress tasks cfgid (io_Address input)) as [address|cause] eqn:Hr.
  - intros Hrest. apply IH in Hrest as (input' & cause & Hin & Hc & ->).
    exists input', cause. split; [apply elem_of_cons; by right|done].
  - intros [= <- <-]. exists input, cause. split; [apply elem_of_cons; by left|done].
Qed.

(** C4 (amended).  [resolveAddress]: an empty address is an error; an
    address that does not start with '#' is returned as it is; an address
    that starts with '#' and is not matched by the expression
    [^#(.+):output=(.+)] (without end anchor: the second group ends at the
    first newline, if there is one) is an error; when it is matched, with
    the greedy captures [refid] and [outid], a [refid] equal to the id of
    the current task is an error, a [refid] that is no key of the task map
    is an error, a task without output with the ID [outid] is an error, and
    otherwise the result is the address of the first such output in the
    working config of that task.  [resolveAddresses] puts the result in
    the place of the address of every input, and fails with the error of
    the first input that cannot be resolved. *)
Theorem resolveAddress_cases (tasks : gmap string task) (id address : string) :
  (address = "" -> resolveAddress tasks id address = Err ErrEmptyAddress)
  /\ (address <> "" -> HasPrefix address "#" = false ->
      resolveAddress tasks id address = Ok address)
  /\ (HasPrefix address "#" = true ->
      ((forall refid outid, ~ matches_reference address refid outid) ->
       resolveAddress tasks id address = Err (ErrInvalidFormat address))
      /\ forall refid outid,
           re_reference address = Some (refid, outid) ->
           matches_reference address refid outid
           /\ (refid = id ->
               resolveAddress tasks id address = Err (ErrSelfReference address))
           /\ (refid <> id -> tasks !! refid = None ->
               resolveAddress tasks id address
               = Err (ErrUnknownReference refid address))
           /\ (forall task,
                 refid <> id -> tasks !! refid = Some task ->
                 ((forall x, x ∈ Output (t_config task) -> io_ID x <> outid) ->
                  resolveAddress tasks id address
                  = Err (ErrNoSuchOutput refid outid address))
                 /\ (forall before x after,
                       Output (t_config task) = before ++ x :: after ->
                       (forall y, y ∈ before -> io_ID y <> outid) ->
                       io_ID x = outid ->
                       resolveAddress tasks id address = Ok (io_Address x))))
  /\ (forall config config',
        ID config = id ->
        resolveAddresses tasks config = (config', None) ->
        Forall2 (resolved_input tasks id) (Input config) (Input config')
        /\ config' = Config_set_Input (Input config') config)
  /\ (forall config config' e,
        ID config = id ->
        resolveAddresses tasks config = (config', Some e) ->
        exists input cause,
          input ∈ Input config
          /\ resolveAddress tasks id (io_Address input) = Err cause
          /\ e = ErrReference id (io_ID input) cause).
Proof.
  split; [by intros ->|]. split.
  { intros Hne Hp. destruct address as [|c rest]; [done|]. simpl.
    destruct (Ascii.eqb c "#") eqn:Hc; [|done].
    apply Ascii.eqb_eq in Hc as ->. by destruct rest. }
  split.
  { intros Hp. destruct address as [|c rest]; [done|].
    assert (Hc : Ascii.eqb c "#" = true).
    { apply HasPrefix_app in Hp as [y Hy]. rewrite append_cons in Hy.
      injection Hy as -> _. reflexivity. }
    unfold resolveAddress. rewrite Hc. cbn [negb]. split.
    - intros Hnomatch.
      destruct (re_reference (String c rest)) as [[refid outid]|] eqn:Hre; [|done].
      apply re_reference_Some in Hre as [Hm _]. by apply Hnomatch in Hm.
    - intros refid outid Hre. rewrite Hre.
      split; [by apply re_reference_Some in Hre as [Hm _]|].
      split; [intros ->; by rewrite String.eqb_refl|].
      split.
      + intros Hne Hnone. apply String.eqb_neq in Hne. by rewrite Hne, Hnone.
      + intros task Hne Htask. apply String.eqb_neq in Hne. rewrite Hne, Htask.
        split.
        * intros Hall. by rewrite find_output_None.
        * intros before x after Hout Hbefore Hx.
          by rewrite Hout, find_output_first. }
  split.
  - intros config config' <-. unfold resolveAddresses.
    destruct (resolve_inputs _ _ _ _) as [inputs err] eqn:Hr.
    intros [= <- ->]. apply resolve_inputs_Ok in Hr as (todo' & -> & Hall).
    by split.
  - intros config config' e <-. unfold resolveAddresses.
    destruct (resolve_inputs _ _ _ _) as [inputs err] eqn:Hr.
    intros [= <- ->]. by apply resolve_inputs_Err in Hr.
Qed.

Lemma resolveAddress_cases_witness :
  resolveAddress (tasks Sample.one_task) "b" "" = Err ErrEmptyAddress
  /\ resolveAddress (tasks Sample.one_task) "b" "rtmp://x/y" = Ok "rtmp://x/y"
  /\ resolveAddress (tasks Sample.one_task) "b" "#a" = Err (ErrInvalidFormat "#a")
  /\ resolveAddress (tasks Sample.one_task) "a" "#a:output=o"
     = Err (ErrSelfReference "#a:output=o")
  /\ resolveAddress (tasks Sample.one_task) "b" "#z:output=o"
     = Err (ErrUnknownReference "z" "#z:output=o")
  /\ resolveAddress (tasks Sample.one_task) "b" "#a:output=p"
     = Err (ErrNoSuchOutput "a" "p" "#a:output=p")
  /\ resolveAddress (tasks Sample.one_task) "b" "#a:output=o" = Ok "/base/a.ts".
Proof.
  assert (Hcases := fun id address =>
            resolveAddress_cases (tasks Sample.one_task) id address).
  split; [by apply (Hcases "b" "")|].
  split; [by apply (Hcases "b" "rtmp://x/y")|].
  split.
  { apply (Hcases "b" "#a"); [reflexivity|].
    apply re_reference_None. reflexivity. }
  split.
  { destruct (Hcases "a" "#a:output=o") as (_ & _ & Href & _).
    destruct (Href eq_refl) as [_ Hm].
    apply (Hm "a" "o" eq_refl). reflexivity. }
  split.
  { destruct (Hcases "b" "#z:output=o") as (_ & _ & Href & _).
    destruct (Href eq_refl) as [_ Hm].
    apply (Hm "z" "o" eq_refl); [intros Hne; discriminate Hne|].
    vm_compute. reflexivity. }
  assert (Htask : exists t,
            tasks Sample.one_task !! "a" = Some t
            /\ Output (t_config t)
               = [] ++ mkIO "o" "/base/a.ts" []
                         [mkCleanup "disk:/*.ts" 5 0 true] :: []).
  { eexists. split; vm_compute; reflexivity. }
  destruct Htask as (t & Ht & Hout).
  split.
  { destruct (Hcases "b" "#a:output=p") as (_ & _ & Href & _).
    destruct (Href eq_refl) as [_ Hm].
    destruct (Hm "a" "p" eq_refl) as (_ & _ & _ & Hfound).
    apply (Hfound t); [intros Hne; discriminate Hne|exact Ht|].
    intros x Hx. rewrite Hout in Hx. apply list_elem_of_In in Hx.
    simpl in Hx. destruct Hx as [<-|[]]. simpl. intros Hne. discriminate Hne. }
  destruct (Hcases "b" "#a:output=o") as (_ & _ & Href & _).
  destruct (Href eq_refl) as [_ Hm].
  destruct (Hm "a" "o" eq_refl) as (_ & _ & _ & Hfound).
  destruct (Hfound t ltac:(intros Hne; discriminate Hne) Ht) as [_ Hfirst].
  apply (Hfirst _ _ _ Hout); [|reflexivity].
  intros y Hy. apply elem_of_nil in Hy. destruct Hy.
Defined.

(** C4, as stated, fails.  The expression in the code has no end anchor,
    and [.] does not match a newline: an address that continues after a
    newline is not matched by [^#(.+):output=(.+)$], yet it is resolved. *)
Lemma resolveAddress_newline_counterexample :
  let address := Sample.reference_with_newline in
  HasPrefix address "#" = true
  /\ (forall refid outid, ~ matches_reference_anchored address refid outid)
  /\ resolveAddress (tasks Sample.one_task) "b" address = Ok "/base/a.ts".
Proof.
  split; [reflexivity|]. split.
  - apply re_reference_anchored_None. reflexivity.
  - vm_compute. reflexivity.
Qed.

(** ** Output addresses *)

Lemma validateOutputAddress_fuel_single `{Collaborators} (fuel : nat)
    (address basedir : string) :
  is_tee address = false ->
  validateOutputAddress_fuel (S fuel) address basedir
  = Some (validate_single address basedir).
Proof. intros Htee. simpl. by rewrite Htee. Qed.

Lemma validateOutputAddress_fuel_tee `{Collaborators} (fuel : nat)
    (address basedir : string) :
  is_tee address = true ->
  validateOutputAddress_fuel (S fuel) address basedir
  = tee_elements (fun a => validateOutputAddress_fuel fuel a basedir)
      address (Split address "|") [] false.
Proof. intros Htee. simpl. by rewrite Htee. Qed.

(** A URL that the url package and the engine accept is returned as it
    is, and is no file. *)
Lemma validate_single_url `{Collaborators} (address basedir : string) :
  TrimPrefix address "file:" = address ->
  url_HasScheme address = true -> url_Validate address = None ->
  ffmpeg_ValidateOutputAddress address = true ->
  validate_single address basedir = (address, false, None).
Proof.
  intros Htrim Hscheme Hvalid Hallowed. unfold validate_single.
  by rewrite Htrim, Hscheme, Hvalid, Hallowed.
Qed.

(** An absolute clean path below the base directory that the engine
    accepts becomes a [file:] address, and is a file. *)
Lemma validate_single_file `{Collaborators} (address basedir : string) :
  TrimPrefix address "file:" = address ->
  url_HasScheme address = false -> address <> "-" ->
  HasPrefix address "/" = true -> filepath_Clean address = address ->
  HasPrefix address "/dev/" = false -> HasPrefix address basedir = true ->
  ffmpeg_ValidateOutputAddress ("file:" +:+ address) = true ->
  validate_single address basedir = ("file:" +:+ address, true, None).
Proof.
  intros Htrim Hscheme Hdash Habs Hclean Hdev Hbase Hallowed.
  unfold validate_single, filepath_Abs.
  rewrite Htrim, Hscheme. apply String.eqb_neq in Hdash. rewrite Hdash.
  by rewrite Habs, Hclean, Hdev, Hbase, Hallowed.
Qed.

(** C8.  When the url package sees a scheme in "udp://h:1" and none in
    "/srv/basedir/x.ts", and the url package and the engine accept the
    addresses, the tee address
    "[f=mpegts]udp://h:1|[onfail=ignore]/srv/basedir/x.ts" validated
    against the base directory "/srv/basedir" comes back as
    "[f=mpegts]udp://h:1|[onfail=ignore]file:/srv/basedir/x.ts" with the
    file flag set; [validateConfig] of a config with valid inputs and this
    one output on the disk "/srv/basedir" therefore returns
    [usesDisk = true]. *)
Theorem tee_address_uses_disk `{Collaborators} :
  url_HasScheme "udp://h:1" = true ->
  url_Validate "udp://h:1" = None ->
  ffmpeg_ValidateOutputAddress "udp://h:1" = true ->
  url_HasScheme "/srv/basedir/x.ts" = false ->
  ffmpeg_ValidateOutputAddress "file:/srv/basedir/x.ts" = true ->
  validateOutputAddress
    "[f=mpegts]udp://h:1|[onfail=ignore]/srv/basedir/x.ts" "/srv/basedir"
  = Some ("[f=mpegts]udp://h:1|[onfail=ignore]file:/srv/basedir/x.ts", true, None)
  /\ forall config input inputs oid options cleanup,
       Input config = input :: inputs ->
       validate_inputs (ID config) ["/srv/basedir"] ∅ (Input config) = None ->
       Output config
       = [mkIO oid "[f=mpegts]udp://h:1|[onfail=ignore]/srv/basedir/x.ts"
            options cleanup] ->
       TrimSpace oid <> "" ->
       validateConfig ["/srv/basedir"] config = Some (Ok true).
Proof.
  intros Hscheme Hvalid Hallowed Hnoscheme Hfile.
  assert (Htee : validateOutputAddress
                   "[f=mpegts]udp://h:1|[onfail=ignore]/srv/basedir/x.ts"
                   "/srv/basedir"
                 = Some ("[f=mpegts]udp://h:1|[onfail=ignore]file:/srv/basedir/x.ts",
                         true, None)).
  { unfold validateOutputAddress.
    rewrite validateOutputAddress_fuel_tee by reflexivity.
    change (Split "[f=mpegts]udp://h:1|[onfail=ignore]/srv/basedir/x.ts" "|")
      with ["[f=mpegts]udp://h:1"; "[onfail=ignore]/srv/basedir/x.ts"].
    cbn [tee_elements].
    change (teeOptions "[f=mpegts]udp://h:1") with ("[f=mpegts]", "udp://h:1").
    change (teeOptions "[onfail=ignore]/srv/basedir/x.ts")
      with ("[onfail=ignore]", "/srv/basedir/x.ts").
    cbn [String.length].
    rewrite !validateOutputAddress_fuel_single by reflexivity.
    rewrite validate_single_url by (reflexivity || assumption).
    rewrite validate_single_file;
      [reflexivity|reflexivity|assumption|discriminate|reflexivity..|assumption]. }
  split; [exact Htee|].
  intros config input inputs oid options cleanup Hin Hinputs Hout Hoid.
  unfold validateConfig. rewrite Hinputs, Hin, Hout.
  cbn [validate_outputs io_ID io_Address].
  destruct (String.length (TrimSpace oid) =? 0)%nat eqn:Hlen.
  { apply Nat.eqb_eq in Hlen. by destruct (TrimSpace oid). }
  rewrite bool_decide_eq_false_2 by (rewrite lookup_empty; by intros [? ?]).
  change (TrimSpace "[f=mpegts]udp://h:1|[onfail=ignore]/srv/basedir/x.ts")
    with "[f=mpegts]udp://h:1|[onfail=ignore]/srv/basedir/x.ts".
  cbn [validate_output_on_disks].
  rewrite Htee. reflexivity.
Qed.

Lemma tee_address_uses_disk_witness :
  validateOutputAddress
    "[f=mpegts]udp://h:1|[onfail=ignore]/srv/basedir/x.ts" "/srv/basedir"
  = Some ("[f=mpegts]udp://h:1|[onfail=ignore]file:/srv/basedir/x.ts", true, None)
  /\ validateConfig ["/srv/basedir"]
       (Sample.config "a" "[f=mpegts]udp://h:1|[onfail=ignore]/srv/basedir/x.ts" true)
     = Some (Ok true).
Proof.
  destruct (tee_address_uses_disk (H := Sample.collaborators)
              eq_refl eq_refl eq_refl eq_refl eq_refl) as [Htee Hconfig].
  split; [exact Htee|].
  apply (Hconfig _ (mkIO "i" "rtmp://x/y" [] []) [] "o" []
           [mkCleanup "disk:/*.ts" 5 0 true]); try reflexivity.
  intros Hempty. discriminate Hempty.
Defined.

(** ** Validation against several disks *)

(** C5, at an input where the code and the claim part.  With the disks
    [/a] and [/b], the output address "/a/x.ts" is accepted: the
    validation against [/a] yields "file:/a/x.ts", the one against [/b]
    fails.  But the loop overwrites its copy of the address with what the
    failing validation returns, "/a/x.ts", and [validateConfig] never
    writes the copy back: the task that [createTask] builds has the
    address "/a/x.ts" in its config and in its command, not the accepted
    form "file:/a/x.ts". *)
Lemma validateConfig_drops_accepted_form :
  let config := Sample.config "p" "/a/x.ts" false in
  disk_bases Sample.two_disks = ["/a"; "/b"]
  /\ validateOutputAddress "/a/x.ts" "/a" = Some ("file:/a/x.ts", true, None)
  /\ validateOutputAddress "/a/x.ts" "/b"
     = Some ("/a/x.ts", false, Some (ErrNotInside "/a/x.ts" "/b"))
  /\ validateConfig (disk_bases Sample.two_disks) config = Some (Ok true)
  /\ validate_output_on_disks "/a/x.ts" None 0 false ["/a"; "/b"]
     = Some ("/a/x.ts", Some (ErrNotInside "/a/x.ts" "/b"), 1%nat, true)
  /\ (t_usesDisk <$> Sample.build config Sample.two_disks) = Some true
  /\ (map io_Address ∘ Output ∘ t_config <$> Sample.build config Sample.two_disks)
     = Some ["/a/x.ts"]
  /\ (t_command <$> Sample.build config Sample.two_disks)
     = Some ["-i"; "rtmp://x/y"; "/a/x.ts"].
Proof. repeat split; vm_compute; reflexivity. Qed.

(** What does hold of C5: [validateConfig] accepts an output when, and
    only when, not every validation in the loop over the disks failed. *)
Lemma validate_output_on_disks_counts `{Collaborators} (bases : list string)
    (address address' : string) (err err' : option error)
    (maxFails maxFails' : nat) (hasFiles hasFiles' : bool) :
  validate_output_on_disks address err maxFails hasFiles bases
  = Some (address', err', maxFails', hasFiles') ->
  (maxFails <= maxFails' <= maxFails + List.length bases)%nat.
Proof.
  revert address err maxFails hasFiles.
  induction bases as [|base bases IH]; intros address err maxFails hasFiles; simpl.
  - intros [= _ _ <- _]. lia.
  - destruct (validateOutputAddress address base) as [[[a f] e]|]; simpl; [|done].
    intros Hrest. apply IH in Hrest. destruct e; simpl in Hrest; lia.
Qed.

(** ** The version constraint *)

Lemma createTask_FFVersion_caret (version : string) :
  createTask_FFVersion version = "^" +:+ version.
Proof.
  unfold createTask_FFVersion. rewrite append_cons, append_nil. reflexivity.
Qed.

(** C9, at an input where the code and the claim part.  [createTask] puts
    the caret in front of the version before it parses it, so the parse
    always fails and the patch level stays: with an engine of version
    4.4.1 the config gets "^4.4.1", where [load] gives "^4.4.0".  The rest
    of C9 holds: the constraint that [createTask] writes does not depend
    on the constraint of the user, and [load] keeps a constraint that is
    not empty. *)
Lemma createTask_keeps_patch_level :
  (forall version, createTask_FFVersion version = "^" +:+ version)
  /\ createTask_FFVersion "4.4.1" = "^4.4.1"
  /\ load_FFVersion "4.4.1" = "^4.4.0"
  /\ (let config := Sample.config "a" "/base/a.ts" true in
      ff_Version (ffmpeg (Sample.empty 2)) = "4.4.1"
      /\ (FFVersion <$> Sample.build_config config (Sample.empty 2)) = Some "^4.4.1"
      /\ (FFVersion ∘ p_Config ∘ t_process <$> Sample.build config (Sample.empty 2))
         = Some "^4.4.1"
      /\ (FFVersion ∘ t_config <$> Sample.build config (Sample.empty 2))
         = Some "^4.4.1")
  /\ (forall (H : Collaborators) version id process,
        FFVersion (p_Config (t_process (load_task version id process)))
        = if (String.length (FFVersion (p_Config process)) =? 0)%nat
          then load_FFVersion version
          else FFVersion (p_Config process)).
Proof.
  split; [exact createTask_FFVersion_caret|].
  split; [reflexivity|]. split; [reflexivity|]. split.
  - repeat split; vm_compute; reflexivity.
  - intros H version id process. unfold load_task.
    by destruct (String.length (FFVersion (p_Config process)) =? 0)%nat.
Qed.

(** ** Listing the process IDs *)

Lemma count_matches_error `{Collaborators} (pattern : string)
    (candidate key : string -> task -> string) (tasks : gmap string task)
    (idmap : gmap string nat) (ids : list string) (id : string) (t : task)
    (e : error) :
  id ∈ ids -> tasks !! id = Some t ->
  glob_Match pattern (candidate id t) = Err e ->
  count_matches pattern candidate key tasks idmap ids = None.
Proof.
  intros Hin Ht Herr. revert idmap.
  induction ids as [|i ids IH]; intros idmap; [by apply elem_of_nil in Hin|].
  simpl. apply elem_of_cons in Hin as [<-|Hin].
  - by rewrite Ht, Herr.
  - destruct (tasks !! i) as [t'|]; [|by apply IH].
    destruct (glob_Match pattern (candidate i t')) as [[|]|e']; [by apply IH..|done].
Qed.

Lemma GetProcessIDs_empty_registry `{Collaborators} (idpattern refpattern : string)
    (r : restream) :
  GetProcessIDs [] [] idpattern refpattern (set_tasks ∅ r) = slice [].
Proof.
  unfold GetProcessIDs, task_ids. simpl.
  destruct (String.length idpattern =? 0)%nat;
    destruct (String.length refpattern =? 0)%nat; simpl;
    by rewrite ?map_to_list_empty.
Qed.

(** C10 (amended).  When a pattern that is not empty makes the glob matcher
    report an error on a candidate of the registry (the ID of a task for
    the ID pattern, the reference of a task for the reference pattern),
    [GetProcessIDs] returns the nil slice: no error and no partial list.
    Its length is 0, as is the length of the result on an empty registry,
    whatever the patterns.  But the result on an empty registry is the
    empty slice that is not nil, so the two results are not the same: a
    caller that compares the result with nil tells them apart. *)
Theorem GetProcessIDs_malformed_pattern `{Collaborators} (r : restream)
    (ids1 ids2 : list string) (idpattern refpattern : string) :
  visits ids1 r -> visits ids2 r ->
  (idpattern <> ""
   /\ exists id t e, tasks r !! id = Some t /\ glob_Match idpattern id = Err e)
  \/ (refpattern <> ""
      /\ exists id t e,
           tasks r !! id = Some t /\ glob_Match refpattern (t_reference t) = Err e) ->
  GetProcessIDs ids1 ids2 idpattern refpattern r = nil_slice
  /\ len (GetProcessIDs ids1 ids2 idpattern refpattern r)
     = len (GetProcessIDs [] [] idpattern refpattern (set_tasks ∅ r))
  /\ GetProcessIDs [] [] idpattern refpattern (set_tasks ∅ r) = slice []
  /\ GetProcessIDs ids1 ids2 idpattern refpattern r
     <> GetProcessIDs [] [] idpattern refpattern (set_tasks ∅ r).
Proof.
  intros Hv1 Hv2 Hbad.
  assert (Hnil : GetProcessIDs ids1 ids2 idpattern refpattern r = nil_slice).
  { unfold GetProcessIDs.
    destruct Hbad as [[Hne (id & t & e & Ht & Herr)]|[Hne (id & t & e & Ht & Herr)]].
    - assert (Hlen : (String.length idpattern =? 0)%nat = false)
        by by destruct idpattern.
      rewrite Hlen. simpl.
      rewrite (count_matches_error idpattern _ _ _ _ ids1 id t e); try done.
      eapply visits_elem_of; eauto.
    - assert (Hlen : (String.length refpattern =? 0)%nat = false)
        by by destruct refpattern.
      rewrite Hlen, andb_false_r. simpl.
      destruct (if negb (String.length idpattern =? 0)%nat then _ else _)
        as [[count idmap]|]; [|done].
      rewrite (count_matches_error refpattern _ _ _ _ ids2 id t e); try done.
      eapply visits_elem_of; eauto. }
  split; [exact Hnil|].
  split; [by rewrite Hnil, GetProcessIDs_empty_registry|].
  split; [apply GetProcessIDs_empty_registry|].
  rewrite Hnil, GetProcessIDs_empty_registry. discriminate.
Qed.

Lemma GetProcessIDs_malformed_pattern_witness :
  GetProcessIDs ["a"] ["a"] "[" "" Sample.one_task = nil_slice
  /\ GetProcessIDs ["a"] ["a"] "*" "[" Sample.one_task = nil_slice
  /\ GetProcessIDs ["a"] ["a"] "[" "" Sample.one_task
     <> GetProcessIDs [] [] "[" "" (set_tasks ∅ Sample.one_task).
Proof.
  assert (Hv : visits ["a"] Sample.one_task) by (vm_compute; reflexivity).
  destruct (tasks Sample.one_task !! "a") as [t|] eqn:Ht;
    [|vm_compute in Ht; discriminate Ht].
  assert (Href : t_reference t = "").
  { pose proof Ht as Ht'. vm_compute in Ht'. injection Ht' as <-. reflexivity. }
  assert (Hid : "[" <> ""
                /\ exists id t e,
                     tasks Sample.one_task !! id = Some t
                     /\ glob_Match "[" id = Err e).
  { split; [intros Hne; discriminate Hne|].
    exists "a", t, (ErrExternal "unexpected end of input").
    split; [exact Ht|reflexivity]. }
  split; [|split].
  - exact (proj1 (GetProcessIDs_malformed_pattern _ _ _ "[" "" Hv Hv
                    (or_introl Hid))).
  - refine (proj1 (GetProcessIDs_malformed_pattern _ _ _ "*" "[" Hv Hv
                     (or_intror _))).
    split; [intros Hne; discriminate Hne|].
    exists "a", t, (ErrExternal "unexpected end of input").
    split; [exact Ht|]. rewrite Href. reflexivity.
  - exact (proj2 (proj2 (proj2
             (GetProcessIDs_malformed_pattern _ _ _ "[" "" Hv Hv
                (or_introl Hid))))).
Defined.

(** C10, as stated, fails.  A malformed pattern is not indistinguishable
    from an empty registry: with the pattern ["["], on which the glob
    matcher reports an error, the result on a registry with one task is
    the nil slice, while the result on the empty registry, like the
    result of a well-formed pattern that matches no task, is the empty
    slice that is not nil. *)
Lemma GetProcessIDs_nil_counterexample :
  GetProcessIDs ["a"] ["a"] "[" "" Sample.one_task = nil_slice
  /\ GetProcessIDs [] [] "[" "" (set_tasks ∅ Sample.one_task) = slice []
  /\ GetProcessIDs ["a"] ["a"] "b" "" Sample.one_task = slice []
  /\ GetProcessIDs ["a"] ["a"] "[" "" Sample.one_task
     <> GetProcessIDs [] [] "[" "" (set_tasks ∅ Sample.one_task).
Proof.
  assert (Hbad : GetProcessIDs ["a"] ["a"] "[" "" Sample.one_task = nil_slice)
    by (vm_compute; reflexivity).
  assert (Hempty : GetProcessIDs [] [] "[" "" (set_tasks ∅ Sample.one_task)
                   = slice []) by (vm_compute; reflexivity).
  split; [exact Hbad|]. split; [exact Hempty|].
  split; [vm_compute; reflexivity|].
  rewrite Hbad, Hempty. discriminate.
Qed.

(** * Further properties of the code *)

(** ** The store follows the registry *)

Lemma save_store (r : restream) : store (save r) = t_process <$> tasks (save r).
Proof. done. Qed.

Lemma save_on_success_store (x : restream * option error) (r : restream) :
  store (fst x) = store r ->
  let x' := save_on_success x in
  (snd x' = None -> store (fst x') = t_process <$> tasks (fst x'))
  /\ (snd x' <> None -> store (fst x') = store r)
  /\ snd x' = snd x.
Proof. destruct x as [r' [e|]]; simpl; intros Hs; by repeat split. Qed.

Lemma startProcess_store (id : string) (r r' : restream) (err : option error) :
  startProcess id r = Some (r', err) -> store r' = store r.
Proof. intros Hs. by apply startProcess_frame in Hs as (_ & _ & _ & _ & -> & _). Qed.

Lemma stopProcess_store (id : string) (r : restream) :
  store (fst (stopProcess id r)) = store r.
Proof. by destruct (stopProcess_frame id r) as (_ & _ & _ & _ & -> & _). Qed.

Lemma deleteProcess_store (id : string) (r : restream) :
  store (fst (deleteProcess id r)) = store r.
Proof.
  unfold deleteProcess. destruct (tasks r !! id) as [t|]; [|done].
  by destruct (negb _).
Qed.

Lemma reloadProcess_store `{Collaborators} (id : string) (r r' : restream)
    (err : option error) :
  reloadProcess id r = Some (r', err) -> store r' = store r.
Proof.
  unfold reloadProcess. intros Hr.
  destruct (tasks r !! id) as [t|]; [|by simplify_eq].
  destruct (resolveAddresses _ _) as [cfg [e|]]; [by simplify_eq|].
  destruct (validateConfig _ _) as [[usesDisk|e]|]; simpl in Hr;
    [|by simplify_eq|done].
  destruct (setPlayoutPorts _ _) as [[ff t1] [e|]]; [by simplify_eq|].
  set (r1 := set_tasks _ (set_ffmpeg ff r)) in Hr.
  simpl in Hr.
  destruct (String.eqb (Order (t_process t1)) "start").
  - pose proof (stopProcess_store id r1) as Hstop.
    destruct (tasks (fst (stopProcess id r1)) !! id) as [t3|]; simpl in Hr; [|done].
    destruct (ffmpeg_New _) as [eng|e]; [|by simplify_eq].
    destruct (startProcess _ _) as [[r4 e]|] eqn:Hs; simpl in Hr; [|done].
    simplify_eq. apply startProcess_store in Hs. by rewrite Hs.
  - destruct (tasks r1 !! id) as [t3|]; simpl in Hr; [|done].
    destruct (ffmpeg_New _) as [eng|e]; by simplify_eq.
Qed.

(** X1.  Every exported mutation hands the catalog to the store when, and only
    when, it returns no error: after a call without error the store holds
    the process entry of every task of the registry, and after a call
    with an error the store is what it was. *)
Theorem mutation_saves_on_success `{Collaborators} (r r' : restream)
    (err : option error) :
  (exists id, StartProcess id r = Some (r', err))
  \/ (exists id, StopProcess id r = (r', err))
  \/ (exists id, DeleteProcess id r = (r', err))
  \/ (exists id, ReloadProcess id r = Some (r', err))
  \/ (exists now config config', AddProcess now config r = Some (config', r', err))
  \/ (exists now now' id config config',
        UpdateProcess now now' id config r = Some (config', r', err)) ->
  (err = None -> store r' = t_process <$> tasks r')
  /\ (err <> None -> store r' = store r).
Proof.
  intros [[id Ho]|[[id Ho]|[[id Ho]|[[id Ho]|[(now & config & config' & Ho)
         |(now & now' & id & config & config' & Ho)]]]]].
  - unfold StartProcess in Ho.
    destruct (startProcess id r) as [[r1 [e|]]|] eqn:Hs; simpl in Ho; simplify_eq;
      apply startProcess_store in Hs; by split.
  - unfold StopProcess in Ho. pose proof (stopProcess_store id r) as Hs.
    destruct (stopProcess id r) as [r1 [e|]]; simpl in *; simplify_eq; by split.
  - unfold DeleteProcess in Ho. pose proof (deleteProcess_store id r) as Hs.
    destruct (deleteProcess id r) as [r1 [e|]]; simpl in *; simplify_eq; by split.
  - unfold ReloadProcess in Ho.
    destruct (reloadProcess id r) as [[r1 [e|]]|] eqn:Hs; simpl in Ho; simplify_eq;
      apply reloadProcess_store in Hs; by split.
  - unfold AddProcess in Ho.
    destruct (createTask now config r) as [[[c1 r1] [t|e]]|] eqn:Hc;
      simpl in Ho; [| |done].
    2: { simplify_eq. apply createTask_frame in Hc as [ff ->]. by split. }
    apply createTask_frame in Hc as [ff ->].
    unfold AddProcess_insert in Ho.
    destruct (tasks (set_ffmpeg ff r) !! t_id t); simpl in Ho; [by simplify_eq|].
    destruct (String.eqb _ _); simpl in Ho; [|by simplify_eq].
    destruct (startProcess _ _) as [[r2 [e|]]|] eqn:Hs; simpl in Ho; simplify_eq;
      apply startProcess_store in Hs; by split.
  - unfold UpdateProcess in Ho.
    destruct (createTask now config r) as [[[c1 r1] [t|e]]|] eqn:Hc;
      simpl in Ho; [| |done].
    2: { simplify_eq. apply createTask_frame in Hc as [ff ->]. by split. }
    apply createTask_frame in Hc as [ff ->].
    destruct (tasks (set_ffmpeg ff r) !! id) as [old|]; simpl in Ho;
      [|by simplify_eq].
    destruct (t_parser old) as [old_parser|]; simpl in Ho; [|done].
    destruct (negb _ && _); [by simplify_eq|].
    pose proof (stopProcess_store id (set_ffmpeg ff r)) as Hstop.
    destruct (stopProcess id (set_ffmpeg ff r)) as [r2 [e|]]; simpl in Hstop;
      [by simplify_eq|].
    pose proof (deleteProcess_store id r2) as Hdel.
    destruct (deleteProcess id r2) as [r3 [e|]]; simpl in Hdel.
    { simplify_eq. split; [done|]. intros _. by rewrite Hdel, Hstop. }
    destruct (String.eqb _ _); simpl in Ho; [|by simplify_eq].
    destruct (startProcess _ _) as [[r4 e]|] eqn:Hs; simpl in Ho; [|done].
    by simplify_eq.
Qed.

Lemma mutation_saves_on_success_witness :
  store (fst (StopProcess "a" Sample.one_task))
  = t_process <$> tasks (fst (StopProcess "a" Sample.one_task))
  /\ store (fst (DeleteProcess "a" Sample.one_task)) = store Sample.one_task.
Proof.
  split.
  - refine (proj1 (mutation_saves_on_success (H := Sample.collaborators)
                     Sample.one_task _ (snd (StopProcess "a" Sample.one_task)) _) _).
    + right. left. exists "a". by destruct (StopProcess "a" Sample.one_task).
    + vm_compute. reflexivity.
  - refine (proj2 (mutation_saves_on_success (H := Sample.collaborators)
                     Sample.one_task _ (snd (DeleteProcess "a" Sample.one_task)) _) _).
    + right. right. left. exists "a". by destruct (DeleteProcess "a" Sample.one_task).
    + vm_compute. intros Hne. discriminate Hne.
Defined.

(** ** Stopping, deleting and repeating *)

Lemma stopProcess_Some (id : string) (r : restream) (t : task) :
  tasks r !! id = Some t ->
  snd (stopProcess id r) = None
  /\ tasks (fst (stopProcess id r)) = <[id := stop_task t]> (tasks r).
Proof.
  intros Ht. split.
  - unfold stopProcess. rewrite Ht. destruct (t_ffmpeg t); [|done].
    by destruct (_ && _).
  - rewrite stopProcess_tasks. symmetry. by apply insert_as_alter.
Qed.

(** X2.  [StopProcess] followed by [DeleteProcess] removes a task that has an
    engine handle, whatever its order was.  A task without engine handle
    (one that [load] kept although its config is invalid) whose order is
    not "stop" cannot be removed this way: [StopProcess] returns no error
    and leaves its order alone, and [DeleteProcess] keeps failing. *)
Theorem StopProcess_then_DeleteProcess (r : restream) (id : string) (t : task) :
  tasks r !! id = Some t ->
  (is_Some (t_ffmpeg t) ->
   exists r1 r2,
     StopProcess id r = (r1, None)
     /\ DeleteProcess id r1 = (r2, None)
     /\ tasks r2 = delete id (tasks r))
  /\ (t_ffmpeg t = None -> Order (t_process t) <> "stop" ->
      StopProcess id r = (save r, None)
      /\ DeleteProcess id (save r) = (save r, Some (ErrStillRunning id))).
Proof.
  intros Ht. split.
  - intros He. destruct (stopProcess_Some id r t Ht) as [Herr Htasks].
    unfold StopProcess. destruct (stopProcess id r) as [r1 e] eqn:Hs.
    simpl in Herr, Htasks. subst e. simpl.
    assert (Ht1 : tasks r1 !! id = Some (stop_task t))
      by (rewrite Htasks; apply lookup_insert_eq).
    exists (save r1). unfold DeleteProcess, deleteProcess. simpl.
    rewrite Ht1, (stop_task_Order t He). simpl.
    eexists. split; [done|]. split; [done|]. simpl.
    by rewrite Htasks, delete_insert_eq.
  - intros He Ho. unfold StopProcess, DeleteProcess, stopProcess, deleteProcess.
    simpl. rewrite Ht, He. simpl.
    apply String.eqb_neq in Ho. by rewrite Ho.
Qed.

Lemma StopProcess_then_DeleteProcess_witness :
  exists r1 r2,
    StopProcess "a" Sample.one_task = (r1, None)
    /\ DeleteProcess "a" r1 = (r2, None)
    /\ tasks r2 = delete "a" (tasks Sample.one_task).
Proof.
  assert (Htask : exists t, tasks Sample.one_task !! "a" = Some t
                            /\ is_Some (t_ffmpeg t)).
  { eexists. split; [vm_compute; reflexivity|]. eexists. reflexivity. }
  destruct Htask as (t & Ht & He).
  exact (proj1 (StopProcess_then_DeleteProcess _ _ _ Ht) He).
Defined.

(** X3.  A second [startProcess] on the same task is a no-op: when the first
    returned no error, the second returns no error and changes nothing,
    so the task is counted once in [nProc].  Likewise for [stopProcess]. *)
Theorem start_and_stop_twice (r : restream) (id : string) :
  (forall r1, startProcess id r = Some (r1, None) ->
              startProcess id r1 = Some (r1, None))
  /\ (forall r1, stopProcess id r = (r1, None) ->
                 stopProcess id r1 = (r1, None)).
Proof.
  split.
  - unfold startProcess at 1. intros r1 Hs.
    destruct (tasks r !! id) as [t|] eqn:Ht; [|done].
    destruct (t_valid t) eqn:Hv; simpl in Hs; [|done].
    destruct (t_ffmpeg t) as [eng|] eqn:He; [|done].
    destruct (_ && _) eqn:Hnoop.
    { simplify_eq. unfold startProcess. by rewrite Ht, Hv, He, Hnoop. }
    destruct ((0 <? maxProc r)%Z && (maxProc r <=? nProc r)%Z); simplify_eq.
    unfold startProcess. cbn [tasks set_nProc set_tasks].
    rewrite lookup_insert_eq. simpl. by rewrite Hv.
  - unfold stopProcess at 1. intros r1 Hs.
    destruct (tasks r !! id) as [t|] eqn:Ht; [|done].
    destruct (t_ffmpeg t) as [eng|] eqn:He.
    2: { simplify_eq. unfold stopProcess. by rewrite Ht, He. }
    destruct (_ && _) eqn:Hnoop.
    { simplify_eq. unfold stopProcess. by rewrite Ht, He, Hnoop. }
    simplify_eq. unfold stopProcess. cbn [tasks set_nProc set_tasks].
    by rewrite lookup_insert_eq.
Qed.

Lemma start_and_stop_twice_witness :
  exists r1,
    stopProcess "a" Sample.one_task = (r1, None)
    /\ stopProcess "a" r1 = (r1, None).
Proof.
  destruct (stopProcess "a" Sample.one_task) as [r1 err] eqn:Hs.
  assert (Herr : err = None)
    by (change err with (snd (r1, err)); rewrite <- Hs; vm_compute; reflexivity).
  subst err. exists r1. split; [reflexivity|].
  exact (proj2 (start_and_stop_twice Sample.one_task "a") r1 Hs).
Defined.

(** ** The observer, repeated *)

Lemma observe_step_skip (r : restream) (id : string) :
  (forall t, tasks r !! id = Some t ->
             t_valid t = true -> t_usesDisk t = true ->
             Order (t_process t) <> "start") ->
  observe_step r id = r.
Proof.
  intros Hskip. unfold observe_step.
  destruct (tasks r !! id) as [t|] eqn:Ht; [|done].
  destruct (t_valid t) eqn:Hv; [|done].
  destruct (t_usesDisk t) eqn:Hu; [|done]. simpl.
  specialize (Hskip t eq_refl Hv Hu).
  apply String.eqb_neq in Hskip. by rewrite Hskip.
Qed.

Lemma observe_loop_skip (r : restream) (ids : list string) :
  (forall id t, tasks r !! id = Some t ->
                t_valid t = true -> t_usesDisk t = true ->
                Order (t_process t) <> "start") ->
  foldl observe_step r ids = r.
Proof.
  intros Hskip. induction ids as [|i ids IH]; simpl; [done|].
  rewrite observe_step_skip; [done|]. intros t. apply Hskip.
Qed.

Lemma observe_tick_lookup (r : restream) (ids : list string) (size limit : Z)
    (id : string) :
  visits ids r -> (0 < limit)%Z -> (limit <= size)%Z ->
  tasks (observe_tick ids size limit r) !! id = observe_task <$> tasks r !! id.
Proof.
  intros Hv Hlim Hfull. unfold observe_tick.
  replace ((0 <? limit)%Z && (limit <=? size)%Z) with true
    by (symmetry; apply andb_true_iff; split; [apply Z.ltb_lt|apply Z.leb_le]; done).
  rewrite observe_loop_tasks, foldl_alter_lookup by eauto using visits_NoDup.
  case_bool_decide as Hin; [done|].
  destruct (tasks r !! id) as [t|] eqn:Ht; [|done].
  exfalso. apply Hin. eapply visits_elem_of; eauto.
Qed.

(** X4.  After a tick of the observer on a full filesystem no valid task that
    uses the disk has the order "start", so a further tick changes
    nothing; and a tick never sets an order to "start": a task that the
    observer stopped stays stopped when the disk has room again. *)
Theorem observe_tick_twice (r : restream) (ids ids' : list string)
    (size limit size' limit' : Z) :
  visits ids r -> registry_wf r -> (0 < limit)%Z -> (limit <= size)%Z ->
  let r1 := observe_tick ids size limit r in
  (forall id t, tasks r1 !! id = Some t ->
                t_valid t = true -> t_usesDisk t = true ->
                Order (t_process t) <> "start")
  /\ observe_tick ids' size' limit' r1 = r1.
Proof.
  intros Hv Hwf Hlim Hfull r1.
  assert (Hdone : forall id t, tasks r1 !! id = Some t ->
                    t_valid t = true -> t_usesDisk t = true ->
                    Order (t_process t) <> "start").
  { intros id t1 Ht1 Hvalid Hdisk Hstart.
    unfold r1 in Ht1. rewrite (observe_tick_lookup r ids size limit) in Ht1
      by assumption.
    destruct (tasks r !! id) as [t|] eqn:Ht; [|discriminate Ht1].
    injection Ht1 as <-. unfold observe_task in *.
    destruct (t_valid t && t_usesDisk t
              && String.eqb (Order (t_process t)) "start") eqn:Hcond.
    - apply andb_true_iff in Hcond as [Hcond _].
      apply andb_true_iff in Hcond as [Hvt _].
      rewrite (stop_task_Order t (Hwf id t Ht Hvt)) in Hstart.
      discriminate Hstart.
    - apply String.eqb_eq in Hstart. by rewrite Hvalid, Hdisk, Hstart in Hcond. }
  split; [exact Hdone|].
  unfold observe_tick at 1. destruct (_ && _); [|done].
  by apply observe_loop_skip.
Qed.

Lemma observe_tick_twice_witness :
  let r1 := observe_tick ["a"] 100 100 Sample.one_task in
  observe_tick ["a"] 100 100 r1 = r1.
Proof.
  assert (Hv : visits ["a"] Sample.one_task) by (vm_compute; reflexivity).
  assert (Hwf : registry_wf Sample.one_task)
    by (apply registry_wfb_correct; vm_compute; reflexivity).
  exact (proj2 (observe_tick_twice Sample.one_task ["a"] ["a"] 100 100 100 100
                  Hv Hwf ltac:(lia) ltac:(lia))).
Defined.

(** ** Stopping and starting the supervisor *)

Lemma Stop_tasks (r : restream) (ids : list string) :
  visits ids r -> stopOnce r = false ->
  tasks (Stop ids r) = halt_task <$> tasks r.
Proof.
  intros Hv Hlatch. unfold Stop. rewrite Hlatch. simpl.
  apply map_eq. intros id.
  rewrite Stop_loop_tasks, foldl_alter_lookup, lookup_fmap
    by eauto using visits_NoDup.
  case_bool_decide as Hin; [done|].
  destruct (tasks r !! id) as [t|] eqn:Ht; [|done].
  exfalso. apply Hin. eapply visits_elem_of; eauto.
Qed.

Lemma Stop_loop_nProc (ids : list string) (r : restream) :
  nProc (foldl Stop_step r ids) = nProc r
  /\ maxProc (foldl Stop_step r ids) = maxProc r.
Proof.
  revert r. induction ids as [|i ids IH]; intros r; simpl; [done|].
  destruct (IH (Stop_step r i)) as [-> ->]. unfold Stop_step.
  destruct (tasks r !! i) as [t|]; [|done]. by destruct (t_ffmpeg t).
Qed.

Lemma Stop_counters (r : restream) (ids : list string) :
  nProc (Stop ids r) = nProc r /\ maxProc (Stop ids r) = maxProc r.
Proof.
  unfold Stop. destruct (stopOnce r); [done|]. simpl.
  apply Stop_loop_nProc.
Qed.

(** A state in which no start can succeed: the cap is reached and no
    engine reports the order "start". *)
Lemma Start_step_at_cap (i : string) (r : restream) :
  registry_wf r -> (0 < maxProc r)%Z -> (maxProc r <= nProc r)%Z ->
  (forall id t eng, tasks r !! id = Some t -> t_ffmpeg t = Some eng ->
                    e_order eng = "stop") ->
  exists r1, Start_step (Some r) i = Some r1
             /\ tasks r1 = tasks r /\ nProc r1 = nProc r
             /\ maxProc r1 = maxProc r.
Proof.
  intros Hwf Hpos Hcap Hstopped. unfold Start_step. simpl.
  destruct (tasks r !! i) as [t|] eqn:Ht; [|by exists r].
  destruct (String.eqb _ _) eqn:Ho; simpl; [|by eexists].
  unfold startProcess. rewrite Ht.
  destruct (t_valid t) eqn:Hv; simpl; [|by eexists].
  destruct (Hwf i t Ht Hv) as [eng He]. rewrite He.
  rewrite (Hstopped i t eng Ht He). rewrite andb_false_r.
  replace ((0 <? maxProc r)%Z && (maxProc r <=? nProc r)%Z) with true.
  - simpl. by eexists.
  - symmetry. apply andb_true_iff.
    split; [by apply Z.ltb_lt|by apply Z.leb_le].
Qed.

Lemma Start_loop_at_cap (ids : list string) (r : restream) :
  registry_wf r -> (0 < maxProc r)%Z -> (maxProc r <= nProc r)%Z ->
  (forall id t eng, tasks r !! id = Some t -> t_ffmpeg t = Some eng ->
                    e_order eng = "stop") ->
  exists r', foldl Start_step (Some r) ids = Some r'
             /\ tasks r' = tasks r /\ nProc r' = nProc r
             /\ maxProc r' = maxProc r.
Proof.
  revert r. induction ids as [|i ids IH]; intros r Hwf Hpos Hcap Hstopped;
    cbn [foldl].
  - by exists r.
  - destruct (Start_step_at_cap i r Hwf Hpos Hcap Hstopped)
      as (r1 & -> & Ht1 & Hn1 & Hm1).
    destruct (IH r1) as (r' & Hr' & Ht' & Hn' & Hm').
    + intros id t. rewrite Ht1. apply Hwf.
    + by rewrite Hm1.
    + by rewrite Hm1, Hn1.
    + intros id t eng. rewrite Ht1. apply Hstopped.
    + exists r'. split; [done|]. split; [congruence|]. split; congruence.
Qed.

(** X5.  A supervisor that is stopped and started again when the cap on running
    processes was reached restarts nothing: [Stop] stops the engines but
    does not decrement [nProc], so every [startProcess] of the following
    [Start] is refused because of the cap.  Every engine is left with the
    stop of [Stop] as its last call, also that of a task whose order is
    "start". *)
Theorem Stop_then_Start_at_cap (r : restream) (ids ids' : list string) :
  visits ids r -> registry_wf r -> stopOnce r = false ->
  (0 < maxProc r)%Z -> (maxProc r <= nProc r)%Z ->
  exists r2,
    Start ids' (Stop ids r) = Some r2
    /\ nProc r2 = nProc r
    /\ forall id t eng,
         tasks r !! id = Some t -> t_ffmpeg t = Some eng ->
         tasks r2 !! id = Some (task_set_ffmpeg (Some (engine_Stop true eng)) t).
Proof.
  intros Hv Hwf Hlatch Hpos Hcap.
  pose proof (Stop_tasks r ids Hv Hlatch) as Htasks.
  destruct (Stop_counters r ids) as [Hn Hm].
  assert (Honce : startOnce (Stop ids r) = false)
    by (unfold Stop; by rewrite Hlatch).
  destruct (Start_loop_at_cap ids' (Stop ids r)) as (r1 & Hr1 & Ht1 & Hn1 & Hm1).
  - intros id t'. rewrite Htasks, lookup_fmap.
    destruct (tasks r !! id) as [t|] eqn:Ht; [|done]. intros [= <-] Hvalid.
    unfold halt_task in *. specialize (Hwf id t Ht).
    destruct (t_ffmpeg t) eqn:He; [by eexists|]. by apply Hwf.
  - by rewrite Hm.
  - by rewrite Hm, Hn.
  - intros id t' eng'. rewrite Htasks, lookup_fmap.
    destruct (tasks r !! id) as [t|] eqn:Ht; [|done]. intros [= <-].
    unfold halt_task. destruct (t_ffmpeg t) eqn:He; simpl;
      [by intros [= <-]|by rewrite He].
  - eexists. unfold Start. rewrite Honce, Hr1. simpl. split; [done|].
    split; [simpl; congruence|].
    intros id t eng Ht He. cbn [tasks set_once set_observing set_fs_list].
    rewrite Ht1, Htasks, lookup_fmap, Ht. simpl.
    unfold halt_task. by rewrite He.
Qed.

Lemma Stop_then_Start_at_cap_witness :
  exists r2 t,
    Start ["a"] (Stop ["a"] Sample.cap_reached) = Some r2
    /\ tasks r2 !! "a" = Some t
    /\ Order (t_process t) = "start"
    /\ (e_order <$> t_ffmpeg t) = Some "stop".
Proof.
  assert (Hv : visits ["a"] Sample.cap_reached) by (vm_compute; reflexivity).
  assert (Hwf : registry_wf Sample.cap_reached)
    by (apply registry_wfb_correct; vm_compute; reflexivity).
  assert (Hmax : maxProc Sample.cap_reached = 1%Z) by (vm_compute; reflexivity).
  assert (Hn : nProc Sample.cap_reached = 1%Z) by (vm_compute; reflexivity).
  assert (Honce : stopOnce Sample.cap_reached = false)
    by (vm_compute; reflexivity).
  destruct (tasks Sample.cap_reached !! "a") as [t|] eqn:Ht;
    [|vm_compute in Ht; discriminate Ht].
  destruct (t_ffmpeg t) as [eng|] eqn:He;
    [|vm_compute in Ht; injection Ht as <-; discriminate He].
  destruct (Stop_then_Start_at_cap Sample.cap_reached ["a"] ["a"] Hv Hwf Honce)
    as (r2 & Hr2 & _ & Hstopped).
  - rewrite Hmax. lia.
  - rewrite Hmax, Hn. lia.
  - exists r2, (task_set_ffmpeg (Some (engine_Stop true eng)) t).
    split; [exact Hr2|].
    split; [exact (Hstopped "a" t eng Ht He)|].
    vm_compute in Ht. injection Ht as <-.
    split; reflexivity.
Defined.
(** ** The recursion of the output address validation *)

Lemma Split_nonempty (s : string) (sep : ascii) : Split s sep <> [].
Proof.
  destruct s as [|c s]; simpl; [discriminate|].
  destruct (Ascii.eqb c sep); [discriminate|].
  destruct (Split s sep); discriminate.
Qed.

Lemma Split_no_sep (s : string) (sep : ascii) :
  Forall (fun c => c <> sep) (list_ascii_of_string s) -> Split s sep = [s].
Proof.
  induction s as [|c s IH]; simpl; intros Hno; [reflexivity|].
  apply Forall_cons in Hno as [Hc Hs].
  apply Ascii.eqb_neq in Hc. rewrite Hc, (IH Hs). reflexivity.
Qed.

(** The elements of a split are the text itself, or all shorter than it. *)
Lemma Split_cases (s : string) (sep : ascii) :
  Split s sep = [s]
  \/ Forall (fun a => (String.length a < String.length s)%nat) (Split s sep).
Proof.
  induction s as [|c s IH]; simpl; [by left|].
  assert (Hle : Forall (fun a => (String.length a <= String.length s)%nat)
                  (Split s sep)).
  { destruct IH as [-> | IH]; [by repeat constructor|].
    eapply Forall_impl; [exact IH|]. simpl. intros a Ha. lia. }
  destruct (Ascii.eqb c sep).
  - right. constructor; [simpl; lia|].
    eapply Forall_impl; [exact Hle|]. simpl. intros a Ha. lia.
  - destruct (Split s sep) as [|h t] eqn:Hsplit;
      [by destruct (Split_nonempty s sep)|].
    destruct IH as [IH | IH].
    + injection IH as -> ->. by left.
    + right. apply Forall_cons in IH as [Hh Ht].
      constructor; [simpl; lia|].
      eapply Forall_impl; [exact Ht|]. simpl. intros a Ha. lia.
Qed.

Lemma substring_length_le (n m : nat) (s : string) :
  (String.length (String.substring n m s) <= m)%nat.
Proof.
  revert n m. induction s as [|c s IH]; intros n m.
  - destruct n, m; simpl; lia.
  - destruct n as [|n].
    + destruct m as [|m]; simpl; [lia|]. specialize (IH 0%nat m). lia.
    + simpl. apply IH.
Qed.

Lemma after_bracket_None (s : string) :
  Forall (fun c => c <> "]"%char) (list_ascii_of_string s) ->
  after_bracket s = None.
Proof.
  induction s as [|c s IH]; simpl; intros Hno; [reflexivity|].
  apply Forall_cons in Hno as [Hc Hs].
  apply Ascii.eqb_neq in Hc. rewrite Hc, (IH Hs). reflexivity.
Qed.

(** The expression of the tee options strips nothing, or leaves a shorter
    element. *)
Lemma teeOptions_cases (a : string) :
  teeOptions a = ("", a)
  \/ (String.length (teeOptions a).2 < String.length a)%nat.
Proof.
  destruct a as [|c s]; [by left|].
  unfold teeOptions.
  destruct (Ascii.eqb c "[") eqn:Hc.
  - apply Ascii.eqb_eq in Hc as ->.
    destruct (after_bracket s) as [n|]; [right|by left].
    cbn [snd]. unfold drop_string.
    pose proof (substring_length_le (S n)
                  (String.length (String "[" s) - S n) (String "[" s)) as Hle.
    simpl in *. lia.
  - left. apply Ascii.eqb_neq in Hc.
    destruct c as [[] [] [] [] [] [] [] []]; try reflexivity.
    by destruct Hc.
Qed.

(** An element that opens a bracket, never closes it and has no ["|"] is
    handed to the nested call as it is. *)
Lemma validateOutputAddress_fuel_self `{Collaborators} (address basedir : string) :
  is_tee address = true ->
  Split address "|" = [address] ->
  teeOptions address = ("", address) ->
  forall fuel, validateOutputAddress_fuel fuel address basedir = None.
Proof.
  intros Htee Hsplit Hopts fuel.
  induction fuel as [|fuel IH]; [reflexivity|].
  rewrite validateOutputAddress_fuel_tee by exact Htee.
  rewrite Hsplit. cbn [tee_elements]. rewrite Hopts, IH. reflexivity.
Qed.

(** X6.  [validateOutputAddress] calls itself without end on an address that
    opens a bracket, never closes it and has no ["|"]: whatever the bound
    on the depth of the calls, the bound is reached. *)
Theorem validateOutputAddress_unclosed_bracket `{Collaborators}
    (s basedir : string) :
  Forall (fun c => c <> "]"%char /\ c <> "|"%char) (list_ascii_of_string s) ->
  forall fuel, validateOutputAddress_fuel fuel (String "[" s) basedir = None.
Proof.
  intros Hno.
  apply validateOutputAddress_fuel_self.
  - unfold is_tee. apply orb_true_iff. right.
    apply HasPrefix_app. by exists s.
  - apply Split_no_sep. constructor; [discriminate|].
    eapply Forall_impl; [exact Hno|]. by intros c [_ Hc].
  - unfold teeOptions. rewrite after_bracket_None; [reflexivity|].
    eapply Forall_impl; [exact Hno|]. by intros c [Hc _].
Qed.

Lemma validateOutputAddress_unclosed_bracket_witness :
  validateOutputAddress "[f=mpegts" "/base" = None
  /\ validateOutputAddress_fuel 1000 "[f=mpegts" "/base" = None.
Proof.
  assert (Hno : Forall (fun c => c <> "]"%char /\ c <> "|"%char)
                  (list_ascii_of_string "f=mpegts")).
  { repeat constructor; discriminate. }
  split.
  - exact (validateOutputAddress_unclosed_bracket (H := Sample.collaborators)
             "f=mpegts" "/base" Hno _).
  - exact (validateOutputAddress_unclosed_bracket (H := Sample.collaborators)
             "f=mpegts" "/base" Hno 1000%nat).
Defined.

Lemma tee_elements_ext
    (f g : string -> option (string * bool * option error))
    (address : string) (todo validated : list string) (isFile : bool)
    (x : string * bool * option error) :
  (forall a y, a ∈ todo -> f (teeOptions a).2 = Some y ->
               g (teeOptions a).2 = Some y) ->
  tee_elements f address todo validated isFile = Some x ->
  tee_elements g address todo validated isFile = Some x.
Proof.
  revert validated isFile.
  induction todo as [|a rest IH]; intros validated isFile Hfg; simpl; [done|].
  destruct (teeOptions a) as [options a'] eqn:Hopts.
  destruct (f a') as [[[va file] err]|] eqn:Hf; [|discriminate].
  assert (Hg : g a' = Some (va, file, err)).
  { specialize (Hfg a (va, file, err)). rewrite Hopts in Hfg.
    apply Hfg; [by left|exact Hf]. }
  rewrite Hg. destruct err; [done|]. apply IH.
  intros b y Hb. apply Hfg. by right.
Qed.

Lemma validateOutputAddress_fuel_bound `{Collaborators} (basedir : string)
    (k : nat) :
  forall fuel address x,
    (String.length address < k)%nat ->
    validateOutputAddress_fuel fuel address basedir = Some x ->
    validateOutputAddress_fuel k address basedir = Some x.
Proof.
  induction k as [|k IH]; intros fuel address x Hlen Hres; [lia|].
  destruct fuel as [|fuel]; [discriminate|].
  destruct (is_tee address) eqn:Htee.
  - rewrite validateOutputAddress_fuel_tee in * by exact Htee.
    revert Hres. apply tee_elements_ext.
    intros a y Ha Hy.
    destruct (teeOptions_cases a) as [Hsame | Hshort].
    + destruct (Split_cases address "|") as [Hsplit | Hsplit].
      * rewrite Hsplit in Ha. apply list_elem_of_singleton in Ha as ->.
        rewrite Hsame in Hy. cbn [snd] in Hy.
        by rewrite validateOutputAddress_fuel_self in Hy.
      * rewrite Forall_forall in Hsplit. specialize (Hsplit a Ha).
        apply (IH fuel); [|exact Hy]. rewrite Hsame. simpl. lia.
    + apply (IH fuel); [|exact Hy].
      destruct (Split_cases address "|") as [Hsplit | Hsplit].
      * rewrite Hsplit in Ha. apply list_elem_of_singleton in Ha as ->. lia.
      * rewrite Forall_forall in Hsplit. specialize (Hsplit a Ha). lia.
  - rewrite validateOutputAddress_fuel_single in * by exact Htee. exact Hres.
Qed.

(** X7.  The length of the address bounds the depth of a recursion that ends:
    when [validateOutputAddress] returns within some bound on the depth of
    its calls, it returns the same within the bound that
    [validateOutputAddress] is defined with. *)
Theorem validateOutputAddress_fuel_enough `{Collaborators}
    (fuel : nat) (address basedir : string)
    (x : string * bool * option error) :
  validateOutputAddress_fuel fuel address basedir = Some x ->
  validateOutputAddress address basedir = Some x.
Proof.
  intros Hres. unfold validateOutputAddress.
  apply (validateOutputAddress_fuel_bound basedir _ fuel); [lia|exact Hres].
Qed.

Lemma validateOutputAddress_fuel_enough_witness :
  validateOutputAddress "[f=flv]rtmp://h/a|/base/x.ts" "/base"
  = Some ("[f=flv]rtmp://h/a|file:/base/x.ts", true, None).
Proof.
  apply (validateOutputAddress_fuel_enough (H := Sample.collaborators) 2).
  vm_compute. reflexivity.
Defined.

Lemma tee_elements_error
    (f : string -> option (string * bool * option error))
    (address va : string) (todo validated : list string) (isFile file : bool)
    (err : error) :
  tee_elements f address todo validated isFile = Some (va, file, Some err) ->
  va = address /\ file = false.
Proof.
  revert validated isFile.
  induction todo as [|a rest IH]; intros validated isFile; simpl; [done|].
  destruct (teeOptions a) as [options a'].
  destruct (f a') as [[[va' file'] [err'|]]|]; [|apply IH|done].
  intros Hres. injection Hres as <- <- _. done.
Qed.

(** X8.  An output address that [validateOutputAddress] rejects is never
    reported as a file, and a rejected tee address comes back as it was
    given. *)
Theorem validateOutputAddress_error `{Collaborators}
    (fuel : nat) (address basedir va : string) (file : bool) (err : error) :
  validateOutputAddress_fuel fuel address basedir = Some (va, file, Some err) ->
  file = false /\ (is_tee address = true -> va = address).
Proof.
  destruct fuel as [|fuel]; [discriminate|].
  destruct (is_tee address) eqn:Htee.
  - rewrite validateOutputAddress_fuel_tee by exact Htee.
    intros Hres. apply tee_elements_error in Hres as [-> ->]. done.
  - rewrite validateOutputAddress_fuel_single by exact Htee.
    intros Hres. split; [|discriminate].
    unfold validate_single in Hres.
    repeat match type of Hres with
           | context [if ?b then _ else _] => destruct b
           | context [match ?o with Some _ => _ | None => _ end] => destruct o
           end; congruence.
Qed.

Lemma validateOutputAddress_error_witness :
  exists va err,
    validateOutputAddress "rtmp://h/a|/elsewhere/x.ts" "/base"
    = Some (va, false, Some err)
    /\ va = "rtmp://h/a|/elsewhere/x.ts".
Proof.
  destruct (validateOutputAddress "rtmp://h/a|/elsewhere/x.ts" "/base")
    as [[[va file] [err|]]|] eqn:Hres;
    [|vm_compute in Hres; discriminate Hres..].
  destruct (validateOutputAddress_error (H := Sample.collaborators)
              _ _ _ va file err Hres) as [-> Hsame].
  exists va, err. split; [reflexivity|]. apply Hsame. reflexivity.
Defined.
(** ** Playout ports *)

Lemma unsetPlayoutPorts_playout (t : task) (ff : FFmpeg) :
  t_playout (unsetPlayoutPorts t ff).2 = None.
Proof. unfold unsetPlayoutPorts. by destruct (t_playout t) eqn:Hp. Qed.

(** The ports that the loop of [setPlayoutPorts] hands out come off the
    pool and are recorded in the map of the task, one per input ID. *)
Lemma assign_ports_pool (todo acc : list ConfigIO) (ff ff' : FFmpeg)
    (playout playout' : gmap string Z) (inputs : list ConfigIO)
    (free : list Z) :
  ff_ports ff = Some free ->
  NoDup (io_ID <$> todo) ->
  (forall input, input ∈ todo -> playout !! io_ID input = None) ->
  assign_ports ff playout acc todo = (ff', playout', inputs, None) ->
  exists free',
    ff_ports ff' = Some free'
    /\ (map_to_list playout').*2 ++ free' ≡ₚ (map_to_list playout).*2 ++ free.
Proof.
  revert acc ff playout free.
  induction todo as [|input rest IH]; intros acc ff playout free Hfree Hnd Hnew;
    simpl.
  - intros [= <- <- _]. by exists free.
  - rewrite fmap_cons in Hnd. apply NoDup_cons in Hnd as [Hfresh Hnd].
    assert (Hrest : forall i, i ∈ rest -> playout !! io_ID i = None).
    { intros i Hi. apply Hnew. by right. }
    destruct (negb (HasPrefix (io_Address input) "avstream:")
              && negb (HasPrefix (io_Address input) "playout:")).
    + by apply IH.
    + unfold GetPort. rewrite Hfree.
      destruct free as [|port free]; [discriminate|].
      intros Hloop.
      eapply IH in Hloop as (free' & Hfree' & Hperm); [|reflexivity|exact Hnd|].
      * exists free'. split; [exact Hfree'|].
        rewrite Hperm.
        rewrite map_to_list_insert by (apply Hnew; by left).
        rewrite fmap_cons. cbn [snd app].
        apply Permutation_middle.
      * intros i Hi. rewrite lookup_insert_ne; [by apply Hrest|].
        intros Heq. apply Hfresh. rewrite Heq.
        apply list_elem_of_fmap. by exists i.
Qed.

(** X9.  Releasing the playout ports after [setPlayoutPorts] has assigned them
    leaves the pool of the engine factory with the ports it has when the
    ports of the task are released without assigning any: no port is lost
    and none is there twice, as long as no two inputs share an ID. *)
Theorem playout_ports_round_trip (t t' : task) (ff ff' : FFmpeg) (free : list Z) :
  ff_ports ff = Some free ->
  NoDup (io_ID <$> Input (t_config t)) ->
  setPlayoutPorts t ff = (ff', t', None) ->
  exists free1 free2,
    ff_ports (unsetPlayoutPorts t ff).1 = Some free1
    /\ ff_ports (unsetPlayoutPorts t' ff').1 = Some free2
    /\ free2 ≡ₚ free1.
Proof.
  intros Hfree Hnd. unfold setPlayoutPorts.
  destruct (unsetPlayoutPorts_pool t ff free Hfree) as (free1 & Hfree1 & _).
  pose proof (unsetPlayoutPorts_task t ff) as (_ & _ & _ & Hcfg & _).
  destruct (unsetPlayoutPorts t ff) as [ff1 t1]. cbn [fst snd] in *.
  destruct (assign_ports ff1 ∅ [] (Input (t_config t1)))
    as [[[ff2 playout] inputs] err] eqn:Hloop.
  intros [= <- <- ->].
  eapply assign_ports_pool in Hloop as (free2 & Hfree2 & Hperm);
    [|exact Hfree1|by rewrite Hcfg|intros; apply lookup_empty].
  rewrite map_to_list_empty in Hperm. cbn [fmap list_fmap app] in Hperm.
  exists free1, (List.rev (map_to_list playout).*2 ++ free2).
  split; [exact Hfree1|]. split.
  - unfold unsetPlayoutPorts. cbn [t_playout task_set_playout fst].
    by apply PutPort_loop_pool.
  - rewrite <- Hperm. apply Permutation_app_tail.
    symmetry. apply Permutation_rev.
Qed.

Lemma strip_playout_port_prefix (before after : list string) :
  "-playout_httpport" ∉ before ->
  strip_playout_port (before ++ "-playout_httpport" :: after) = before.
Proof.
  induction before as [|o before IH]; intros Hno; simpl; [reflexivity|].
  apply not_elem_of_cons in Hno as [Ho Hno].
  apply not_eq_sym, String.eqb_neq in Ho. rewrite Ho, (IH Hno). reflexivity.
Qed.

(** X10.  [setPlayoutPorts] on a playout input that already carries the option
    ["-playout_httpport"]: the options before it are kept, everything
    after it is dropped (the old port and every later option), and the
    option is put at the end with the port taken from the pool. *)
Theorem setPlayoutPorts_drops_later_options (t : task) (ff : FFmpeg)
    (input : ConfigIO) (before after : list string) (port : Z) (free : list Z) :
  t_playout t = None ->
  Input (t_config t) = [input] ->
  HasPrefix (io_Address input) "playout:" = true ->
  io_Options input = before ++ "-playout_httpport" :: after ->
  "-playout_httpport" ∉ before ->
  ff_ports ff = Some (port :: free) ->
  setPlayoutPorts t ff
  = (mkFFmpeg (ff_Version ff) (Some free),
     task_set_playout (Some {[io_ID input := port]})
       (task_set_config
          (Config_set_Input
             [IO_set_Options (before ++ ["-playout_httpport"; Itoa_int port]) input]
             (t_config t)) t),
     None).
Proof.
  intros Hnone Hin Hplay Hopts Hno Hfree.
  unfold setPlayoutPorts, unsetPlayoutPorts. rewrite Hnone, Hin.
  cbn [assign_ports]. rewrite Hplay, andb_false_r.
  unfold GetPort. rewrite Hfree, Hopts, strip_playout_port_prefix by exact Hno.
  cbn [assign_ports app]. rewrite insert_empty. reflexivity.
Qed.

Lemma playout_ports_round_trip_witness :
  exists ff' t' free2,
    setPlayoutPorts
      (Sample.task_of_inputs
         [Sample.playout_input "i"; mkIO "j" "avstream:cam" [] [];
          mkIO "k" "rtmp://x/z" [] []])
      Sample.engine_factory
    = (ff', t', None)
    /\ ff_ports ff' = Some [8002%Z]
    /\ ff_ports (unsetPlayoutPorts t' ff').1 = Some free2
    /\ free2 ≡ₚ [8000; 8001; 8002]%Z.
Proof.
  set (t := Sample.task_of_inputs
              [Sample.playout_input "i"; mkIO "j" "avstream:cam" [] [];
               mkIO "k" "rtmp://x/z" [] []]).
  assert (Hnd : NoDup (io_ID <$> Input (t_config t))).
  { vm_compute. repeat constructor; intros Hin;
      repeat (apply elem_of_cons in Hin as [Hin|Hin]; [discriminate Hin|]);
      by apply elem_of_nil in Hin. }
  destruct (setPlayoutPorts t Sample.engine_factory) as [[ff' t'] err] eqn:Hs.
  assert (Herr : err = None) by (vm_compute in Hs; by injection Hs as _ _ <-).
  subst err.
  destruct (playout_ports_round_trip t t' Sample.engine_factory ff'
              [8000; 8001; 8002]%Z eq_refl Hnd Hs)
    as (free1 & free2 & Hfree1 & Hfree2 & Hperm).
  vm_compute in Hfree1. injection Hfree1 as <-.
  exists ff', t', free2. split; [reflexivity|].
  split; [|split; [exact Hfree2|exact Hperm]].
  vm_compute in Hs. by injection Hs as <- _.
Defined.

Lemma setPlayoutPorts_drops_later_options_witness :
  (io_Options <$>
     Input (t_config
              (setPlayoutPorts (Sample.task_of_inputs [Sample.playout_input "i"])
                 Sample.engine_factory).1.2))
  = [["-re"; "-playout_httpport"; "8000"]].
Proof.
  rewrite (setPlayoutPorts_drops_later_options
             (Sample.task_of_inputs [Sample.playout_input "i"])
             Sample.engine_factory (Sample.playout_input "i")
             ["-re"] ["9000"; "-loglevel"] 8000 [8001; 8002]%Z);
    try reflexivity.
  intros Hin. apply list_elem_of_singleton in Hin. discriminate Hin.
Defined.
(** ** Loading the catalog *)

Lemma insert_task_identity (m : gmap string task) (id : string) (t t' : task) :
  m !! id = Some t -> task_identity t' = task_identity t ->
  forall i, task_identity <$> <[id := t']> m !! i = task_identity <$> m !! i.
Proof.
  intros Ht Hid i. destruct (decide (id = i)) as [<-|Hne].
  - rewrite lookup_insert_eq, Ht. simpl. by rewrite Hid.
  - by rewrite lookup_insert_ne.
Qed.

Lemma insert_task_wf (m : gmap string task) (id : string) (t' : task) :
  task_wf t' ->
  (forall i t, m !! i = Some t -> task_wf t) ->
  forall i t, <[id := t']> m !! i = Some t -> task_wf t.
Proof.
  intros Hwf Hm i t. destruct (decide (id = i)) as [<-|Hne].
  - rewrite lookup_insert_eq. by intros [= <-].
  - rewrite lookup_insert_ne by done. apply Hm.
Qed.

(** One round of the last loop of [load] leaves the id, the reference and
    the stored process of every task alone, and a valid task has an engine
    handle after it if that was so before. *)
Lemma load_step_keeps `{Collaborators} (bases : list string) (id : string)
    (m m' : gmap string task) (ff ff' : FFmpeg) :
  load_step (Some (Ok (m, ff))) bases id = Some (Ok (m', ff')) ->
  (forall i, task_identity <$> m' !! i = task_identity <$> m !! i)
  /\ ((forall i t, m !! i = Some t -> task_wf t) ->
      forall i t, m' !! i = Some t -> task_wf t).
Proof.
  unfold load_step. cbn [mbind option_bind].
  destruct (m !! id) as [t|] eqn:Ht; [|by intros [= <- <-]].
  destruct (resolveAddresses m (t_config t)) as [cfg err].
  assert (Hsame : forall t', task_identity t' = task_identity t ->
            (t_valid t' = true -> is_Some (t_ffmpeg t') ->
             t_valid t = true -> is_Some (t_ffmpeg t)) -> True) by done.
  assert (Hput : forall t',
            task_identity t' = task_identity t ->
            (task_wf t -> task_wf t') ->
            (forall i, task_identity <$> <[id := t']> m !! i
                       = task_identity <$> m !! i)
            /\ ((forall i t, m !! i = Some t -> task_wf t) ->
                forall i t, <[id := t']> m !! i = Some t -> task_wf t)).
  { intros t' Hid Hwf. split; [by apply (insert_task_identity m id t)|].
    intros Hm. apply insert_task_wf; [|exact Hm]. apply Hwf, (Hm id), Ht. }
  clear Hsame.
  destruct err as [e|].
  { intros [= <- <-]. by apply Hput. }
  destruct (validateConfig bases (t_config (task_set_config cfg t)))
    as [[usesDisk|e]|]; cbn [mbind option_bind]; [| |discriminate].
  - destruct (setPlayoutPorts (task_set_usesDisk usesDisk (task_set_config cfg t)) ff)
      as [[ff1 t1] err] eqn:Hports.
    apply setPlayoutPorts_task in Hports
      as (Hvalid & Hid & Hproc & Heng & Href & _).
    cbn [task_set_usesDisk task_set_config t_valid t_id t_process t_ffmpeg
           t_reference] in *.
    destruct err as [e|].
    + intros [= <- <-]. apply Hput.
      * unfold task_identity. by rewrite Hid, Hproc, Href.
      * unfold task_wf. by rewrite Hvalid, Heng.
    + destruct (ffmpeg_New _) as [eng|e]; [|discriminate].
      intros [= <- <-]. apply Hput.
      * unfold task_identity. simpl. by rewrite Hid, Hproc, Href.
      * intros _ _. by eexists.
  - intros [= <- <-]. by apply Hput.
Qed.

Lemma load_loop_stops `{Collaborators} (bases ids : list string)
    (acc : option (result (gmap string task * FFmpeg))) :
  (forall x, acc <> Some (Ok x)) ->
  forall x, foldl (fun acc id => load_step acc bases id) acc ids <> Some (Ok x).
Proof.
  revert acc. induction ids as [|id ids IH]; intros acc Hacc; [exact Hacc|].
  cbn [foldl]. apply IH. intros x.
  destruct acc as [[y|e]|]; [by destruct (Hacc y)|discriminate|discriminate].
Qed.

Lemma load_loop_keeps `{Collaborators} (bases ids : list string)
    (m m' : gmap string task) (ff ff' : FFmpeg) :
  foldl (fun acc id => load_step acc bases id) (Some (Ok (m, ff))) ids
  = Some (Ok (m', ff')) ->
  (forall i, task_identity <$> m' !! i = task_identity <$> m !! i)
  /\ ((forall i t, m !! i = Some t -> task_wf t) ->
      forall i t, m' !! i = Some t -> task_wf t).
Proof.
  revert m ff. induction ids as [|id ids IH]; intros m ff; cbn [foldl].
  - by intros [= <- <-].
  - destruct (load_step (Some (Ok (m, ff))) bases id) as [[[m1 ff1]|e]|] eqn:Hstep.
    + intros Hloop. apply IH in Hloop as [Hid Hwf].
      apply load_step_keeps in Hstep as [Hid1 Hwf1].
      split; [intros i; by rewrite Hid, Hid1|]. intros Hm. by apply Hwf, Hwf1.
    + intros Hloop. by apply load_loop_stops in Hloop.
    + intros Hloop. by apply load_loop_stops in Hloop.
Qed.

Lemma load_keeps `{Collaborators} (ids : list string)
    (data : gmap string Process) (r r' : restream) :
  load ids data r = Some (r', None) ->
  (forall id, is_Some (tasks r' !! id) <-> is_Some (data !! id))
  /\ (forall id t,
        tasks r' !! id = Some t ->
        t_id t = id
        /\ exists p, data !! id = Some p
             /\ t_reference t = p_Reference p
             /\ (FFVersion (p_Config p) <> "" -> t_process t = p))
  /\ registry_wf r'.
Proof.
  unfold load.
  set (m := map_imap _ data).
  destruct (foldl _ _ ids) as [[[m' ff']|e]|] eqn:Hloop;
    cbn [mbind option_bind]; [|discriminate..].
  intros [= <-]. cbn [tasks set_tasks].
  apply load_loop_keeps in Hloop as [Hid Hwf].
  assert (Hm : forall id, m !! id
                 = load_task (ff_Version (ffmpeg r)) id <$> data !! id).
  { intros id. unfold m. rewrite map_lookup_imap.
    by destruct (data !! id). }
  split; [|split].
  - intros id. specialize (Hid id). rewrite Hm in Hid.
    destruct (m' !! id), (data !! id); simpl in Hid;
      split; intros [? ?]; by simplify_eq.
  - intros id t Ht. specialize (Hid id). rewrite Ht, Hm in Hid.
    destruct (data !! id) as [p|]; [|discriminate].
    simpl in Hid. injection Hid as Hi Href Hproc.
    split; [exact Hi|]. exists p. split; [reflexivity|].
    rewrite Href, Hproc.
    destruct (String.length (FFVersion (p_Config p)) =? 0)%nat eqn:Hlen.
    + split; [reflexivity|]. intros Hver.
      apply Nat.eqb_eq in Hlen. by destruct (FFVersion (p_Config p)).
    + done.
  - intros id t Ht. cbn [tasks set_tasks] in Ht. apply (Hwf) in Ht; [exact Ht|].
    intros i t0. rewrite Hm. destruct (data !! i); [|discriminate].
    intros [= <-] Hvalid. discriminate Hvalid.
Qed.

(** X11.  When [load] returns without error, the registry has exactly the ids of
    the catalog; each task carries the id it is filed under and the
    reference of the stored process, and the stored process itself unless
    it had no version constraint; and every valid task has an engine
    handle, whatever the order in which the tasks were visited. *)
Theorem load_registry `{Collaborators} (ids : list string)
    (data : gmap string Process) (r r' : restream) :
  load ids data r = Some (r', None) ->
  (forall id, is_Some (tasks r' !! id) <-> is_Some (data !! id))
  /\ (forall id t,
        tasks r' !! id = Some t ->
        t_id t = id
        /\ exists p, data !! id = Some p
             /\ t_reference t = p_Reference p
             /\ (FFVersion (p_Config p) <> "" -> t_process t = p))
  /\ registry_wf r'.
Proof. apply load_keeps. Qed.

Lemma load_registry_witness :
  exists r',
    load ["a"] Sample.catalog (Sample.empty 2) = Some (r', None)
    /\ (t_id <$> tasks r' !! "a") = Some "a"
    /\ registry_wf r'.
Proof.
  destruct (load ["a"] Sample.catalog (Sample.empty 2)) as [[r' [e|]]|] eqn:Hload;
    [vm_compute in Hload; discriminate Hload| |vm_compute in Hload; discriminate Hload].
  destruct (load_registry (H := Sample.collaborators) _ _ _ _ Hload)
    as (Hdom & Htask & Hwf).
  exists r'. split; [reflexivity|]. split; [|exact Hwf].
  assert (Hin : is_Some (Sample.catalog !! "a")) by (vm_compute; by eexists).
  apply Hdom in Hin as [t Ht]. rewrite Ht.
  change (Some (t_id t) = Some "a"). f_equal. exact (proj1 (Htask "a" t Ht)).
Defined.

(** X12.  A supervisor that [New] returns has no running process, stores what
    its registry holds, has every valid task with an engine handle, and is
    not stopped by [Stop] before its first [Start]. *)
Theorem New_supervisor `{Collaborators} (ids ids' : list string)
    (filesystems : list Filesystem) (ff : FFmpeg) (maxProcesses : Z)
    (data : gmap string Process) (r : restream) :
  New ids filesystems ff maxProcesses data = Some (Ok r) ->
  nProc r = 0%Z
  /\ store r = t_process <$> tasks r
  /\ (forall id, is_Some (tasks r !! id) <-> is_Some (data !! id))
  /\ registry_wf r
  /\ Stop ids' r = r.
Proof.
  unfold New.
  destruct (load ids data _) as [[r1 [e|]]|] eqn:Hload;
    cbn [mbind option_bind]; [discriminate| |discriminate].
  intros [= <-].
  pose proof (load_keeps _ _ _ _ Hload) as (Hdom & _ & Hwf).
  unfold load in Hload.
  destruct (foldl _ _ ids) as [[[m' ff']|e]|];
    cbn [mbind option_bind] in Hload; [|discriminate..].
  injection Hload as <-.
  split; [reflexivity|]. split; [reflexivity|].
  split; [exact Hdom|]. split; [exact Hwf|]. reflexivity.
Qed.

Lemma New_supervisor_witness :
  exists r,
    New ["a"] [Sample.disk "disk" "/base" 10 100] Sample.engine_factory 2
      Sample.catalog = Some (Ok r)
    /\ nProc r = 0%Z
    /\ Stop ["a"] r = r.
Proof.
  destruct (New ["a"] [Sample.disk "disk" "/base" 10 100] Sample.engine_factory 2
              Sample.catalog) as [[r|e]|] eqn:Hnew;
    [|vm_compute in Hnew; discriminate Hnew..].
  destruct (New_supervisor (H := Sample.collaborators) ["a"] ["a"] _ _ _ _ _ Hnew)
    as (Hn & _ & _ & _ & Hstop).
  exists r. split; [reflexivity|]. split; [exact Hn|exact Hstop].
Defined.
(** ** The registry under every operation *)

Lemma tasks_ok_insert (m : gmap string task) (id : string) (t : task) :
  tasks_ok m -> t_id t = id -> task_wf t -> tasks_ok (<[id := t]> m).
Proof.
  intros Hm Hid Hwf i t'. destruct (decide (id = i)) as [<-|Hne].
  - rewrite lookup_insert_eq. by intros [= <-].
  - rewrite lookup_insert_ne by done. apply Hm.
Qed.

Lemma tasks_ok_delete (m : gmap string task) (id : string) :
  tasks_ok m -> tasks_ok (delete id m).
Proof.
  intros Hm i t Ht. apply lookup_delete_Some in Ht as [_ Ht]. by apply Hm.
Qed.

Lemma tasks_ok_alter (f : task -> task) (m : gmap string task) (id : string) :
  (forall t, t_id (f t) = t_id t /\ (task_wf t -> task_wf (f t))) ->
  tasks_ok m -> tasks_ok (alter f id m).
Proof.
  intros Hf Hm i t. rewrite lookup_alter. case_decide as Hi.
  - subst i. destruct (m !! id) as [t0|] eqn:Ht0; [|discriminate].
    intros [= <-]. destruct (Hm _ _ Ht0) as [Hid Hwf].
    destruct (Hf t0) as [Hid' Hwf']. split; [congruence|auto].
  - apply Hm.
Qed.

Lemma engine_task_wf (t : task) : is_Some (t_ffmpeg t) -> task_wf t.
Proof. by intros He _. Qed.

Lemma stopProcess_ok (id : string) (r : restream) :
  registry_ok r -> registry_ok (stopProcess id r).1.
Proof.
  unfold registry_ok. rewrite stopProcess_tasks. apply tasks_ok_alter.
  intros t. unfold stop_task. destruct (t_ffmpeg t) as [eng|]; [|done].
  destruct (_ && _); [done|]. split; [done|].
  intros _. by apply engine_task_wf.
Qed.

Lemma startProcess_ok (id : string) (r r' : restream) (err : option error) :
  startProcess id r = Some (r', err) -> registry_ok r -> registry_ok r'.
Proof.
  unfold startProcess. intros Hs Hok.
  destruct (tasks r !! id) as [t|] eqn:Ht; [|by simplify_eq].
  destruct (t_valid t); simpl in Hs; [|by simplify_eq].
  destruct (t_ffmpeg t); [|done].
  destruct (_ && _); [by simplify_eq|].
  destruct (_ && _); simplify_eq; [done|].
  apply tasks_ok_insert; [exact Hok|exact (proj1 (Hok _ _ Ht))|].
  by apply engine_task_wf.
Qed.

Lemma restartProcess_ok (id : string) (r r' : restream) (err : option error) :
  restartProcess id r = Some (r', err) -> registry_ok r -> registry_ok r'.
Proof.
  unfold restartProcess. intros Hs Hok.
  destruct (tasks r !! id) as [t|] eqn:Ht; [|by simplify_eq].
  destruct (negb _); [by simplify_eq|].
  destruct (String.eqb _ _); [by simplify_eq|].
  destruct (t_ffmpeg t); simplify_eq.
  apply tasks_ok_insert; [exact Hok|exact (proj1 (Hok _ _ Ht))|].
  by apply engine_task_wf.
Qed.

Lemma deleteProcess_ok (id : string) (r : restream) :
  registry_ok r -> registry_ok (deleteProcess id r).1.
Proof.
  unfold deleteProcess. intros Hok.
  destruct (tasks r !! id) as [t|]; [|done].
  destruct (negb _); [done|]. by apply tasks_ok_delete.
Qed.

Lemma save_on_success_ok (x : restream * option error) :
  registry_ok x.1 -> registry_ok (save_on_success x).1.
Proof. by destruct x as [r [e|]]. Qed.

Lemma observe_loop_ok (ids : list string) (r : restream) :
  registry_ok r -> registry_ok (foldl observe_step r ids).
Proof.
  revert r. induction ids as [|i ids IH]; intros r Hok; [exact Hok|].
  cbn [foldl]. apply IH. unfold observe_step.
  destruct (tasks r !! i) as [t|]; [|exact Hok].
  destruct (negb (t_valid t)); [exact Hok|].
  destruct (negb (t_usesDisk t)); [exact Hok|].
  destruct (negb _); [exact Hok|]. by apply stopProcess_ok.
Qed.

Lemma Stop_loop_ok (ids : list string) (r : restream) :
  registry_ok r -> registry_ok (foldl Stop_step r ids).
Proof.
  revert r. induction ids as [|i ids IH]; intros r Hok; [exact Hok|].
  cbn [foldl]. apply IH. unfold Stop_step.
  destruct (tasks r !! i) as [t|] eqn:Ht; [|exact Hok].
  destruct (t_ffmpeg t); [|exact Hok].
  apply tasks_ok_insert; [exact Hok|exact (proj1 (Hok _ _ Ht))|].
  by apply engine_task_wf.
Qed.

Lemma Start_loop_ok (ids : list string) (r r' : restream) :
  foldl Start_step (Some r) ids = Some r' -> registry_ok r -> registry_ok r'.
Proof.
  revert r. induction ids as [|i ids IH]; intros r; cbn [foldl].
  - by intros [= ->].
  - unfold Start_step at 2. cbn [mbind option_bind].
    destruct (tasks r !! i) as [t|]; [|apply IH].
    destruct (String.eqb _ _); cbn [mbind option_bind].
    2: { intros Hl Hok. apply (IH _ Hl). exact Hok. }
    destruct (startProcess i r) as [[r1 err]|] eqn:Hs;
      cbn [fmap option_fmap option_map mbind option_bind fst].
    + intros Hl Hok. apply (IH _ Hl).
      change (registry_ok r1). by eapply startProcess_ok.
    + assert (Hnone : forall l, foldl Start_step None l = None)
        by (induction l; simpl; auto).
      by rewrite Hnone.
Qed.

Lemma AddProcess_insert_ok (t : task) (r r' : restream) (err : option error) :
  AddProcess_insert t r = Some (r', err) ->
  task_wf t -> registry_ok r -> registry_ok r'.
Proof.
  unfold AddProcess_insert. intros Ha Hwf Hok.
  destruct (tasks r !! t_id t); [by simplify_eq|].
  assert (Hin : registry_ok (AddProcess_inserted t r))
    by by apply tasks_ok_insert.
  destruct (String.eqb _ _); [|by simplify_eq].
  destruct (startProcess _ _) as [[r1 [e|]]|] eqn:Hs; simpl in Ha; simplify_eq;
    apply startProcess_ok in Hs; try exact Hin; [|exact Hs].
  by apply tasks_ok_delete.
Qed.

Lemma AddProcess_ok `{Collaborators} (now : Z) (config config' : Config)
    (r r' : restream) (err : option error) :
  AddProcess now config r = Some (config', r', err) ->
  registry_ok r -> registry_ok r'.
Proof.
  unfold AddProcess. intros Ha Hok.
  destruct (createTask now config r) as [[[c1 r1] [t|e]]|] eqn:Hc;
    simpl in Ha; [| |done].
  - destruct (AddProcess_insert t r1) as [[r2 e2]|] eqn:Hi; simpl in Ha; [|done].
    simplify_eq.
    apply createTask_Ok in Hc as ([ff ->] & _ & _ & _ & He & _).
    eapply AddProcess_insert_ok; [exact Hi|by apply engine_task_wf|exact Hok].
  - simplify_eq. by apply createTask_frame in Hc as [ff ->].
Qed.

Lemma UpdateProcess_ok `{Collaborators} (now now' : Z) (id : string)
    (config config' : Config) (r r' : restream) (err : option error) :
  UpdateProcess now now' id config r = Some (config', r', err) ->
  registry_ok r -> registry_ok r'.
Proof.
  unfold UpdateProcess. intros Hu Hok.
  destruct (createTask now config r) as [[[c1 r1] [t|e]]|] eqn:Hc;
    simpl in Hu; [| |done].
  2: { simplify_eq. by apply createTask_frame in Hc as [ff ->]. }
  apply createTask_Ok in Hc as ([ff ->] & _ & _ & _ & He & _).
  assert (Hok1 : registry_ok (set_ffmpeg ff r)) by exact Hok.
  revert Hu Hok1. generalize (set_ffmpeg ff r). clear Hok. intros r1 Hu Hok.
  destruct (tasks r1 !! id) as [old|]; simpl in Hu; [|by simplify_eq].
  destruct (t_parser old) as [old_parser|]; simpl in Hu; [|done].
  destruct (negb _ && _); [by simplify_eq|].
  pose proof (stopProcess_ok id r1 Hok) as Hstop.
  destruct (stopProcess id r1) as [r2 [e|]]; simpl in Hstop; [by simplify_eq|].
  pose proof (deleteProcess_ok id r2 Hstop) as Hdel.
  destruct (deleteProcess id r2) as [r3 [e|]]; simpl in Hdel; [by simplify_eq|].
  match type of Hu with
  | context [set_tasks (<[_ := ?t']> _) _] =>
      assert (Hins : registry_ok (set_tasks (<[t_id t' := t']> (tasks r3)) r3))
        by (apply tasks_ok_insert; [exact Hdel|reflexivity|by apply engine_task_wf])
  end.
  cbn [t_id task_set_process task_set_parser] in *.
  destruct (String.eqb _ _); simpl in Hu; [|by simplify_eq].
  destruct (startProcess _ _) as [[r4 e]|] eqn:Hs; simpl in Hu; [|done].
  simplify_eq. apply startProcess_ok in Hs; [exact Hs|exact Hins].
Qed.

Lemma reloadProcess_ok `{Collaborators} (id : string) (r r' : restream)
    (err : option error) :
  reloadProcess id r = Some (r', err) -> registry_ok r -> registry_ok r'.
Proof.
  unfold reloadProcess. intros Hr Hok.
  destruct (tasks r !! id) as [t|] eqn:Ht; [|by simplify_eq].
  destruct (Hok _ _ Ht) as [Hid _].
  assert (Hput : forall t' r0,
            registry_ok r0 -> t_id t' = id -> task_wf t' ->
            registry_ok (set_tasks (<[id := t']> (tasks r0)) r0)).
  { intros t' r0 Hok0 Hid' Hwf'. by apply tasks_ok_insert. }
  assert (Hinvalid : forall t', t_valid t' = false -> task_wf t').
  { intros t' Hv Hv'. congruence. }
  destruct (resolveAddresses _ _) as [cfg [e|]].
  { simplify_eq. apply Hput; [exact Hok|done|by apply Hinvalid]. }
  destruct (validateConfig _ _) as [[usesDisk|e]|]; simpl in Hr; [| |done].
  2: { simplify_eq. apply Hput; [exact Hok|done|by apply Hinvalid]. }
  destruct (setPlayoutPorts _ _) as [[ff t1] e] eqn:Hports.
  apply setPlayoutPorts_task in Hports as (Hvalid & Hid1 & _).
  cbn [task_set_usesDisk task_set_config task_set_valid t_valid t_id] in Hvalid, Hid1.
  destruct e as [e|].
  { simplify_eq.
    apply (Hput _ (set_ffmpeg ff r)); [exact Hok|done|by apply Hinvalid]. }
  set (r1 := set_tasks _ (set_ffmpeg ff r)) in Hr.
  assert (Hok1 : registry_ok r1).
  { apply (Hput _ (set_ffmpeg ff r));
      [exact Hok|by rewrite <- Hid|by apply Hinvalid]. }
  clearbody r1. simpl in Hr.
  destruct (String.eqb (Order (t_process _)) "start").
  - pose proof (stopProcess_ok id r1 Hok1) as Hstop.
    destruct (tasks (stopProcess id r1).1 !! id) as [t3|] eqn:Ht3;
      simpl in Hr; [|done].
    destruct (Hstop _ _ Ht3) as [Hid3 _].
    destruct (ffmpeg_New _) as [eng|e].
    2: { simplify_eq. apply Hput; [exact Hstop|done|].
         intros Hv. apply (proj2 (Hstop _ _ Ht3)). exact Hv. }
    destruct (startProcess _ _) as [[r4 e]|] eqn:Hs; simpl in Hr; [|done].
    simplify_eq. apply startProcess_ok in Hs; [exact Hs|].
    apply Hput; [exact Hstop|done|by apply engine_task_wf].
  - destruct (tasks r1 !! id) as [t3|] eqn:Ht3; simpl in Hr; [|done].
    destruct (Hok1 _ _ Ht3) as [Hid3 Hwf3].
    destruct (ffmpeg_New _) as [eng|e]; simplify_eq.
    + apply Hput; [exact Hok1|done|by apply engine_task_wf].
    + apply Hput; [exact Hok1|done|exact Hwf3].
Qed.

Lemma operation_ok `{Collaborators} (r r' : restream) :
  operation r r' -> registry_ok r -> registry_ok r'.
Proof.
  intros Hop Hok; destruct Hop as
    [id r r' err Ho|id r r' err Ho|id r r' err Ho|id r r' err Ho|id r r' err Ho
    |now config config' r r' err Ho|now now' id config config' r r' err Ho
    |ids r r' Hv Ho|ids r Hv|ids size limit r Hv].
  - unfold StartProcess in Ho.
    destruct (startProcess id r) as [[r1 [e|]]|] eqn:Hs; simpl in Ho;
      simplify_eq; apply startProcess_ok in Hs; try exact Hok; exact Hs.
  - unfold StopProcess in Ho.
    pose proof (save_on_success_ok _ (stopProcess_ok id r Hok)) as Hs.
    by rewrite Ho in Hs.
  - by eapply restartProcess_ok.
  - unfold ReloadProcess in Ho.
    destruct (reloadProcess id r) as [[r1 [e|]]|] eqn:Hs; simpl in Ho;
      simplify_eq; apply reloadProcess_ok in Hs; try exact Hok; exact Hs.
  - unfold DeleteProcess in Ho.
    pose proof (save_on_success_ok _ (deleteProcess_ok id r Hok)) as Hs.
    by rewrite Ho in Hs.
  - by eapply AddProcess_ok.
  - by eapply UpdateProcess_ok.
  - unfold Start in Ho. destruct (startOnce r); [by simplify_eq|].
    destruct (foldl Start_step (Some r) ids) as [r1|] eqn:Hl; simpl in Ho; [|done].
    simplify_eq. by apply Start_loop_ok in Hl.
  - unfold Stop. destruct (stopOnce r); [exact Hok|].
    exact (Stop_loop_ok ids r Hok).
  - unfold observe_tick. destruct (_ && _); [|exact Hok].
    by apply observe_loop_ok.
Qed.

(** X13.  In every state that the supervisor reaches from the one that [New]
    returns, by whatever operations, every task is filed in the registry
    under its own id and every valid task has an engine handle. *)
Theorem registry_ok_always `{Collaborators} (ids : list string)
    (filesystems : list Filesystem) (ff : FFmpeg) (maxProcesses : Z)
    (data : gmap string Process) (r r' : restream) :
  New ids filesystems ff maxProcesses data = Some (Ok r) ->
  rtc operation r r' ->
  registry_ok r'.
Proof.
  intros Hnew Hrun.
  assert (Hok : registry_ok r).
  { unfold New in Hnew.
    destruct (load ids data _) as [[r1 [e|]]|] eqn:Hload;
      cbn [mbind option_bind] in Hnew; [discriminate| |discriminate].
    injection Hnew as <-.
    apply load_keeps in Hload as (_ & Hid & Hwf).
    intros id t Ht. split; [exact (proj1 (Hid id t Ht))|exact (Hwf id t Ht)]. }
  clear Hnew. induction Hrun as [r|r r1 r' Hop _ IH]; [exact Hok|].
  apply IH. by eapply operation_ok.
Qed.

Lemma registry_ok_always_witness :
  exists r r1,
    New ["a"] [Sample.disk "disk" "/base" 10 100] Sample.engine_factory 2
      Sample.catalog = Some (Ok r)
    /\ Start ["a"] r = Some r1
    /\ registry_ok (StopProcess "a" r1).1.
Proof.
  destruct (New ["a"] [Sample.disk "disk" "/base" 10 100] Sample.engine_factory 2
              Sample.catalog) as [[r|e]|] eqn:Hnew;
    [|vm_compute in Hnew; discriminate Hnew..].
  destruct (Start ["a"] r) as [r1|] eqn:Hstart.
  2: { vm_compute in Hnew. injection Hnew as <-.
       vm_compute in Hstart. discriminate Hstart. }
  exists r, r1. split; [reflexivity|]. split; [exact Hstart|].
  apply (registry_ok_always (H := Sample.collaborators) _ _ _ _ _ _ _ Hnew).
  apply (rtc_l _ _ r1).
  - apply (op_Start ["a"] r r1); [|exact Hstart].
    vm_compute in Hnew. injection Hnew as <-. vm_compute. reflexivity.
  - apply rtc_once.
    apply (op_StopProcess "a" r1 (StopProcess "a" r1).1 (StopProcess "a" r1).2).
    apply surjective_pairing.
Defined.
(** ** Updating a process *)

(** X14.  [UpdateProcess] replaces a task that has a parser and an engine handle
    by the task built from the new config: the new task is filed under
    the ID of the new config, the old ID is free when the two differ, the
    order of the old process is carried over whatever [Autostart] says,
    the update time is the second reading of the clock, and the store has
    the registry.  On a task without parser (one that [load] kept although
    its config is invalid) the call does not return. *)
Theorem UpdateProcess_keeps_Order `{Collaborators} (now now' : Z) (id : string)
    (config config' : Config) (r r1 : restream) (t old : task) :
  createTask now config r = Some (config', r1, Ok t) ->
  tasks r !! id = Some old ->
  (t_id t = id \/ tasks r !! t_id t = None) ->
  (t_parser old = None ->
   UpdateProcess now now' id config r = None)
  /\ (is_Some (t_parser old) -> is_Some (t_ffmpeg old) ->
      exists r' t',
        UpdateProcess now now' id config r = Some (config', r', None)
        /\ tasks r' !! t_id t = Some t'
        /\ Order (t_process t') = Order (t_process old)
        /\ UpdatedAt (t_process t') = now'
        /\ (t_id t <> id -> tasks r' !! id = None)
        /\ store r' = t_process <$> tasks r').
Proof.
  intros Hc Hold Hfree.
  pose proof (createTask_Ok _ _ _ _ _ _ Hc)
    as ([ff ->] & _ & _ & Hvalid & [eng Heng] & _).
  unfold UpdateProcess. rewrite Hc. cbn [mbind option_bind tasks set_ffmpeg].
  rewrite Hold. split.
  - intros Hnone. by rewrite Hnone.
  - intros [old_parser Hparser] [old_eng Hold_eng].
    rewrite Hparser. cbn [mbind option_bind].
    cbn [t_id task_set_process task_set_parser].
    assert (Hguard : negb (String.eqb id (t_id t))
                     && bool_decide (is_Some (tasks r !! t_id t)) = false).
    { destruct Hfree as [-> | Hnone].
      - by rewrite String.eqb_refl.
      - rewrite Hnone, bool_decide_eq_false_2; [apply andb_false_r|].
        by intros [? ?]. }
    rewrite Hguard. clear Hguard.
    destruct (stopProcess_Some id (set_ffmpeg ff r) old Hold) as [Herr Htasks].
    destruct (stopProcess id (set_ffmpeg ff r)) as [r2 e] eqn:Hstop.
    cbn [fst snd] in Herr, Htasks. subst e.
    assert (Hstopped : tasks r2 !! id = Some (stop_task old))
      by (rewrite Htasks; apply lookup_insert_eq).
    unfold deleteProcess. rewrite Hstopped.
    rewrite (stop_task_Order old) by by eexists.
    cbn [negb String.eqb Ascii.eqb Bool.eqb andb].
    set (r3 := set_tasks (delete id (tasks (unsetCleanup id _))) _).
    set (t1 := task_set_process _ (task_set_parser _ (task_set_process _ t))).
    assert (Hid1 : t_id t1 = t_id t) by reflexivity.
    assert (Ho1 : Order (t_process t1) = Order (t_process old)) by reflexivity.
    assert (Hu1 : UpdatedAt (t_process t1) = now') by reflexivity.
    assert (Hv1 : t_valid t1 = true) by exact Hvalid.
    assert (He1 : t_ffmpeg t1 = Some eng) by exact Heng.
    assert (Hr3 : tasks r3 = delete id (tasks r2)) by reflexivity.
    clearbody t1 r3.
    set (r4 := setCleanup (t_id t) (t_config t1)
                 (set_tasks (<[t_id t := t1]> (tasks r3)) r3)).
    assert (Hr4 : tasks r4 = <[t_id t := t1]> (delete id (tasks r2)))
      by (unfold r4; cbn [setCleanup tasks set_tasks set_fs_list]; by rewrite Hr3).
    assert (Hgone : forall m : task,
              t_id t <> id -> <[t_id t := m]> (delete id (tasks r2)) !! id = None).
    { intros m Hne. rewrite lookup_insert_ne by done. apply lookup_delete_eq. }
    clearbody r4.
    destruct (String.eqb (Order (t_process t1)) "start") eqn:Horder.
    + cbn [mbind option_bind].
      unfold startProcess. rewrite Hr4, lookup_insert_eq, Hv1, He1.
      cbn [negb]. rewrite Horder. cbn [andb].
      destruct (String.eqb (e_order eng) "start").
      { cbn [fmap option_fmap option_map mbind option_bind fst].
        exists (save r4), t1. split; [reflexivity|].
        cbn [save tasks set_store store]. rewrite Hr4, lookup_insert_eq.
        repeat split; auto; by rewrite <- Hr4. }
      destruct ((0 <? maxProc r4)%Z && (maxProc r4 <=? nProc r4)%Z).
      { cbn [fmap option_fmap option_map mbind option_bind fst].
        exists (save r4), t1. split; [reflexivity|].
        cbn [save tasks set_store store]. rewrite Hr4, lookup_insert_eq.
        repeat split; auto; by rewrite <- Hr4. }
      cbn [fmap option_fmap option_map mbind option_bind fst].
      eexists _, _. split; [reflexivity|].
      cbn [save tasks set_store store set_nProc set_tasks].
      rewrite lookup_insert_eq.
      split; [reflexivity|].
      apply String.eqb_eq in Horder.
      split; [by rewrite <- Ho1, Horder|]. split; [exact Hu1|].
      split; [|reflexivity].
      intros Hne. rewrite lookup_insert_ne by done. by apply Hgone.
    + cbn [mbind option_bind].
      exists (save r4), t1. split; [reflexivity|].
      cbn [save tasks set_store store]. rewrite Hr4, lookup_insert_eq.
      repeat split; auto; by rewrite <- Hr4.
Qed.

Lemma UpdateProcess_keeps_Order_witness :
  exists c' r' t',
    UpdateProcess 1000 2000 "a" (Sample.config "b" "/base/b.ts" false)
      Sample.one_task = Some (c', r', None)
    /\ tasks r' !! "b" = Some t'
    /\ Order (t_process t') = "start"
    /\ tasks r' !! "a" = None.
Proof.
  destruct (createTask 1000 (Sample.config "b" "/base/b.ts" false) Sample.one_task)
    as [[[c1 r1] [t|e]]|] eqn:Hc;
    [|vm_compute in Hc; discriminate Hc..].
  destruct (tasks Sample.one_task !! "a") as [old|] eqn:Hold;
    [|vm_compute in Hold; discriminate Hold].
  pose proof (createTask_Ok _ _ _ _ _ _ Hc) as (_ & _ & Hid & _).
  change (ID (Sample.config "b" "/base/b.ts" false)) with "b" in Hid.
  assert (Hfree : t_id t = "a" \/ tasks Sample.one_task !! t_id t = None).
  { right. rewrite Hid. vm_compute. reflexivity. }
  pose proof Hold as Hold'. vm_compute in Hold'. injection Hold' as Hold'.
  assert (Hparser : is_Some (t_parser old)) by (rewrite <- Hold'; by eexists).
  assert (Hengine : is_Some (t_ffmpeg old)) by (rewrite <- Hold'; by eexists).
  assert (Horder : Order (t_process old) = "start")
    by (rewrite <- Hold'; reflexivity).
  clear Hold'.
  destruct (proj2 (UpdateProcess_keeps_Order (H := Sample.collaborators)
                     1000 2000 "a" _ _ _ _ t old Hc Hold Hfree) Hparser Hengine)
    as (r' & t' & Hu & Ht' & Ho & _ & Hgone & _).
  rewrite Hid in Ht', Hgone.
  exists c1, r', t'. split; [exact Hu|]. split; [exact Ht'|].
  split; [by rewrite Ho|]. apply Hgone. discriminate.
Defined.
(** ** What a validated config looks like *)

Lemma length_eqb_0 (s : string) :
  (String.length s =? 0)%nat = false -> s <> "".
Proof. intros Hlen ->. discriminate Hlen. Qed.

Lemma fresh_ids_NoDup {A : Type} (key : A -> string) (ids : gmap string bool)
    (x : A) (rest : list A) :
  Forall (fun y => <[key x := true]> ids !! key y = None) rest ->
  key x ∉ key <$> rest.
Proof.
  intros Hrest Hin. apply list_elem_of_fmap in Hin as (y & Hkey & Hy).
  rewrite Forall_forall in Hrest. specialize (Hrest y Hy).
  rewrite <- Hkey, lookup_insert_eq in Hrest. discriminate Hrest.
Qed.

Lemma fresh_ids_weaken {A : Type} (key : A -> string) (ids : gmap string bool)
    (i : string) (rest : list A) :
  Forall (fun y => <[i := true]> ids !! key y = None) rest ->
  Forall (fun y => ids !! key y = None) rest.
Proof.
  intros Hall. eapply Forall_impl; [exact Hall|]. intros y Hy. cbv beta in Hy.
  destruct (decide (i = key y)) as [->|Hne].
  - rewrite lookup_insert_eq in Hy. discriminate Hy.
  - by rewrite lookup_insert_ne in Hy.
Qed.

Lemma validate_inputs_None `{Collaborators} (cfgid : string) (bases : list string)
    (ids : gmap string bool) (inputs : list ConfigIO) :
  validate_inputs cfgid bases ids inputs = None ->
  NoDup ((fun io => TrimSpace (io_ID io)) <$> inputs)
  /\ Forall (fun io => ids !! TrimSpace (io_ID io) = None) inputs
  /\ Forall (fun io => TrimSpace (io_ID io) <> ""
                       /\ TrimSpace (io_Address io) <> "") inputs.
Proof.
  revert ids. induction inputs as [|io rest IH]; intros ids; cbn [validate_inputs].
  { intros _. split; [constructor|]. split; constructor. }
  destruct (String.length (TrimSpace (io_ID io)) =? 0)%nat eqn:Hid; [discriminate|].
  destruct (bool_decide _) eqn:Hfound; [discriminate|].
  apply bool_decide_eq_false in Hfound.
  destruct (String.length (TrimSpace (io_Address io)) =? 0)%nat eqn:Haddr;
    [discriminate|].
  intros Hrest.
  assert (Hrest' : validate_inputs cfgid bases
                     (<[TrimSpace (io_ID io) := true]> ids) rest = None).
  { destruct bases as [|base bases].
    - destruct (validateInputAddress _ _) as [a [e|]]; [discriminate|exact Hrest].
    - destruct (validate_input_on_disks _ _) as [[a e] maxFails].
      destruct (maxFails =? _)%nat; [discriminate|exact Hrest]. }
  apply IH in Hrest' as (Hnd & Hfresh & Hne).
  split; [|split].
  - rewrite fmap_cons. apply NoDup_cons. split; [|exact Hnd].
    by apply (fresh_ids_NoDup (fun io => TrimSpace (io_ID io)) ids).
  - constructor.
    + destruct (ids !! TrimSpace (io_ID io)) eqn:Hl; [|reflexivity].
      destruct Hfound. by eexists.
    + by apply (fresh_ids_weaken (fun io => TrimSpace (io_ID io)) ids
                  (TrimSpace (io_ID io))).
  - constructor; [|exact Hne]. split; by apply length_eqb_0.
Qed.

Lemma validate_outputs_Ok `{Collaborators} (cfgid : string) (bases : list string)
    (ids : gmap string bool) (hasFiles usesDisk : bool) (outputs : list ConfigIO) :
  validate_outputs cfgid bases ids hasFiles outputs = Some (Ok usesDisk) ->
  NoDup ((fun io => TrimSpace (io_ID io)) <$> outputs)
  /\ Forall (fun io => ids !! TrimSpace (io_ID io) = None) outputs
  /\ Forall (fun io => TrimSpace (io_ID io) <> ""
                       /\ TrimSpace (io_Address io) <> "") outputs
  /\ (hasFiles = true -> usesDisk = true).
Proof.
  revert ids hasFiles.
  induction outputs as [|io rest IH]; intros ids hasFiles; cbn [validate_outputs].
  { intros [= <-]. split; [constructor|]. split; [constructor|].
    split; [constructor|done]. }
  destruct (String.length (TrimSpace (io_ID io)) =? 0)%nat eqn:Hid; [discriminate|].
  destruct (bool_decide _) eqn:Hfound; [discriminate|].
  apply bool_decide_eq_false in Hfound.
  destruct (String.length (TrimSpace (io_Address io)) =? 0)%nat eqn:Haddr;
    [discriminate|].
  intros Hrest.
  assert (Hrest' : exists hasFiles',
            validate_outputs cfgid bases
              (<[TrimSpace (io_ID io) := true]> ids) hasFiles' rest
            = Some (Ok usesDisk)
            /\ (hasFiles = true -> hasFiles' = true)).
  { destruct bases as [|base bases].
    - destruct (validateOutputAddress _ _) as [[[a isFile] e]|];
        cbn [mbind option_bind] in Hrest; [|discriminate].
      destruct e as [e|]; [discriminate|].
      exists (hasFiles || isFile). split; [exact Hrest|]. by intros ->.
    - destruct (validate_output_on_disks _ _ _ _ _) as [[[[a e] maxFails] files]|]
        eqn:Hdisks; cbn [mbind option_bind] in Hrest; [|discriminate].
      destruct (maxFails =? _)%nat; [discriminate|].
      exists files. split; [exact Hrest|].
      clear Hrest. revert Hdisks.
      generalize (TrimSpace (io_Address io)) (@None error) 0%nat hasFiles.
      generalize (base :: bases). clear. intros l.
      induction l as [|b l IHl]; intros address err n hasFiles;
        cbn [validate_output_on_disks].
      + by intros [= _ _ _ <-].
      + destruct (validateOutputAddress _ _) as [[[a' isFile] e']|];
          cbn [mbind option_bind]; [|discriminate].
        intros Hl Hf. apply (IHl _ _ _ _ Hl). by rewrite Hf. }
  destruct Hrest' as (hasFiles' & Hrest' & Hfiles).
  apply IH in Hrest' as (Hnd & Hfresh & Hne & Huses).
  split; [|split; [|split]].
  - rewrite fmap_cons. apply NoDup_cons. split; [|exact Hnd].
    by apply (fresh_ids_NoDup (fun io => TrimSpace (io_ID io)) ids).
  - constructor.
    + destruct (ids !! TrimSpace (io_ID io)) eqn:Hl; [|reflexivity].
      destruct Hfound. by eexists.
    + by apply (fresh_ids_weaken (fun io => TrimSpace (io_ID io)) ids
                  (TrimSpace (io_ID io))).
  - constructor; [|exact Hne]. split; by apply length_eqb_0.
  - intros Hf. by apply Huses, Hfiles.
Qed.

(** X15.  A config that [validateConfig] accepts has at least one input and one
    output; among the inputs, and among the outputs, the IDs are not empty
    and differ from one another once the surrounding white space is cut
    off, and no address is empty or only white space. *)
Theorem validateConfig_accepted `{Collaborators} (bases : list string)
    (config : Config) (usesDisk : bool) :
  validateConfig bases config = Some (Ok usesDisk) ->
  Input config <> [] /\ Output config <> []
  /\ NoDup ((fun io => TrimSpace (io_ID io)) <$> Input config)
  /\ NoDup ((fun io => TrimSpace (io_ID io)) <$> Output config)
  /\ Forall (fun io => TrimSpace (io_ID io) <> ""
                       /\ TrimSpace (io_Address io) <> "")
       (Input config ++ Output config).
Proof.
  unfold validateConfig.
  destruct (Input config) as [|input inputs] eqn:Hin; [discriminate|].
  destruct (validate_inputs _ _ _ _) as [e|] eqn:Hinputs; [discriminate|].
  destruct (Output config) as [|output outputs] eqn:Hout; [discriminate|].
  intros Houtputs.
  apply validate_inputs_None in Hinputs as (Hnd1 & _ & Hne1).
  apply validate_outputs_Ok in Houtputs as (Hnd2 & _ & Hne2 & _).
  split; [discriminate|]. split; [discriminate|].
  split; [exact Hnd1|]. split; [exact Hnd2|].
  apply Forall_app. by split.
Qed.

Lemma validateConfig_accepted_witness :
  validateConfig ["/base"] (Sample.config "a" "/base/a.ts" true) = Some (Ok true)
  /\ NoDup ((fun io => TrimSpace (io_ID io))
              <$> Input (Sample.config "a" "/base/a.ts" true)).
Proof.
  assert (Hv : validateConfig ["/base"] (Sample.config "a" "/base/a.ts" true)
               = Some (Ok true)) by (vm_compute; reflexivity).
  split; [exact Hv|].
  exact (proj1 (proj2 (proj2
           (validateConfig_accepted (H := Sample.collaborators) _ _ _ Hv)))).
Defined.
(** ** What the listing selects *)

Lemma registry_okb_correct (r : restream) :
  registry_okb r = true -> registry_ok r.
Proof.
  unfold registry_okb. rewrite forallb_forall. intros Hall id t Ht.
  assert (Hin : In (id, t) (map_to_list (tasks r)))
    by by apply list_elem_of_In, elem_of_map_to_list.
  apply Hall in Hin. apply andb_true_iff in Hin as [Hid Hwf].
  apply String.eqb_eq in Hid. split; [exact Hid|].
  intros Hvalid. rewrite Hvalid in Hwf. by apply bool_decide_eq_true in Hwf.
Qed.

(** A loop of [GetProcessIDs] whose matcher reports no error increments
    the counter of every task it visits that matches, once, and leaves
    the others alone. *)
Lemma count_matches_counts `{Collaborators} (pattern : string)
    (candidate key : string -> task -> string) (tasks : gmap string task)
    (ids : list string) :
  (forall name, is_Ok (glob_Match pattern name) = true) ->
  (forall id t, tasks !! id = Some t -> key id t = id) ->
  NoDup ids ->
  forall idmap, exists idmap',
    count_matches pattern candidate key tasks idmap ids = Some idmap'
    /\ forall j,
         idmap' !! j
         = if bool_decide (j ∈ ids) && glob_hit pattern candidate tasks j
           then Some (S (default 0%nat (idmap !! j)))
           else idmap !! j.
Proof.
  intros Hglob Hkey. induction ids as [|id ids IH]; intros Hnd idmap.
  { exists idmap. split; [reflexivity|]. intros j.
    rewrite bool_decide_eq_false_2; [reflexivity|apply not_elem_of_nil]. }
  apply NoDup_cons in Hnd as [Hfresh Hnd].
  cbn [count_matches].
  assert (Hskip : glob_hit pattern candidate tasks id = false ->
            exists idmap',
              count_matches pattern candidate key tasks idmap ids = Some idmap'
              /\ forall j,
                   idmap' !! j
                   = if bool_decide (j ∈ id :: ids)
                        && glob_hit pattern candidate tasks j
                     then Some (S (default 0%nat (idmap !! j)))
                     else idmap !! j).
  { intros Hmiss. destruct (IH Hnd idmap) as (idmap' & Hloop & Hcount).
    exists idmap'. split; [exact Hloop|]. intros j. rewrite Hcount.
    destruct (decide (j = id)) as [->|Hne].
    - rewrite Hmiss, !andb_false_r. reflexivity.
    - rewrite (bool_decide_ext (j ∈ id :: ids) (j ∈ ids)); [reflexivity|].
      rewrite elem_of_cons. tauto. }
  destruct (tasks !! id) as [t|] eqn:Ht.
  2: { apply Hskip. unfold glob_hit. by rewrite Ht. }
  specialize (Hglob (candidate id t)).
  destruct (glob_Match pattern (candidate id t)) as [[|]|e] eqn:Hmatch;
    [|apply Hskip; unfold glob_hit; by rewrite Ht, Hmatch|discriminate Hglob].
  rewrite (Hkey id t Ht).
  destruct (IH Hnd (<[id := S (default 0%nat (idmap !! id))]> idmap))
    as (idmap' & Hloop & Hcount).
  exists idmap'. split; [exact Hloop|]. intros j. rewrite Hcount.
  destruct (decide (j = id)) as [->|Hne].
  - rewrite (bool_decide_eq_false_2 (id ∈ ids)) by exact Hfresh.
    rewrite (bool_decide_eq_true_2 (id ∈ id :: ids)) by (by left).
    cbn [andb]. unfold glob_hit. rewrite Ht, Hmatch.
    apply lookup_insert_eq.
  - rewrite lookup_insert_ne by done.
    rewrite (bool_decide_ext (j ∈ id :: ids) (j ∈ ids)); [reflexivity|].
    rewrite elem_of_cons. tauto.
Qed.

Lemma filter_fst_NoDup {A B : Type} (f : A * B -> bool) (l : list (A * B)) :
  NoDup (l.*1) -> NoDup ((List.filter f l).*1).
Proof.
  induction l as [|x l IH]; cbn [List.filter]; [done|].
  rewrite fmap_cons. intros Hnd. apply NoDup_cons in Hnd as [Hx Hnd].
  destruct (f x); [|by apply IH].
  rewrite fmap_cons. apply NoDup_cons. split; [|by apply IH].
  intros Hin. apply Hx.
  apply list_elem_of_fmap in Hin as (y & Hy & Hin).
  apply list_elem_of_In, filter_In in Hin as [Hin _].
  apply list_elem_of_fmap. exists y. split; [exact Hy|by apply list_elem_of_In].
Qed.

(** The ids that the last loop of [GetProcessIDs] keeps: those whose
    counter has reached [count]. *)
Lemma selected_ids (idmap : gmap string nat) (count : nat) :
  let l := map fst (List.filter (fun '(_, n) => (n =? count)%nat)
                      (map_to_list idmap)) in
  NoDup l /\ forall id, id ∈ l <-> idmap !! id = Some count.
Proof.
  split.
  - apply (filter_fst_NoDup _ (map_to_list idmap)), NoDup_fst_map_to_list.
  - intros id. split.
    + intros Hin. apply list_elem_of_In, in_map_iff in Hin as ([i n] & Hi & Hin).
      apply filter_In in Hin as [Hin Hn]. simpl in Hi. subst i.
      apply Nat.eqb_eq in Hn as <-.
      by apply elem_of_map_to_list, list_elem_of_In.
    + intros Hl. apply list_elem_of_In, in_map_iff. exists (id, count).
      split; [reflexivity|]. apply filter_In. split.
      * by apply list_elem_of_In, elem_of_map_to_list.
      * apply Nat.eqb_refl.
Qed.

Lemma glob_hit_accepts `{Collaborators} (pattern : string)
    (candidate : string -> task -> string) (tasks : gmap string task)
    (id : string) :
  pattern <> "" ->
  glob_hit pattern candidate tasks id = true
  <-> exists t, tasks !! id = Some t /\ glob_accepts pattern (candidate id t).
Proof.
  intros Hne. unfold glob_hit, glob_accepts. split.
  - destruct (tasks !! id) as [t|]; [|discriminate].
    destruct (glob_Match _ _) as [[|]|e] eqn:Hmatch; [|discriminate..].
    intros _. exists t. split; [reflexivity|by right].
  - intros (t & -> & [Hempty | ->]); [by destruct Hne|reflexivity].
Qed.

(** X16.  [GetProcessIDs] with patterns on which the glob matcher reports no
    error, on a registry in which every task is filed under its own id:
    the result lists each task once that both patterns let through, an
    empty pattern letting every task through, and lists nothing else. *)
Theorem GetProcessIDs_selects `{Collaborators} (r : restream)
    (ids1 ids2 : list string) (idpattern refpattern : string) :
  visits ids1 r -> visits ids2 r -> registry_ok r ->
  (forall name, is_Ok (glob_Match idpattern name) = true) ->
  (forall name, is_Ok (glob_Match refpattern name) = true) ->
  exists l,
    GetProcessIDs ids1 ids2 idpattern refpattern r = slice l
    /\ NoDup l
    /\ forall id,
         id ∈ l <->
         exists t, tasks r !! id = Some t
                   /\ glob_accepts idpattern id
                   /\ glob_accepts refpattern (t_reference t).
Proof.
  intros Hv1 Hv2 Hok Hglob1 Hglob2.
  assert (Hin1 : forall j, j ∈ ids1 <-> is_Some (tasks r !! j))
    by (intros j; by apply visits_elem_of).
  assert (Hin2 : forall j, j ∈ ids2 <-> is_Some (tasks r !! j))
    by (intros j; by apply visits_elem_of).
  unfold GetProcessIDs.
  destruct (String.length idpattern =? 0)%nat eqn:Hlen1;
    destruct (String.length refpattern =? 0)%nat eqn:Hlen2; cbn [andb negb].
  - apply Nat.eqb_eq in Hlen1, Hlen2.
    assert (idpattern = "") as -> by by destruct idpattern.
    assert (refpattern = "") as -> by by destruct refpattern.
    exists (task_ids r). split; [reflexivity|].
    split; [apply NoDup_fst_map_to_list|].
    intros id. rewrite (visits_elem_of (task_ids r) r id (visits_task_ids r)).
    split.
    + intros [t Ht]. exists t. split; [exact Ht|]. split; by left.
    + intros (t & Ht & _). by eexists.
  - apply Nat.eqb_eq in Hlen1. apply length_eqb_0 in Hlen2.
    assert (idpattern = "") as -> by by destruct idpattern.
    destruct (count_matches_counts refpattern (fun _ t => t_reference t)
                (fun _ t => t_id t) (tasks r) ids2 Hglob2
                (fun id t Ht => proj1 (Hok id t Ht))
                (visits_NoDup ids2 r Hv2) ∅) as (idmap & -> & Hcount).
    cbn [fmap option_fmap option_map].
    destruct (selected_ids idmap 1) as [Hnd Hsel].
    eexists. split; [reflexivity|]. split; [exact Hnd|].
    intros id. rewrite Hsel, Hcount, lookup_empty. cbn [default].
    destruct (glob_hit _ _ _ id) eqn:Hhit.
    + assert (His : is_Some (tasks r !! id)).
      { unfold glob_hit in Hhit. destruct (tasks r !! id); [by eexists|discriminate]. }
      rewrite bool_decide_eq_true_2 by (by apply Hin2). cbn [andb].
      destruct His as [t Ht]. split; [|reflexivity].
      intros _. exists t. split; [exact Ht|]. split; [by left|].
      apply (glob_hit_accepts refpattern (fun _ t => t_reference t)) in Hhit
        as (t' & Ht' & Hacc); [|exact Hlen2]. by simplify_eq.
    + rewrite andb_false_r. split; [discriminate|].
      intros (t & Ht & _ & Hacc).
      assert (Hhit' : glob_hit refpattern (fun _ t => t_reference t) (tasks r) id
                      = true).
      { apply glob_hit_accepts; [exact Hlen2|]. by exists t. }
      congruence.
  - apply length_eqb_0 in Hlen1. apply Nat.eqb_eq in Hlen2.
    assert (refpattern = "") as -> by by destruct refpattern.
    destruct (count_matches_counts idpattern (fun id _ => id)
                (fun id _ => id) (tasks r) ids1 Hglob1
                (fun id t Ht => eq_refl)
                (visits_NoDup ids1 r Hv1) ∅) as (idmap & -> & Hcount).
    cbn [fmap option_fmap option_map].
    destruct (selected_ids idmap 1) as [Hnd Hsel].
    eexists. split; [reflexivity|]. split; [exact Hnd|].
    intros id. rewrite Hsel, Hcount, lookup_empty. cbn [default].
    destruct (glob_hit idpattern (fun id _ => id) (tasks r) id) eqn:Hhit.
    + assert (His : is_Some (tasks r !! id)).
      { unfold glob_hit in Hhit. destruct (tasks r !! id); [by eexists|discriminate]. }
      rewrite bool_decide_eq_true_2 by (by apply Hin1). cbn [andb].
      destruct His as [t Ht]. split; [|reflexivity].
      intros _. exists t. split; [exact Ht|]. split; [|by left].
      apply (glob_hit_accepts idpattern (fun id _ => id)) in Hhit
        as (t' & Ht' & Hacc); [exact Hacc|exact Hlen1].
    + rewrite andb_false_r. split; [discriminate|].
      intros (t & Ht & Hacc & _).
      assert (Hhit' : glob_hit idpattern (fun id _ => id) (tasks r) id = true).
      { apply glob_hit_accepts; [exact Hlen1|]. by exists t. }
      congruence.
  - apply length_eqb_0 in Hlen1, Hlen2.
    destruct (count_matches_counts idpattern (fun id _ => id)
                (fun id _ => id) (tasks r) ids1 Hglob1
                (fun id t Ht => eq_refl)
                (visits_NoDup ids1 r Hv1) ∅) as (idmap1 & -> & Hcount1).
    cbn [fmap option_fmap option_map].
    destruct (count_matches_counts refpattern (fun _ t => t_reference t)
                (fun _ t => t_id t) (tasks r) ids2 Hglob2
                (fun id t Ht => proj1 (Hok id t Ht))
                (visits_NoDup ids2 r Hv2) idmap1) as (idmap2 & -> & Hcount2).
    cbn [fmap option_fmap option_map].
    destruct (selected_ids idmap2 2) as [Hnd Hsel].
    eexists. split; [reflexivity|]. split; [exact Hnd|].
    intros id. rewrite Hsel, Hcount2, Hcount1, lookup_empty.
    pose proof (glob_hit_accepts idpattern (fun id _ => id) (tasks r) id Hlen1)
      as Hacc1.
    pose proof (glob_hit_accepts refpattern (fun _ t => t_reference t) (tasks r)
                  id Hlen2) as Hacc2.
    destruct (decide (is_Some (tasks r !! id))) as [His|Hnone].
    2: { rewrite !bool_decide_eq_false_2
           by (first [by rewrite Hin1|by rewrite Hin2]).
         cbn [andb]. split; [discriminate|].
         intros (t & Ht & _). destruct Hnone. by eexists. }
    rewrite !bool_decide_eq_true_2 by (first [by apply Hin1|by apply Hin2]).
    cbn [andb]. destruct His as [t Ht].
    destruct (glob_hit idpattern _ _ id) eqn:Hhit1;
      destruct (glob_hit refpattern _ _ id) eqn:Hhit2; cbn [default].
    + split; [|reflexivity]. intros _.
      destruct (proj1 Hacc1 eq_refl) as (t1 & Ht1 & Ha1).
      destruct (proj1 Hacc2 eq_refl) as (t2 & Ht2 & Ha2).
      simplify_eq. by exists t.
    + split; [discriminate|]. intros (t' & Ht' & _ & Ha2).
      assert (Hno : false = true) by (apply Hacc2; eauto).
      discriminate Hno.
    + split; [discriminate|]. intros (t' & Ht' & Ha1 & _).
      assert (Hno : false = true) by (apply Hacc1; eauto).
      discriminate Hno.
    + split; [discriminate|]. intros (t' & Ht' & Ha1 & _).
      assert (Hno : false = true) by (apply Hacc1; eauto).
      discriminate Hno.
Qed.

Lemma GetProcessIDs_selects_witness :
  exists l,
    GetProcessIDs (task_ids Sample.three_tasks) (task_ids Sample.three_tasks)
      "b" "*" Sample.three_tasks = slice l
    /\ "b" ∈ l /\ "a" ∉ l.
Proof.
  assert (Hok : registry_ok Sample.three_tasks)
    by (apply registry_okb_correct; vm_compute; reflexivity).
  destruct (tasks Sample.three_tasks !! "b") as [t|] eqn:Ht;
    [|vm_compute in Ht; discriminate Ht].
  destruct (GetProcessIDs_selects (H := Sample.collaborators) Sample.three_tasks
              (task_ids Sample.three_tasks) (task_ids Sample.three_tasks) "b" "*"
              (visits_task_ids _) (visits_task_ids _) Hok
              (fun name => eq_refl) (fun name => eq_refl))
    as (l & Hl & _ & Hsel).
  exists l. split; [exact Hl|]. split.
  - apply Hsel. exists t. split; [exact Ht|]. split; right; reflexivity.
  - intros Hin. apply Hsel in Hin as (t' & _ & [Hempty | Hmatch] & _).
    + discriminate Hempty.
    + vm_compute in Hmatch. discriminate Hmatch.
Defined.
(** ** A reload that fails *)

Lemma stop_task_valid (t : task) : t_valid (stop_task t) = t_valid t.
Proof.
  unfold stop_task. destruct (t_ffmpeg t); [|done]. by destruct (_ && _).
Qed.

(** X17.  When [reloadProcess] returns an error, the task is left marked as
    invalid, whatever it was before: a [startProcess] on it is refused
    with "invalid process definition" until a later reload succeeds.  The
    other tasks of the registry are as they were. *)
Theorem reloadProcess_error_invalidates `{Collaborators} (id : string)
    (r r' : restream) (e : error) :
  is_Some (tasks r !! id) ->
  reloadProcess id r = Some (r', Some e) ->
  (exists t', tasks r' !! id = Some t' /\ t_valid t' = false)
  /\ startProcess id r' = Some (r', Some ErrInvalidDefinition)
  /\ forall j, j <> id -> tasks r' !! j = tasks r !! j.
Proof.
  intros [t Ht]. unfold reloadProcess. rewrite Ht. intros Hr.
  assert (Hput : forall t' r0,
            t_valid t' = false ->
            (forall j, j <> id -> tasks r0 !! j = tasks r !! j) ->
            let r1 := set_tasks (<[id := t']> (tasks r0)) r0 in
            (exists t'', tasks r1 !! id = Some t'' /\ t_valid t'' = false)
            /\ startProcess id r1 = Some (r1, Some ErrInvalidDefinition)
            /\ forall j, j <> id -> tasks r1 !! j = tasks r !! j).
  { intros t' r0 Hinvalid Hframe r1.
    assert (Hl : tasks r1 !! id = Some t') by apply lookup_insert_eq.
    split; [by exists t'|]. split.
    - unfold startProcess. by rewrite Hl, Hinvalid.
    - intros j Hne. unfold r1. cbn [tasks set_tasks].
      rewrite lookup_insert_ne by done. by apply Hframe. }
  destruct (resolveAddresses _ _) as [cfg [e'|]].
  { injection Hr as <- _. by apply Hput. }
  destruct (validateConfig _ _) as [[usesDisk|e']|]; simpl in Hr; [| |done].
  2: { injection Hr as <- _. by apply Hput. }
  destruct (setPlayoutPorts _ _) as [[ff t1] e'] eqn:Hports.
  apply setPlayoutPorts_task in Hports as (Hvalid & _).
  cbn [task_set_usesDisk task_set_config task_set_valid t_valid] in Hvalid.
  destruct e' as [e'|].
  { injection Hr as <- _. by apply (Hput _ (set_ffmpeg ff r)). }
  set (r1 := set_tasks _ (set_ffmpeg ff r)) in Hr.
  assert (Hl1 : tasks r1 !! id
                = Some (task_set_command (CreateCommand (t_config t1)) t1))
    by apply lookup_insert_eq.
  assert (Hframe1 : forall j, j <> id -> tasks r1 !! j = tasks r !! j).
  { intros j Hne. unfold r1. cbn [tasks set_tasks set_ffmpeg].
    by rewrite lookup_insert_ne. }
  clearbody r1. simpl in Hr.
  destruct (String.eqb (Order (t_process _)) "start").
  - assert (Hl2 : tasks (stopProcess id r1).1 !! id
                  = Some (stop_task
                            (task_set_command (CreateCommand (t_config t1)) t1))).
    { by rewrite stopProcess_tasks, lookup_alter_eq, Hl1. }
    rewrite Hl2 in Hr. simpl in Hr.
    destruct (ffmpeg_New _) as [eng|e'].
    { destruct (startProcess _ _) as [[r4 e4]|]; simpl in Hr; discriminate Hr. }
    injection Hr as <- _. apply Hput.
    + cbn [task_set_parser t_valid]. by rewrite stop_task_valid.
    + intros j Hne. rewrite stopProcess_tasks, lookup_alter_ne by done.
      by apply Hframe1.
  - rewrite Hl1 in Hr. simpl in Hr.
    destruct (ffmpeg_New _) as [eng|e']; [discriminate Hr|].
    injection Hr as <- _. by apply Hput.
Qed.

Lemma reloadProcess_error_invalidates_witness :
  exists r' e,
    reloadProcess "b" Sample.orphan = Some (r', Some e)
    /\ (t_valid <$> tasks Sample.orphan !! "b") = Some true
    /\ (t_valid <$> tasks r' !! "b") = Some false
    /\ startProcess "b" r' = Some (r', Some ErrInvalidDefinition).
Proof.
  destruct (reloadProcess "b" Sample.orphan) as [[r' [e|]]|] eqn:Hr;
    [|vm_compute in Hr; discriminate Hr..].
  assert (Hb : is_Some (tasks Sample.orphan !! "b"))
    by (vm_compute; by eexists).
  destruct (reloadProcess_error_invalidates (H := Sample.collaborators)
              "b" Sample.orphan r' e Hb Hr) as ((t' & Ht' & Hinvalid) & Hstart & _).
  exists r', e. split; [reflexivity|].
  split; [vm_compute; reflexivity|].
  split; [by rewrite Ht', <- Hinvalid|exact Hstart].
Defined.
(** ** Placeholders *)

Lemma update_each_Forall2 {A : Type} (R : A -> A -> Prop)
    (f : list A -> A -> list A -> A) (acc todo : list A) :
  (forall d x rest, R x (f d x rest)) ->
  exists todo', update_each f acc todo = acc ++ todo' /\ Forall2 R todo todo'.
Proof.
  intros Hf. revert acc. induction todo as [|x todo IH]; intros acc.
  - exists []. split; [by rewrite app_nil_r|constructor].
  - cbn [update_each]. destruct (IH (acc ++ [f acc x todo])) as (todo' & -> & Hall).
    exists (f acc x todo :: todo'). split; [by rewrite <- app_assoc|].
    by constructor.
Qed.

Lemma update_each_same {A : Type} (f : list A -> A -> list A -> A)
    (todo : list A) :
  (forall d x rest, f d x rest = x) -> update_each f [] todo = todo.
Proof.
  intros Hf.
  destruct (update_each_Forall2 eq f [] todo) as (todo' & -> & Hall).
  { intros d x rest. by rewrite Hf. }
  apply list_eq_Forall2 in Hall. by subst.
Qed.

(** X18.  [resolvePlaceholders] rewrites texts and nothing else: the ID, the
    reference, the version constraint and the limits of the config are
    kept, no option, input or output is added or dropped, the cleanup
    rules of the inputs are left alone, and those of the outputs keep
    their limits. *)
Theorem resolvePlaceholders_shape `{Collaborators} (config : Config) :
  let config' := resolvePlaceholders config in
  ID config' = ID config /\ Reference config' = Reference config
  /\ FFVersion config' = FFVersion config
  /\ Autostart config' = Autostart config
  /\ List.length (Options config') = List.length (Options config)
  /\ Forall2 (fun io io' =>
                List.length (io_Options io') = List.length (io_Options io)
                /\ io_Cleanup io' = io_Cleanup io)
       (Input config) (Input config')
  /\ Forall2 (fun io io' =>
                List.length (io_Options io') = List.length (io_Options io)
                /\ Forall2 (fun c c' =>
                              MaxFiles c' = MaxFiles c
                              /\ MaxFileAge c' = MaxFileAge c
                              /\ PurgeOnDelete c' = PurgeOnDelete c)
                     (io_Cleanup io) (io_Cleanup io'))
       (Output config) (Output config').
Proof.
  assert (Hlen : forall (f : list string -> string -> list string -> string) l,
            List.length (update_each f [] l) = List.length l).
  { intros f l.
    destruct (update_each_Forall2 (fun _ _ => True) f [] l) as (l' & -> & Hall);
      [done|].
    symmetry. by apply Forall2_length in Hall. }
  unfold resolvePlaceholders.
  cbn [ID Reference FFVersion Autostart Options Input Output
         Config_set_Options Config_set_Input Config_set_Output].
  split; [reflexivity|]. split; [reflexivity|]. split; [reflexivity|].
  split; [reflexivity|]. split; [apply Hlen|]. split.
  - match goal with
    | |- Forall2 ?R _ (update_each ?f [] ?l) =>
        destruct (update_each_Forall2 R f [] l) as (l' & -> & Hall); [|exact Hall]
    end.
    intros d io rest. cbn [io_Options io_Cleanup]. split; [apply Hlen|reflexivity].
  - match goal with
    | |- Forall2 ?R _ (update_each ?f [] ?l) =>
        destruct (update_each_Forall2 R f [] l) as (l' & -> & Hall); [|exact Hall]
    end.
    intros d io rest. cbn [io_Options io_Cleanup]. split; [apply Hlen|].
    induction (io_Cleanup io) as [|c cs IH]; [constructor|].
    rewrite map_cons. constructor; [done|exact IH].
Qed.

(** X19.  With a replacer that finds nothing to replace, [resolvePlaceholders]
    gives the config back as it was. *)
Theorem resolvePlaceholders_nothing_to_replace `{Collaborators} (config : Config) :
  (forall s placeholder value vars cfg section,
     replace_Replace s placeholder value vars cfg section = s) ->
  resolvePlaceholders config = config.
Proof.
  intros Hsame.
  assert (Hall : forall steps vars cfg section s,
            replace_all steps vars cfg section s = s).
  { intros steps vars cfg section s. unfold replace_all.
    induction steps as [|[p v] steps IH]; [reflexivity|].
    cbn [foldl]. by rewrite Hsame. }
  assert (Hcleanup : forall (l : list ConfigIOCleanup) (g : string -> string),
            (forall s, g s = s) ->
            map (fun c => mkCleanup (g (Pattern c)) (MaxFiles c) (MaxFileAge c)
                            (PurgeOnDelete c)) l = l).
  { intros l g Hg. induction l as [|[p a b c] l IH]; [reflexivity|].
    rewrite map_cons, IH. cbn [Pattern MaxFiles MaxFileAge PurgeOnDelete].
    by rewrite Hg. }
  unfold resolvePlaceholders.
  rewrite (update_each_same _ (Options config))
    by (intros d x rest; by rewrite !Hall).
  assert (Hcfg : Config_set_Options (Options config) config = config)
    by by destruct config.
  rewrite Hcfg.
  rewrite (update_each_same _ (Input config)).
  2: { intros d [i a o c] rest. cbn [io_ID io_Address io_Options io_Cleanup].
       rewrite !Hall. f_equal.
       apply update_each_same. intros od x orest. by rewrite !Hall. }
  assert (Hcfg' : Config_set_Input (Input config) config = config)
    by by destruct config.
  rewrite Hcfg'.
  rewrite (update_each_same _ (Output config)).
  2: { intros d [i a o c] rest. cbn [io_ID io_Address io_Options io_Cleanup].
       rewrite !Hall. f_equal.
       - apply update_each_same. intros od x orest. by rewrite !Hall.
       - apply Hcleanup. intros s. by rewrite !Hall. }
  by destruct config.
Qed.

Lemma resolvePlaceholders_nothing_to_replace_witness :
  resolvePlaceholders (Sample.config "a" "/base/a.ts" true)
  = Sample.config "a" "/base/a.ts" true.
Proof.
  apply (resolvePlaceholders_nothing_to_replace (H := Sample.collaborators)).
  intros s placeholder value vars cfg section. reflexivity.
Defined.
(** ** Cleanup rules *)

Lemma fs_UnsetCleanup_SetCleanup (id : string) (ps : list CleanupPattern)
    (f : Filesystem) :
  fs_UnsetCleanup id (fs_SetCleanup id ps f) = fs_UnsetCleanup id f.
Proof.
  unfold fs_UnsetCleanup, fs_SetCleanup. cbn. by rewrite delete_insert_eq.
Qed.

Lemma set_cleanup_first_unset (name id : string) (p : CleanupPattern)
    (l : list Filesystem) :
  map (fs_UnsetCleanup id) (set_cleanup_first name id p l)
  = map (fs_UnsetCleanup id) l.
Proof.
  induction l as [|f l IH]; cbn [set_cleanup_first]; [reflexivity|].
  destruct (String.eqb (fs_Name f) name); rewrite !map_cons.
  - by rewrite fs_UnsetCleanup_SetCleanup.
  - by rewrite IH.
Qed.

Lemma set_cleanup_first_others (name id j : string) (p : CleanupPattern)
    (l : list Filesystem) :
  j <> id ->
  map (fun f => fs_cleanup f !! j) (set_cleanup_first name id p l)
  = map (fun f => fs_cleanup f !! j) l.
Proof.
  intros Hne. induction l as [|f l IH]; cbn [set_cleanup_first]; [reflexivity|].
  destruct (String.eqb (fs_Name f) name); rewrite !map_cons.
  - cbn [fs_SetCleanup fs_cleanup]. by rewrite lookup_insert_ne.
  - by rewrite IH.
Qed.

Lemma setCleanup_loop (id : string) (config : Config) (l : list Filesystem)
    (view : list Filesystem -> list Filesystem -> Prop) :
  (forall l0, view l0 l0) ->
  (forall l0 l1 name p, view l0 l1 -> view l0 (set_cleanup_first name id p l1)) ->
  view l (foldl (fun l output => foldl (setCleanup_rule id) l (io_Cleanup output))
            l (Output config)).
Proof.
  intros Hrefl Hstep.
  assert (Hrules : forall cs l1, view l l1 ->
            view l (foldl (setCleanup_rule id) l1 cs)).
  { induction cs as [|c cs IH]; intros l1 Hl1; [exact Hl1|].
    cbn [foldl]. apply IH. unfold setCleanup_rule.
    destruct (rePrefix (Pattern c)) as [[name rest]|]; [|exact Hl1].
    by apply Hstep. }
  assert (Houtputs : forall outputs l1, view l l1 ->
            view l (foldl (fun l output =>
                             foldl (setCleanup_rule id) l (io_Cleanup output))
                      l1 outputs)).
  { induction outputs as [|o outputs IH]; intros l1 Hl1; [exact Hl1|].
    cbn [foldl]. apply IH. by apply Hrules. }
  by apply Houtputs.
Qed.

(** X20.  [setCleanup] installs rules for the given task id only, and
    [unsetCleanup] takes them away again: the rules of the other tasks are
    not touched, and when the task had no rule before, [unsetCleanup]
    after [setCleanup] gives the state back as it was. *)
Theorem setCleanup_then_unsetCleanup (id : string) (config : Config)
    (r : restream) :
  (forall j, j <> id ->
     map (fun f => fs_cleanup f !! j) (fs_list (setCleanup id config r))
     = map (fun f => fs_cleanup f !! j) (fs_list r))
  /\ unsetCleanup id (setCleanup id config r) = unsetCleanup id r
  /\ (no_cleanup id r -> unsetCleanup id (setCleanup id config r) = r).
Proof.
  assert (Hunset : unsetCleanup id (setCleanup id config r) = unsetCleanup id r).
  { unfold unsetCleanup, setCleanup. cbn [fs_list set_fs_list].
    rewrite (setCleanup_loop id config (fs_list r)
               (fun l0 l1 => map (fs_UnsetCleanup id) l1
                             = map (fs_UnsetCleanup id) l0));
      [by destruct r|done|].
    intros l0 l1 name p Hl1. by rewrite set_cleanup_first_unset. }
  split; [|split; [exact Hunset|]].
  - intros j Hne. unfold setCleanup. cbn [fs_list set_fs_list].
    apply (setCleanup_loop id config (fs_list r)
             (fun l0 l1 => map (fun f => fs_cleanup f !! j) l1
                           = map (fun f => fs_cleanup f !! j) l0)); [done|].
    intros l0 l1 name p Hl1. by rewrite set_cleanup_first_others.
  - intros Hnone. rewrite Hunset. unfold unsetCleanup.
    assert (Hsame : map (fs_UnsetCleanup id) (fs_list r) = fs_list r).
    { unfold no_cleanup in Hnone.
      induction Hnone as [|f l Hf _ IH]; [reflexivity|].
      rewrite map_cons, IH. f_equal.
      unfold fs_UnsetCleanup. rewrite delete_id by exact Hf. by destruct f. }
    rewrite Hsame. by destruct r.
Qed.

Lemma setCleanup_then_unsetCleanup_witness :
  unsetCleanup "a"
    (setCleanup "a" (Sample.config "a" "/base/a.ts" true) (Sample.empty 2))
  = Sample.empty 2
  /\ no_cleanup "a" (Sample.empty 2)
  /\ ~ no_cleanup "a"
       (setCleanup "a" (Sample.config "a" "/base/a.ts" true) (Sample.empty 2)).
Proof.
  assert (Hnone : no_cleanup "a" (Sample.empty 2)).
  { repeat constructor. }
  split; [|split; [exact Hnone|]].
  - exact (proj2 (proj2 (setCleanup_then_unsetCleanup "a"
                           (Sample.config "a" "/base/a.ts" true) (Sample.empty 2)))
             Hnone).
  - intros Hno. apply Forall_inv in Hno. vm_compute in Hno. discriminate Hno.
Defined.
(** ** Restarting a process *)

(** X21.  [RestartProcess] touches nothing but the engine of the task: on a task
    whose order is "stop" it does nothing at all, otherwise it kills the
    engine and leaves the order, the counter of running processes, the
    stored processes and the other tasks as they were; and when it returns
    an error the state is unchanged. *)
Theorem RestartProcess_only_kills (id : string) (r r' : restream)
    (err : option error) :
  RestartProcess id r = Some (r', err) ->
  nProc r' = nProc r /\ store r' = store r
  /\ (forall j, t_process <$> tasks r' !! j = t_process <$> tasks r !! j)
  /\ (forall j, j <> id -> tasks r' !! j = tasks r !! j)
  /\ (is_Some err -> r' = r)
  /\ (forall t, tasks r !! id = Some t -> t_valid t = true ->
        (Order (t_process t) = "stop" -> r' = r /\ err = None)
        /\ (Order (t_process t) <> "stop" ->
            exists eng, t_ffmpeg t = Some eng
              /\ tasks r' !! id
                 = Some (task_set_ffmpeg (Some (engine_Kill true eng)) t))).
Proof.
  unfold RestartProcess, restartProcess. intros Hr.
  destruct (tasks r !! id) as [t|] eqn:Ht.
  2: { injection Hr as <- <-.
       split; [done|]. split; [done|]. split; [done|]. split; [done|].
       split; [done|]. intros t Hsome. discriminate Hsome. }
  destruct (t_valid t) eqn:Hvalid; cbn [negb] in Hr.
  2: { injection Hr as <- <-.
       split; [done|]. split; [done|]. split; [done|]. split; [done|].
       split; [done|]. intros t' [= <-] Hv. congruence. }
  destruct (String.eqb (Order (t_process t)) "stop") eqn:Horder.
  { injection Hr as <- <-. apply String.eqb_eq in Horder.
    split; [done|]. split; [done|]. split; [done|]. split; [done|].
    split; [by intros [? ?]|].
    intros t' [= <-] _. split; [done|]. by intros Hne. }
  apply String.eqb_neq in Horder.
  destruct (t_ffmpeg t) as [eng|] eqn:Heng; [|discriminate].
  injection Hr as <- <-. cbn [nProc store tasks set_tasks].
  split; [done|]. split; [done|]. split.
  { intros j. destruct (decide (j = id)) as [->|Hne].
    - by rewrite lookup_insert_eq, Ht.
    - by rewrite lookup_insert_ne. }
  split; [intros j Hne; by rewrite lookup_insert_ne|].
  split; [by intros [? ?]|].
  intros t' [= <-] _. split; [done|].
  intros _. exists eng. split; [done|]. apply lookup_insert_eq.
Qed.

Lemma RestartProcess_only_kills_witness :
  exists r',
    RestartProcess "a" Sample.one_task = Some (r', None)
    /\ nProc r' = nProc Sample.one_task
    /\ (e_calls <$> (tasks r' !! "a" ≫= t_ffmpeg)) = Some [CallKill true; CallStart].
Proof.
  destruct (RestartProcess "a" Sample.one_task) as [[r' [e|]]|] eqn:Hr;
    [vm_compute in Hr; discriminate Hr| |vm_compute in Hr; discriminate Hr].
  destruct (RestartProcess_only_kills "a" Sample.one_task r' None Hr)
    as (Hn & _ & _ & _ & _ & Htask).
  exists r'. split; [reflexivity|]. split; [exact Hn|].
  destruct (tasks Sample.one_task !! "a") as [t|] eqn:Ht;
    [|vm_compute in Ht; discriminate Ht].
  pose proof Ht as Ht'. vm_compute in Ht'. injection Ht' as Ht'.
  assert (Hvalid : t_valid t = true) by (rewrite <- Ht'; reflexivity).
  assert (Horder : Order (t_process t) <> "stop")
    by (rewrite <- Ht'; discriminate).
  destruct (proj2 (Htask t eq_refl Hvalid) Horder) as (eng & Heng & ->).
  rewrite <- Ht' in Heng. injection Heng as <-. reflexivity.
Defined.
